(** * Stream lifecycle orchestrator: drone_telemetry_server.js

    A shallow embedding of the telemetry server.  The server is a single
    Node.js event loop: every callback (MQTT message, interval timer, the
    completion of an HTTP request or of a [sleep]) runs to its next
    [await] without interruption.  The embedding follows that shape: the
    module-level variables form a record [State], every suspended [async]
    invocation is a [Task] that remembers where it waits and its live
    locals, and [step] runs one callback.  Requests sent to the outside
    and the settlement of async invocations are recorded as [Effect]s. *)

From Stdlib Require Import Ascii String ZArith QArith Qround Qminmax Qpower Lia Lqa.
From stdpp Require Import base decidable option list strings gmap.

(** ** Configuration constants (lines 16-20, 126-129) *)

Definition MAX_RETRY_ATTEMPTS : nat := 10.
Definition INITIAL_RETRY_DELAY_MS : Z := 2000.
Definition MAX_RETRY_DELAY_MS : Z := 30000.
Definition RETRY_CHECK_INTERVAL_MS : Z := 60000.
Definition INACTIVITY_TIMEOUT_MS : Z := 25000.
Definition CHECK_INTERVAL_MS : Z := 10000.
(** [maxFetchAttempts], local to [startStream] (line 226). *)
Definition maxFetchAttempts : nat := 3.

(** ** JavaScript values that the server inspects *)

(** A string is truthy unless it is empty. *)
Definition truthy_string (s : string) : bool :=
  match s with EmptyString => false | _ => true end.

(** [x || d] where [x] is a string or [undefined]. *)
Definition or_default (x : option string) (d : string) : string :=
  match x with
  | Some s => if truthy_string s then s else d
  | None => d
  end.

(** The result of [JSON.parse].  Numbers are kept as rationals; only
    whether a number is zero matters to the server. *)
#[local] Unset Elimination Schemes.
Inductive json : Type :=
| JNull
| JBool (b : bool)
| JNum (q : Q)
| JStr (s : string)
| JArr (elems : list json)
| JObj (members : list (string * json)).
#[local] Set Elimination Schemes.

(** ToBoolean; [None] stands for [undefined]. *)
Definition truthy (v : option json) : bool :=
  match v with
  | None => false
  | Some JNull => false
  | Some (JBool b) => b
  | Some (JNum q) => negb (Qeq_bool q 0)
  | Some (JStr s) => truthy_string s
  | Some (JArr _) => true
  | Some (JObj _) => true
  end.

(** [typeof v === 'object'] ([null] included, as in JavaScript). *)
Definition typeof_object (v : option json) : bool :=
  match v with
  | Some JNull | Some (JArr _) | Some (JObj _) => true
  | _ => false
  end.

(** Own member of a parsed object: a later duplicate key wins. *)
Fixpoint obj_lookup (members : list (string * json)) (key : string) : option json :=
  match members with
  | [] => None
  | (k, v) :: rest =>
      match obj_lookup rest key with
      | Some w => Some w
      | None => if String.eqb k key then Some v else None
      end
  end.

(** Canonical array index: "0", or decimal digits without a leading zero. *)
Definition digit_value (c : ascii) : option nat :=
  let n := nat_of_ascii c in
  if (48 <=? n)%nat && (n <=? 57)%nat then Some (n - 48)%nat else None.

Fixpoint digits_value (acc : nat) (s : string) : option nat :=
  match s with
  | EmptyString => Some acc
  | String c rest =>
      match digit_value c with
      | Some d => digits_value (10 * acc + d) rest
      | None => None
      end
  end.

Definition array_index (key : string) : option nat :=
  match key with
  | EmptyString => None
  | String "0" EmptyString => Some 0%nat
  | String "0" _ => None
  | _ => digits_value 0 key
  end.

(** The string-keyed members of [Object.prototype], which every parsed
    object inherits, and of [Array.prototype] (ECMAScript 2023, as in
    Node 20 and later), which every parsed array inherits before those.
    All of them are functions, but for [__proto__], which answers with
    the prototype object. *)
Definition Object_prototype : list string :=
  [ "constructor"; "__defineGetter__"; "__defineSetter__"; "hasOwnProperty";
    "__lookupGetter__"; "__lookupSetter__"; "isPrototypeOf";
    "propertyIsEnumerable"; "toString"; "valueOf"; "__proto__";
    "toLocaleString" ].

Definition Array_prototype : list string :=
  [ "constructor"; "at"; "concat"; "copyWithin"; "fill"; "find"; "findIndex";
    "findLast"; "findLastIndex"; "lastIndexOf"; "pop"; "push"; "reverse";
    "shift"; "unshift"; "slice"; "sort"; "splice"; "includes"; "indexOf";
    "join"; "keys"; "entries"; "values"; "forEach"; "filter"; "flat";
    "flatMap"; "map"; "every"; "some"; "reduce"; "reduceRight";
    "toLocaleString"; "toString"; "toReversed"; "toSorted"; "toSpliced";
    "with" ].

(** What a property read gives: a parsed value or [undefined]; a member
    inherited from a prototype, which is a function or an object of the
    runtime and so truthy; or a [TypeError]. *)
Inductive access (A : Type) : Type :=
| Value (a : A)
| Native
| TypeError.
Arguments Value {A} a.
Arguments Native {A}.
Arguments TypeError {A}.

(** Property read [v[key]].  Reading from [null] or [undefined] throws.
    Objects and arrays answer with their own members (elements by
    canonical index, and [length]) and, for a key that is not their
    own, with what they inherit through the prototype chain.  The one
    property read from a value that may be primitive is the literal
    [data], which no primitive wrapper has. *)
Definition get_prop (v : option json) (key : string) : access (option json) :=
  match v with
  | None | Some JNull => TypeError
  | Some (JObj members) =>
      match obj_lookup members key with
      | Some w => Value (Some w)
      | None =>
          if bool_decide (key ∈ Object_prototype) then Native else Value None
      end
  | Some (JArr elems) =>
      if String.eqb key "length"
      then Value (Some (JNum (inject_Z (Z.of_nat (length elems)))))
      else match array_index key ≫= (λ i, elems !! i) with
           | Some w => Value (Some w)
           | None =>
               if bool_decide (key ∈ Array_prototype ++ Object_prototype)
               then Native else Value None
           end
  | Some _ => Value None
  end.

(** [topic.split('/')]. *)
Fixpoint split_slash (cur : string) (s : string) : list string :=
  match s with
  | EmptyString => [cur]
  | String c rest =>
      if Ascii.eqb c "/" then cur :: split_slash EmptyString rest
      else split_slash (cur +:+ String c EmptyString) rest
  end.

(** [topic.split('/')[2]]; [None] is [undefined]. *)
Definition topic_sn (topic : string) : option string :=
  split_slash EmptyString topic !! 2%nat.

(** ** Registry records (src/types/drone.d.ts) and the cached form *)

Module Db.
Record Metadata := { alias : option string }.
Record StreamCredentials :=
  { userName : option string; password : option string; port : option string }.
Record Drone := {
  deviceSerialNumber : string;
  deviceName : string;
  metadata : option Metadata;
  streamCredentials : option StreamCredentials;
  cameras : option (list string)
}.
End Db.

Record DroneConfig := {
  sn : string;
  name : string;
  alias : string;
  userName : string;
  password : string;
  port : string;
  cameras : list string
}.

(** The object literal of lines 54-62 and 236-244. *)
Definition to_config (drone : Db.Drone) : DroneConfig :=
  {| sn := Db.deviceSerialNumber drone;
     name := Db.deviceName drone;
     alias := or_default (Db.metadata drone ≫= Db.alias) (Db.deviceName drone);
     userName := or_default (Db.streamCredentials drone ≫= Db.userName) "";
     password := or_default (Db.streamCredentials drone ≫= Db.password) "";
     port := or_default (Db.streamCredentials drone ≫= Db.port) "8554";
     cameras := default [] (Db.cameras drone) |}.

(** ** The [Map] droneLastMessageTime

    A JavaScript [Map] keeps its entries in insertion order; [delete]
    empties the entry in place and a live iterator is an index into the
    entry list.  [None] is an emptied entry.  Keys are [topic_sn] results,
    so [undefined] ([None]) can be a key. *)

Definition MapKey : Type := option string.
Definition MapData : Type := list (option (MapKey * Z)).

Definition key_is (k : MapKey) (slot : option (MapKey * Z)) : bool :=
  match slot with
  | Some (k', _) => bool_decide (k' = k)
  | None => false
  end.

Fixpoint map_get (m : MapData) (k : MapKey) : option Z :=
  match m with
  | [] => None
  | slot :: rest =>
      if key_is k slot then snd <$> slot else map_get rest k
  end.

Fixpoint map_set (m : MapData) (k : MapKey) (v : Z) : MapData :=
  match m with
  | [] => [Some (k, v)]
  | slot :: rest =>
      if key_is k slot then Some (k, v) :: rest else slot :: map_set rest k v
  end.

Fixpoint map_delete (m : MapData) (k : MapKey) : MapData :=
  match m with
  | [] => []
  | slot :: rest =>
      if key_is k slot then None :: rest else slot :: map_delete rest k
  end.

(** ** Numbers (IEEE 754 binary64)

    A JavaScript number is a double, and every arithmetic operation
    returns the double nearest to the exact result, the one with the
    even significand of two that are equally near.  Doubles are kept
    here as the rationals they denote.  The results in
    [calculateRetryDelay] are zero or of normal size, so the exponent is
    left unbounded. *)

Definition pow2 (e : Z) : Q := (2 ^ e)%Q.

(** [floor (log2 q)] for a positive [q]. *)
Definition Qlog2 (q : Q) : Z :=
  let k := (Z.log2 (Qnum q) - Z.log2 (Zpos (Qden q)))%Z in
  if Qle_bool (pow2 k) q then k else (k - 1)%Z.

(** The integer nearest to [q], the even one of two that are equally
    near. *)
Definition round_half_even (q : Q) : Z :=
  let f := Qfloor q in
  match Qcompare (q - inject_Z f) (1 # 2) with
  | Lt => f
  | Eq => if Z.even f then f else (f + 1)%Z
  | Gt => (f + 1)%Z
  end.

(** The double nearest to a positive [q]: a significand of 53 bits. *)
Definition round_positive (q : Q) : Q :=
  let e := (Qlog2 q - 52)%Z in
  (inject_Z (round_half_even (q / pow2 e)) * pow2 e)%Q.

Definition round_double (q : Q) : Q :=
  match Qcompare q 0 with
  | Gt => round_positive q
  | Eq => 0
  | Lt => - round_positive (- q)
  end.

(** ** Retry delay (lines 29-37)

    [random] is the value returned by [Math.random()], a double in
    [0, 1).  [INITIAL_RETRY_DELAY_MS * Math.pow(2, attempt)] is a double
    as it stands, or overflows to [Infinity] far above the cap, so that
    [exponentialDelay] needs no rounding; each of the two products, the
    difference and the sum of lines 35-36 is rounded. *)

Definition exponentialDelay (attempt : nat) : Q :=
  Qmin (inject_Z INITIAL_RETRY_DELAY_MS * inject_Z (2 ^ Z.of_nat attempt))
       (inject_Z MAX_RETRY_DELAY_MS).

(** The literal [0.2]. *)
Definition double_0_2 : Q := round_double (2 # 10).

Definition jitter (attempt : nat) (random : Q) : Q :=
  round_double (round_double (exponentialDelay attempt * double_0_2)
                * round_double (random - (1 # 2))).

Definition calculateRetryDelay (attempt : nat) (random : Q) : Z :=
  Qfloor (round_double (exponentialDelay attempt + jitter attempt random)).

(** ** Requests, effects, suspended invocations *)

Inductive Request : Type :=
| GetDrones                                              (* line 47 *)
| GetDrone (droneSN : string)                            (* line 230 *)
| PatchDrone (droneSN : string) (streamIsOn : bool) (streamUrl : string) (* line 100 *)
| PostLogin                                              (* line 174 *)
| PostStreamStart (url video_id token : string)          (* line 295 *)
| SleepMs (ms : Z).                                      (* line 41 *)

(** [Call id r]: the async invocation [id] sends [r] and waits for it.
    [Return id v]: the invocation returns ([None] is [undefined]); no
    invocation of this server ever rejects. *)
Inductive Effect : Type :=
| Call (id : nat) (r : Request)
| Subscribe (topic : string)
| IoEmit (droneData : json) (sn : MapKey)
| Return (id : nat) (v : option bool).

(** What comes back.  [None] in a response means that the request threw,
    or that its body did not have the shape the code reads. *)
Inductive Response : Type :=
| Resp_drones (drones : option (list Db.Drone))   (* response.data.data.drones *)
| Resp_drone (drone : option Db.Drone)            (* response.data.data.drone *)
| Resp_login (access_token : option string)       (* response.data.data.access_token *)
| Resp_stream (r : option (Z * string))           (* response.status, response.data.data.url *)
| Resp_patch (status : option Z)
| Resp_timer.

(** A suspended [async] invocation: the [await] it waits at, and the
    locals that are still live. *)
Inductive Task : Type :=
| StartStream_login (droneSN : string)                     (* line 211, inside getAcessToken at 174 *)
| StartStream_fetch (droneSN token : string) (fetchAttempts : nat)  (* line 230 *)
| StartStream_sleep (droneSN token : string) (fetchAttempts : nat)  (* line 259 *)
| StartStream_post (droneSN token : string) (drone : DroneConfig) (cameraId : string) (* line 295 *)
| StartStream_update (droneSN : string)                    (* line 309 *)
| Load_get (attempt : nat)                                 (* line 47 *)
| Load_sleep (attempt : nat)                               (* line 75 *)
| Watchdog_update (now : Z) (pos : nat) (droneSN : string) (* line 143 *)
| Update_detached (droneSN : string).                      (* line 421, not awaited *)

(** ** Module-level variables (lines 23-26, 117-124) *)

Record State := {
  droneSNs : list string;
  dronesConfig : list DroneConfig;
  databaseConnected : bool;
  retryCount : nat;
  cachedToken : option string;
  tokenExpiry : option Z;
  startedStreams : gset string;
  droneLastMessageTime : MapData;
  pending : gmap nat Task;
  nextId : nat
}.

Definition initial_state : State :=
  {| droneSNs := []; dronesConfig := []; databaseConnected := false;
     retryCount := 0; cachedToken := None; tokenExpiry := None;
     startedStreams := ∅; droneLastMessageTime := []; pending := ∅;
     nextId := 0 |}.

Definition set_drones (cfg : list DroneConfig) (sns : list string) (st : State) : State :=
  {| droneSNs := sns; dronesConfig := cfg;
     databaseConnected := databaseConnected st; retryCount := retryCount st;
     cachedToken := cachedToken st; tokenExpiry := tokenExpiry st;
     startedStreams := startedStreams st;
     droneLastMessageTime := droneLastMessageTime st;
     pending := pending st; nextId := nextId st |}.

Definition set_databaseConnected (b : bool) (st : State) : State :=
  {| droneSNs := droneSNs st; dronesConfig := dronesConfig st;
     databaseConnected := b; retryCount := retryCount st;
     cachedToken := cachedToken st; tokenExpiry := tokenExpiry st;
     startedStreams := startedStreams st;
     droneLastMessageTime := droneLastMessageTime st;
     pending := pending st; nextId := nextId st |}.

Definition set_retryCount (n : nat) (st : State) : State :=
  {| droneSNs := droneSNs st; dronesConfig := dronesConfig st;
     databaseConnected := databaseConnected st; retryCount := n;
     cachedToken := cachedToken st; tokenExpiry := tokenExpiry st;
     startedStreams := startedStreams st;
     droneLastMessageTime := droneLastMessageTime st;
     pending := pending st; nextId := nextId st |}.

Definition set_cachedToken (t : option string) (st : State) : State :=
  {| droneSNs := droneSNs st; dronesConfig := dronesConfig st;
     databaseConnected := databaseConnected st; retryCount := retryCount st;
     cachedToken := t; tokenExpiry := tokenExpiry st;
     startedStreams := startedStreams st;
     droneLastMessageTime := droneLastMessageTime st;
     pending := pending st; nextId := nextId st |}.

Definition set_startedStreams (s : gset string) (st : State) : State :=
  {| droneSNs := droneSNs st; dronesConfig := dronesConfig st;
     databaseConnected := databaseConnected st; retryCount := retryCount st;
     cachedToken := cachedToken st; tokenExpiry := tokenExpiry st;
     startedStreams := s;
     droneLastMessageTime := droneLastMessageTime st;
     pending := pending st; nextId := nextId st |}.

Definition set_droneLastMessageTime (m : MapData) (st : State) : State :=
  {| droneSNs := droneSNs st; dronesConfig := dronesConfig st;
     databaseConnected := databaseConnected st; retryCount := retryCount st;
     cachedToken := cachedToken st; tokenExpiry := tokenExpiry st;
     startedStreams := startedStreams st;
     droneLastMessageTime := m;
     pending := pending st; nextId := nextId st |}.

Definition set_pending (p : gmap nat Task) (st : State) : State :=
  {| droneSNs := droneSNs st; dronesConfig := dronesConfig st;
     databaseConnected := databaseConnected st; retryCount := retryCount st;
     cachedToken := cachedToken st; tokenExpiry := tokenExpiry st;
     startedStreams := startedStreams st;
     droneLastMessageTime := droneLastMessageTime st;
     pending := p; nextId := nextId st |}.

(** A fresh invocation identifier. *)
Definition fresh (st : State) : nat * State :=
  (nextId st,
   {| droneSNs := droneSNs st; dronesConfig := dronesConfig st;
      databaseConnected := databaseConnected st; retryCount := retryCount st;
      cachedToken := cachedToken st; tokenExpiry := tokenExpiry st;
      startedStreams := startedStreams st;
      droneLastMessageTime := droneLastMessageTime st;
      pending := pending st; nextId := S (nextId st) |}).

(** The invocation [id] sends [r] and suspends as [t]. *)
Definition await (id : nat) (t : Task) (r : Request) (st : State) : State * list Effect :=
  (set_pending (<[id := t]> (pending st)) st, [Call id r]).

(** The invocation [id] returns [v]. *)
Definition finish (id : nat) (v : option bool) (st : State) : State * list Effect :=
  (st, [Return id v]).

(** ** Registry load (lines 44-84) *)

(** [loadDronesFromAPI(attempt)] up to its [await axios.get]. *)
Definition loadDronesFromAPI (id attempt : nat) (st : State) : State * list Effect :=
  await id (Load_get attempt) GetDrones st.

(** [subscribeToAllDrones] (lines 373-390). *)
Definition subscribeToAllDrones (st : State) : list Effect :=
  (fun sn => Subscribe ("thing/product/" +:+ sn +:+ "/osd")) <$> droneSNs st.

(** The rest of the [try] block once the answer is there, and the
    [catch] block.  Both callers (lines 154-162 and 361-369) subscribe
    when the load returns [true] and only log otherwise. *)
Definition loadDronesFromAPI_resume (id attempt : nat)
    (drones : option (list Db.Drone)) (random : Q) (st : State) : State * list Effect :=
  match drones with
  | Some drones =>
      let cfg := to_config <$> drones in
      let st := set_drones cfg (sn <$> cfg) st in
      let st := set_databaseConnected true st in
      let st := set_retryCount 0 st in
      (st, Return id (Some true) :: subscribeToAllDrones st)
  | None =>
      if (attempt <? MAX_RETRY_ATTEMPTS - 1)%nat then
        let delay := calculateRetryDelay attempt random in
        await id (Load_sleep attempt) (SleepMs delay) st
      else
        let st := set_databaseConnected false st in
        let st := set_retryCount (attempt + 1) st in
        finish id (Some false) st
  end.

(** ** First camera (lines 87-90) *)

Definition find_drone (cfg : list DroneConfig) (droneSN : MapKey) : option DroneConfig :=
  match droneSN with
  | Some droneSN => List.find (fun d => String.eqb (sn d) droneSN) cfg
  | None => None
  end.

(** [cameras[0]] when it is truthy. *)
Definition first_camera (cameras : list string) : option string :=
  match cameras with
  | c :: _ => if truthy_string c then Some c else None
  | [] => None
  end.

Definition getDroneFirstCamera (st : State) (droneSN : MapKey) : option string :=
  find_drone (dronesConfig st) droneSN ≫= (fun drone => first_camera (cameras drone)).

(** ** Reporting the stream status (lines 93-114) *)

(** [updateDroneStreamStatus] (lines 93-114) up to its [await]: the
    invocation [id] sends the update and suspends as [waiting]. *)
Definition updateDroneStreamStatus (id : nat) (waiting : Task)
    (droneSN : string) (streamIsOn : bool) (streamUrl : string)
    (st : State) : State * list Effect :=
  await id waiting (PatchDrone droneSN streamIsOn streamUrl) st.

(** It returns [true] on status 200, [undefined] on another status and
    [false] when the request threw. *)
Definition updateDroneStreamStatus_result (status : option Z) : option bool :=
  match status with
  | Some s => if (s =? 200)%Z then Some true else None
  | None => Some false
  end.

(** ** Access token (lines 168-198) *)

(** [getAcessToken()] up to its [await]: the cached token when the test
    of line 170 passes (a [tokenExpiry] of zero is falsy), [None] when
    the login request has to be sent. *)
Definition getAcessToken (st : State) (now : Z) : option string :=
  match cachedToken st with
  | Some token =>
      if truthy_string token &&
         match tokenExpiry st with
         | None => true
         | Some expiry => (expiry =? 0)%Z || (now <? expiry)%Z
         end
      then Some token else None
  | None => None
  end.

(** The rest of [getAcessToken] once the login is answered (lines
    185-196): a truthy token is cached and returned, anything else ends
    in the [catch] block, which returns [null]. *)
Definition getAcessToken_resume (access_token : option string) (st : State)
    : State * option string :=
  match access_token with
  | Some token =>
      if truthy_string token
      then (set_cachedToken (Some token) st, Some token)
      else (st, None)
  | None => (st, None)
  end.

(** ** Starting a stream (lines 203-321) *)

(** Lines 274-300: the first camera, the payload, the request. *)
Definition startStream_with_drone (id : nat) (droneSN token : string)
    (drone : DroneConfig) (st : State) : State * list Effect :=
  match first_camera (cameras drone) with
  | None => finish id None st
  | Some cameraId =>
      let url := "userName=" +:+ userName drone +:+ "&password=" +:+ password drone
                 +:+ "&port=" +:+ port drone in
      let video_id := droneSN +:+ "/" +:+ cameraId +:+ "/thermal-0" in
      await id (StartStream_post droneSN token drone cameraId)
            (PostStreamStart url video_id token) st
  end.

(** Lines 217-232: the cache lookup and the first fallback request. *)
Definition startStream_with_token (id : nat) (droneSN token : string)
    (st : State) : State * list Effect :=
  match find_drone (dronesConfig st) (Some droneSN) with
  | Some drone => startStream_with_drone id droneSN token drone st
  | None =>
      if (0 <? maxFetchAttempts)%nat
      then await id (StartStream_fetch droneSN token 0) (GetDrone droneSN) st
      else finish id None st
  end.

(** [startStream(droneSN)] and, inside it, [getAcessToken()] up to the
    login request. *)
Definition startStream (droneSN : string) (now : Z) (st : State) : State * list Effect :=
  let '(id, st) := fresh st in
  if bool_decide (droneSN ∈ startedStreams st) then finish id None st
  else match getAcessToken st now with
       | Some token => startStream_with_token id droneSN token st
       | None => await id (StartStream_login droneSN) PostLogin st
       end.

(** ** Inactivity watchdog (lines 132-148) *)

(** The test of line 136. *)
Definition inactive (now lastMessageTime : Z) : bool :=
  let timeSinceLastMessage := (now - lastMessageTime)%Z in
  (timeSinceLastMessage >? INACTIVITY_TIMEOUT_MS)%Z.

(** The [for] loop from one [await] to the next.  [entries] is what the
    iterator has not visited yet and [pos] the index of its first entry:
    until the loop suspends, the only change to the map is that the entry
    just visited is emptied, so what is left to visit is the same in the
    map as it is in [entries].  After an [await] the loop goes on from
    the map as it is then (see [resume]). *)
Fixpoint watchdog_loop (id : nat) (now : Z) (entries : MapData) (pos : nat)
    (st : State) : State * list Effect :=
  match entries with
  | [] => finish id None st
  | None :: rest => watchdog_loop id now rest (S pos) st
  | Some (droneSN, lastMessageTime) :: rest =>
      if inactive now lastMessageTime then
        match droneSN with
        | Some serial =>
            if bool_decide (serial ∈ startedStreams st) then
              let st := set_startedStreams (startedStreams st ∖ {[serial]}) st in
              updateDroneStreamStatus id (Watchdog_update now (S pos) serial)
                serial false "" st
            else
              let st := set_droneLastMessageTime
                          (map_delete (droneLastMessageTime st) droneSN) st in
              watchdog_loop id now rest (S pos) st
        | None =>
            let st := set_droneLastMessageTime
                        (map_delete (droneLastMessageTime st) droneSN) st in
            watchdog_loop id now rest (S pos) st
        end
      else watchdog_loop id now rest (S pos) st
  end.

Definition watchdog_tick (now : Z) (st : State) : State * list Effect :=
  let '(id, st) := fresh st in
  watchdog_loop id now (droneLastMessageTime st) 0 st.

(** ** Reconnection supervisor (lines 151-164) *)

Definition supervisor_tick (st : State) : State * list Effect :=
  if databaseConnected st then (st, [])
  else let '(id, st) := fresh st in loadDronesFromAPI id 0 st.

(** ** Telemetry (lines 393-432) *)

(** The condition of line 408. *)
Definition camera_online (st : State) (droneSN : MapKey) (data : option json) : bool :=
  match getDroneFirstCamera st droneSN with
  | Some firstCamera =>
      match get_prop data firstCamera with
      | Value v => truthy v
      | Native => true
      | TypeError => false
      end
  | None => false
  end.

(** [message] is [None] when [JSON.parse] throws. *)
Definition on_message (topic : string) (message : option json) (now : Z)
    (st : State) : State * list Effect :=
  match message with
  | None => (st, [])
  | Some droneData =>
      let droneSN := topic_sn topic in
      let st := set_droneLastMessageTime
                  (map_set (droneLastMessageTime st) droneSN now) st in
      let emitted := IoEmit droneData droneSN in
      match get_prop (Some droneData) "data" with
      | TypeError => (st, [emitted])         (* caught at line 429 *)
      | Native => (st, [emitted])            (* a function: line 404 *)
      | Value data =>
          if negb (truthy data) || negb (typeof_object data) then (st, [emitted])
          else if camera_online st droneSN data then
            match droneSN with
            | Some serial =>
                if bool_decide (serial ∈ startedStreams st) then (st, [emitted])
                else let '(st, effs) := startStream serial now st in
                     (st, emitted :: effs)
            | None => (st, [emitted])  (* no camera is found for undefined *)
            end
          else
            match droneSN with
            | Some serial =>
                if bool_decide (serial ∈ startedStreams st) then
                  let st := set_startedStreams (startedStreams st ∖ {[serial]}) st in
                  let '(id, st) := fresh st in
                  let '(st, effs) :=
                    updateDroneStreamStatus id (Update_detached serial)
                      serial false "" st in
                  (st, emitted :: effs)
                else (st, [emitted])
            | None => (st, [emitted])
            end
      end
  end.

(** ** Completion of an awaited request *)

Definition resume (id : nat) (t : Task) (r : Response) (random : Q)
    (st : State) : option (State * list Effect) :=
  match t, r with
  | Load_get attempt, Resp_drones drones =>
      Some (loadDronesFromAPI_resume id attempt drones random st)
  | Load_sleep attempt, Resp_timer =>
      Some (loadDronesFromAPI id (attempt + 1) st)
  | StartStream_login droneSN, Resp_login access_token =>
      (* lines 211-215 *)
      let '(st, token) := getAcessToken_resume access_token st in
      match token with
      | Some token => Some (startStream_with_token id droneSN token st)
      | None => Some (finish id None st)
      end
  | StartStream_fetch droneSN token fetchAttempts, Resp_drone dbDrone =>
      match dbDrone with
      | Some dbDrone =>
          (* lines 233-251 *)
          let drone := to_config dbDrone in
          let sns := if bool_decide (droneSN ∈ droneSNs st)
                     then droneSNs st else droneSNs st ++ [droneSN] in
          let st := set_drones (dronesConfig st ++ [drone]) sns st in
          Some (startStream_with_drone id droneSN token drone st)
      | None =>
          (* lines 252-265 *)
          let fetchAttempts := S fetchAttempts in
          if (fetchAttempts <? maxFetchAttempts)%nat then
            let retryDelay := (1000 * Z.of_nat fetchAttempts)%Z in
            Some (await id (StartStream_sleep droneSN token fetchAttempts)
                        (SleepMs retryDelay) st)
          else Some (finish id None (set_databaseConnected false st))
      end
  | StartStream_sleep droneSN token fetchAttempts, Resp_timer =>
      (* the loop test of line 228; [drone] is still unset *)
      if (fetchAttempts <? maxFetchAttempts)%nat
      then Some (await id (StartStream_fetch droneSN token fetchAttempts)
                      (GetDrone droneSN) st)
      else Some (finish id None st)
  | StartStream_post droneSN token drone cameraId, Resp_stream r =>
      match r with
      | Some (status, streamUrl) =>
          if (status =? 200)%Z || (status =? 201)%Z
          then Some (updateDroneStreamStatus id (StartStream_update droneSN)
                       droneSN true streamUrl st)
          else Some (finish id None st)
      | None => Some (finish id None st)    (* caught at line 318 *)
      end
  | StartStream_update droneSN, Resp_patch _ =>
      Some (finish id None
              (set_startedStreams (startedStreams st ∪ {[droneSN]}) st))
  | Watchdog_update now pos droneSN, Resp_patch _ =>
      let st := set_droneLastMessageTime
                  (map_delete (droneLastMessageTime st) (Some droneSN)) st in
      Some (watchdog_loop id now (drop pos (droneLastMessageTime st)) pos st)
  | Update_detached droneSN, Resp_patch status =>
      Some (finish id (updateDroneStreamStatus_result status) st)
  | _, _ => None
  end.

(** ** The event loop *)

Inductive Event : Type :=
| MqttConnect                                              (* line 357 *)
| MqttMessage (topic : string) (message : option json) (now : Z)  (* line 393 *)
| WatchdogTick (now : Z)                                   (* line 132 *)
| SupervisorTick                                           (* line 151 *)
| Resume (id : nat) (r : Response) (random : Q).

(** One callback.  [None]: the event cannot occur in this state (nothing
    waits under [id], or not for that kind of answer). *)
Definition step (st : State) (ev : Event) : option (State * list Effect) :=
  match ev with
  | MqttConnect =>
      let '(id, st) := fresh st in Some (loadDronesFromAPI id 0 st)
  | MqttMessage topic message now => Some (on_message topic message now st)
  | WatchdogTick now => Some (watchdog_tick now st)
  | SupervisorTick => Some (supervisor_tick st)
  | Resume id r random =>
      match pending st !! id with
      | Some t => resume id t r random (set_pending (delete id (pending st)) st)
      | None => None
      end
  end.

Fixpoint run (st : State) (evs : list Event) : option (State * list Effect) :=
  match evs with
  | [] => Some (st, [])
  | ev :: evs =>
      match step st ev with
      | Some (st, effs) =>
          match run st evs with
          | Some (st, effs') => Some (st, effs ++ effs')
          | None => None
          end
      | None => None
      end
  end.

(** ** Reading runs *)

Definition reachable (st : State) : Prop :=
  ∃ evs effs, run initial_state evs = Some (st, effs).

(** The requests sent, in order; those of one invocation. *)
Definition requests (effs : list Effect) : list Request :=
  omap (λ e, match e with Call _ r => Some r | _ => None end) effs.

Definition requests_of (id : nat) (effs : list Effect) : list Request :=
  omap (λ e, match e with
             | Call id' r => if (id' =? id)%nat then Some r else None
             | _ => None
             end) effs.

Definition is_stop_report (droneSN : string) (r : Request) : bool :=
  match r with
  | PatchDrone s false url => bool_decide (s = droneSN) && negb (truthy_string url)
  | _ => false
  end.

Definition stop_reports (droneSN : string) (effs : list Effect) : nat :=
  length (List.filter (is_stop_report droneSN) (requests effs)).

(** An invocation of [startStream] for [droneSN] that has not returned. *)
Definition is_start_task (droneSN : string) (t : Task) : bool :=
  match t with
  | StartStream_login s | StartStream_fetch s _ _ | StartStream_sleep s _ _
  | StartStream_post s _ _ _ | StartStream_update s => bool_decide (s = droneSN)
  | _ => false
  end.

Definition starts_in_flight (droneSN : string) (st : State) : nat :=
  length (List.filter (λ p, is_start_task droneSN p.2) (map_to_list (pending st))).

Definition is_load_task (t : Task) : bool :=
  match t with Load_get _ | Load_sleep _ => true | _ => false end.

Definition login_in_flight (st : State) : Prop :=
  ∃ id droneSN, pending st !! id = Some (StartStream_login droneSN).

(** ** What a telemetry message says about the first camera *)

(** Line 404: [data] is missing, falsy or not an object (or the payload
    is [null], which line 429 catches). *)
Definition no_data (droneData : json) : bool :=
  match get_prop (Some droneData) "data" with
  | TypeError => true
  | Native => true
  | Value data => negb (truthy data) || negb (typeof_object data)
  end.

(** The branch of line 414. *)
Definition camera_absent (st : State) (topic : string) (droneData : json) : bool :=
  match get_prop (Some droneData) "data" with
  | TypeError => false
  | Native => false
  | Value data =>
      truthy data && typeof_object data
      && negb (camera_online st (topic_sn topic) data)
  end.

(** The last message time is recorded and the payload is broadcast;
    nothing else happens. *)
Definition only_seen (topic : string) (droneData : json) (now : Z)
    (st : State) : State * list Effect :=
  (set_droneLastMessageTime
     (map_set (droneLastMessageTime st) (topic_sn topic) now) st,
   [IoEmit droneData (topic_sn topic)]).

(** ** The capped exponential of [calculateRetryDelay] as an integer *)

Definition capped (attempt : nat) : Z :=
  Z.min (INITIAL_RETRY_DELAY_MS * 2 ^ Z.of_nat attempt) MAX_RETRY_DELAY_MS.

(** The roundings of lines 35-36 are exact at the ends of the jitter
    range of a delay [c]. *)
Definition exact_at (c : Z) : Prop :=
  (round_double (inject_Z c * double_0_2) == inject_Z c * (2 # 10)
   ∧ round_double (inject_Z c * (1 # 10)) == inject_Z c * (1 # 10)
   ∧ round_double (- (inject_Z c * (1 # 10))) == - (inject_Z c * (1 # 10))
   ∧ round_double (inject_Z c * (9 # 10)) == inject_Z c * (9 # 10)
   ∧ round_double (inject_Z c * (11 # 10)) == inject_Z c * (11 # 10)
   ∧ round_double (inject_Z c) == inject_Z c)%Q.

(** ** Sample data *)

Module Sample.
Definition bc001 : Db.Drone :=
  {| Db.deviceSerialNumber := "BC001"; Db.deviceName := "Body cam 1";
     Db.metadata := None; Db.streamCredentials := None;
     Db.cameras := Some ["camA"] |}.

Definition bare : Db.Drone :=
  {| Db.deviceSerialNumber := "BC002"; Db.deviceName := "No camera";
     Db.metadata := None; Db.streamCredentials := None;
     Db.cameras := None |}.

Definition topic : string := "thing/product/BC001/osd".

(** [{"data":{"camA":true}}], [{"data":{}}] and [{}]. *)
Definition present : json := JObj [("data", JObj [("camA", JBool true)])].
Definition absent : json := JObj [("data", JObj [])].
Definition dataless : json := JObj [].

(** The registry answers, BC001 reports its camera, login and gateway
    succeed, the registry is told: BC001 is streaming. *)
Definition until_streaming : list Event :=
  [ MqttConnect;
    Resume 0 (Resp_drones (Some [bc001; bare])) 0;
    MqttMessage topic (Some present) 1000;
    Resume 1 (Resp_login (Some "tokA")) 0;
    Resume 1 (Resp_stream (Some (200%Z, "rtmp://gw/BC001"))) 0;
    Resume 1 (Resp_patch (Some 200%Z)) 0 ].

Definition streaming : State :=
  match run initial_state until_streaming with
  | Some (st, _) => st
  | None => initial_state
  end.

(** BC001 reports its camera twice before the first login is
    answered; the first login then succeeds. *)
Definition until_first_login : list Event :=
  [ MqttConnect;
    Resume 0 (Resp_drones (Some [bc001; bare])) 0;
    MqttMessage topic (Some present) 1000;
    MqttMessage topic (Some present) 1500;
    Resume 1 (Resp_login (Some "tokA")) 0 ].

Definition first_login_done : State :=
  match run initial_state until_first_login with
  | Some (st, _) => st
  | None => initial_state
  end.

(** The second login succeeds too: both attempts now wait for the
    streaming gateway. *)
Definition until_two_starts : list Event :=
  until_first_login ++ [Resume 2 (Resp_login (Some "tokB")) 0].

Definition two_starts : State :=
  match run initial_state until_two_starts with
  | Some (st, _) => st
  | None => initial_state
  end.

(** BC001 reports its camera at 1000 and falls silent.  The gateway
    is slow: the sweep of 30000 finds the device silent, not started,
    and drops its entry; then the gateway answers and the device is
    marked started. *)
Definition until_unwatched : list Event :=
  [ MqttConnect;
    Resume 0 (Resp_drones (Some [bc001; bare])) 0;
    MqttMessage topic (Some present) 1000;
    Resume 1 (Resp_login (Some "tokA")) 0;
    WatchdogTick 30000;
    Resume 1 (Resp_stream (Some (200%Z, "rtmp://gw/BC001"))) 0;
    Resume 1 (Resp_patch (Some 200%Z)) 0 ].

Definition unwatched : State :=
  match run initial_state until_unwatched with
  | Some (st, _) => st
  | None => initial_state
  end.

Definition unwatched_effects : list Effect :=
  match run initial_state until_unwatched with
  | Some (_, effs) => effs
  | None => []
  end.

(** The registry has answered; nothing streams. *)
Definition loaded : State :=
  match run initial_state (take 2 until_streaming) with
  | Some (st, _) => st
  | None => initial_state
  end.

(** BC001 streams and the broker connection comes back: a reload is
    under way. *)
Definition reloading : State :=
  match run streaming [MqttConnect] with
  | Some (st, _) => st
  | None => initial_state
  end.

(** While the first start of BC001 waits for its login, a reload
    empties the cache; the start then looks the device up, three
    times in vain. *)
Definition until_lookup_failed : list Event :=
  [ MqttConnect;
    Resume 0 (Resp_drones (Some [bc001])) 0;
    MqttMessage topic (Some present) 1000;
    MqttConnect;
    Resume 2 (Resp_drones (Some [])) 0;
    Resume 1 (Resp_login (Some "tokA")) 0;
    Resume 1 (Resp_drone None) 0; Resume 1 Resp_timer 0;
    Resume 1 (Resp_drone None) 0; Resume 1 Resp_timer 0;
    Resume 1 (Resp_drone None) 0 ].

Definition lookup_failed : State :=
  match run initial_state until_lookup_failed with
  | Some (st, _) => st
  | None => initial_state
  end.

Definition lookup_failed_effects : list Effect :=
  match run initial_state until_lookup_failed with
  | Some (_, effs) => effs
  | None => []
  end.
End Sample.

(** ** A load in which every attempt fails

    What the invocation [id] of the load is answered from [attempt] on,
    [more] further attempts being left: every request fails, and each
    failure but the last is followed by the end of the delay.
    [random attempt] is the value [Math.random()] returns in that
    attempt's [catch] block. *)
Fixpoint failing_load (id : nat) (random : nat → Q) (attempt more : nat) : list Event :=
  match more with
  | O => [Resume id (Resp_drones None) (random attempt)]
  | S more =>
      Resume id (Resp_drones None) (random attempt)
      :: Resume id Resp_timer 0
      :: failing_load id random (S attempt) more
  end.

(** The requests that follow those answers. *)
Fixpoint failing_load_requests (random : nat → Q) (attempt more : nat) : list Request :=
  match more with
  | O => []
  | S more =>
      SleepMs (calculateRetryDelay attempt (random attempt))
      :: GetDrones
      :: failing_load_requests random (S attempt) more
  end.

(** The two places that call [loadDronesFromAPI()]: the connect handler
    (line 361) and the supervisor while the registry is marked
    disconnected (line 154). *)
Definition launches_load (st : State) (ev : Event) : Prop :=
  ev = MqttConnect ∨ (ev = SupervisorTick ∧ databaseConnected st = false).

(** ** The token cache *)

(** The cached token is the one it was, or a login that was already
    under way has put a new one in its place. *)
Definition token_kept_or_replaced (st st' : State) : Prop :=
  cachedToken st' = cachedToken st
  ∨ (login_in_flight st
     ∧ ∃ token', cachedToken st' = Some token' ∧ truthy_string token' = true).

(** The token state the server can be in: no expiry is ever recorded,
    and a cached token is a non-empty string. *)
Definition token_state_ok (st : State) : Prop :=
  tokenExpiry st = None
  ∧ ∀ token, cachedToken st = Some token → truthy_string token = true.

(** ** Start requests *)

(** A request that only [startStream] sends. *)
Definition is_start_request (r : Request) : bool :=
  match r with
  | PostLogin | GetDrone _ | PostStreamStart _ _ _ => true
  | _ => false
  end.

(** ** Fallback lookups of one invocation *)

(** The fallback lookups (line 230) that invocation [id] sent. *)
Definition fetches_sent (id : nat) (effs : list Effect) : nat :=
  length (List.filter (λ r, match r with GetDrone _ => true | _ => false end)
            (requests_of id effs)).

(** How many more the loop of lines 228-266 lets a suspended invocation
    send. *)
Definition fetches_left (t : Task) : nat :=
  match t with
  | StartStream_login _ => maxFetchAttempts
  | StartStream_fetch _ _ fetchAttempts => maxFetchAttempts - S fetchAttempts
  | StartStream_sleep _ _ fetchAttempts => maxFetchAttempts - fetchAttempts
  | _ => 0
  end.

Definition fetch_budget (id : nat) (st : State) : nat :=
  if (nextId st <=? id)%nat then maxFetchAttempts
  else match pending st !! id with
       | Some t => fetches_left t
       | None => 0%nat
       end.

(** Identifiers of suspended invocations have been handed out. *)
Definition ids_allocated (st : State) : Prop :=
  ∀ id t, pending st !! id = Some t → (id < nextId st)%nat.

(** Every fallback lookup of invocation [id] fails. *)
Definition failing_fetches (id : nat) : list Event :=
  [ Resume id (Resp_drone None) 0; Resume id Resp_timer 0;
    Resume id (Resp_drone None) 0; Resume id Resp_timer 0;
    Resume id (Resp_drone None) 0 ].

(** ** Watchdog vocabulary *)

(** The keys of the entries that have not been emptied. *)
Definition live_keys (m : MapData) : list MapKey :=
  fst <$> omap id m.

(** A [Map] holds a key once. *)
Definition keys_unique (st : State) : Prop :=
  NoDup (live_keys (droneLastMessageTime st)).

(** The registry answers the stop reports of sweep [id], [n] of them,
    before anything else happens. *)
Definition patch_answers (id : nat) (status : option Z) (n : nat) : list Event :=
  replicate n (Resume id (Resp_patch status) 0).

(** Continue a callback's outcome with further events. *)
Definition and_then (r : State * list Effect) (evs : list Event)
    : option (State * list Effect) :=
  match run r.1 evs with
  | Some (st, effs) => Some (st, r.2 ++ effs)
  | None => None
  end.

(** Lines 138-144 with the stop report answered at once: a silent
    device that is marked started is unmarked and reported. *)
Definition report_silent (id : nat) (droneSN : MapKey) (st : State)
    : State * list Effect :=
  match droneSN with
  | Some serial =>
      if bool_decide (serial ∈ startedStreams st)
      then (set_startedStreams (startedStreams st ∖ {[serial]}) st,
            [Call id (PatchDrone serial false "")])
      else (st, [])
  | None => (st, [])
  end.

(** The whole sweep when the registry answers every stop report before
    another callback runs: the loop of lines 134-147 from the entries
    that are left to the end of the map. *)
Fixpoint watchdog_sweep (id : nat) (now : Z) (entries : MapData)
    (st : State) : State * list Effect :=
  match entries with
  | [] => (st, [Return id None])
  | None :: rest => watchdog_sweep id now rest st
  | Some (droneSN, lastMessageTime) :: rest =>
      if inactive now lastMessageTime then
        let '(st, reported) := report_silent id droneSN st in
        let st := set_droneLastMessageTime
                    (map_delete (droneLastMessageTime st) droneSN) st in
        let '(st, effs) := watchdog_sweep id now rest st in
        (st, reported ++ effs)
      else watchdog_sweep id now rest st
  end.

(** ** Statements that the code does not meet *)

(** The delay after the n-th failed attempt is [base * n]. *)
Definition linear_retry_delay : Prop :=
  ∃ base : Z, ∀ (n : nat) (random : Q),
    (1 ≤ n < MAX_RETRY_ATTEMPTS)%nat → (0 <= random)%Q → (random < 1)%Q →
    calculateRetryDelay (n - 1) random = (base * Z.of_nat n)%Z.

(** A decoded message without a usable [data] section stops a streaming
    device like a camera-absent message does. *)
Definition dataless_stops_stream : Prop :=
  ∀ st topic droneData now serial st' effs,
    reachable st → topic_sn topic = Some serial →
    no_data droneData = true → serial ∈ startedStreams st →
    on_message topic (Some droneData) now st = (st', effs) →
    (serial ∉ startedStreams st') ∧ (PatchDrone serial false "" ∈ requests effs).

(** At most one start of a device's stream is under way at any time. *)
Definition one_start_in_flight : Prop :=
  ∀ st droneSN, reachable st → (starts_in_flight droneSN st ≤ 1)%nat.

(** Once a token is cached, every later call gets that same token and
    no login request is sent any more. *)
Definition token_fixed_after_first_login : Prop :=
  ∀ st token evs st' effs,
    reachable st → cachedToken st = Some token →
    run st evs = Some (st', effs) →
    cachedToken st' = Some token ∧ PostLogin ∉ requests effs.

(** Every telemetry message of [droneSN] among [evs] came at [t] or
    before. *)
Definition heard_by (evs : list Event) (droneSN : string) (t : Z) : Prop :=
  Forall (λ ev, match ev with
                | MqttMessage topic _ now =>
                    topic_sn topic = Some droneSN → (now <= t)%Z
                | _ => True
                end) evs.

(** A streaming device that has been silent for longer than the timeout
    is reported stopped, once, by the sweep that the watchdog starts. *)
Definition silent_stream_is_reported : Prop :=
  ∀ evs st effs droneSN t now,
    run initial_state evs = Some (st, effs) →
    droneSN ∈ startedStreams st →
    heard_by evs droneSN t →
    (now - t > INACTIVITY_TIMEOUT_MS)%Z →
    ∃ n status st' effs',
      run st (WatchdogTick now :: patch_answers (nextId st) status n)
        = Some (st', effs')
      ∧ stop_reports droneSN effs' = 1%nat.

(** ** Further vocabulary: topics *)

(** The topic of line 381. *)
Definition subscription_topic (sn : string) : string :=
  "thing/product/" +:+ sn +:+ "/osd".

(** The part of a string before its first slash. *)
Fixpoint before_slash (s : string) : string :=
  match s with
  | EmptyString => EmptyString
  | String c rest =>
      if Ascii.eqb c "/" then EmptyString else String c (before_slash rest)
  end.

Fixpoint has_slash (s : string) : bool :=
  match s with
  | EmptyString => false
  | String c rest => Ascii.eqb c "/" || has_slash rest
  end.

(** ** Further vocabulary: the cache *)

(** The first record of a registry answer with the given serial. *)
Definition find_record (drones : list Db.Drone) (droneSN : string) : option Db.Drone :=
  List.find (λ d, String.eqb (Db.deviceSerialNumber d) droneSN) drones.

(** ** Further vocabulary: telemetry *)

Definition is_emit (e : Effect) : bool :=
  match e with IoEmit _ _ => true | _ => false end.

(** Lines 285-290: the request sent to the streaming gateway. *)
Definition stream_request (droneSN token : string) (drone : DroneConfig)
    (cameraId : string) : Request :=
  PostStreamStart
    ("userName=" +:+ userName drone +:+ "&password=" +:+ password drone
     +:+ "&port=" +:+ port drone)
    (droneSN +:+ "/" +:+ cameraId +:+ "/thermal-0") token.

(** The stream address when the gateway answered with status 200 or 201
    (line 304). *)
Definition gateway_accepted (r : option (Z * string)) : option string :=
  match r with
  | Some (status, streamUrl) =>
      if (status =? 200)%Z || (status =? 201)%Z then Some streamUrl else None
  | None => None
  end.

(** ** Further vocabulary: start and stop reports *)

Definition is_start_report (droneSN : string) (r : Request) : bool :=
  match r with
  | PatchDrone s true _ => bool_decide (s = droneSN)
  | _ => false
  end.

Definition start_reported (droneSN : string) (effs : list Effect) : bool :=
  existsb (is_start_report droneSN) (requests effs).

(** No stop report of [droneSN] in [rs] unless a start report came
    before it; [seen]: one came before [rs]. *)
Fixpoint stops_follow_starts (droneSN : string) (seen : bool) (rs : list Request) : bool :=
  match rs with
  | [] => true
  | r :: rs =>
      if is_stop_report droneSN r
      then seen && stops_follow_starts droneSN seen rs
      else stops_follow_starts droneSN (seen || is_start_report droneSN r) rs
  end.

(** What holds of a state and the effects that led to it: stop reports
    follow start reports, and a device that is marked started, or whose
    start report is awaited at line 309, has been reported started. *)
Definition stops_after_starts (droneSN : string) (st : State) (effs : list Effect) : Prop :=
  stops_follow_starts droneSN false (requests effs) = true
  ∧ ((droneSN ∈ startedStreams st
      ∨ ∃ id, pending st !! id = Some (StartStream_update droneSN)) →
     start_reported droneSN effs = true).

(** ** Further vocabulary: the watchdog *)

(** A callback of a sweep with clock value [now] that does not answer a
    stop report of [droneSN]: the timer callback, or the continuation
    after the stop report of another device. *)
Definition sweeps (st : State) (ev : Event) (now : Z) (droneSN : string) : Prop :=
  ev = WatchdogTick now
  ∨ ∃ id pos reported status random,
      ev = Resume id (Resp_patch status) random
      ∧ pending st !! id = Some (Watchdog_update now pos reported)
      ∧ reported ≠ droneSN.

(** ** Further vocabulary: registry loads *)

(** The registry list requests (line 47) that invocation [id] sent. *)
Definition loads_sent (id : nat) (effs : list Effect) : nat :=
  length (List.filter (λ r, match r with GetDrones => true | _ => false end)
            (requests_of id effs)).

(** How many more the recursion of lines 72-76 lets a suspended load
    send. *)
Definition loads_left (t : Task) : nat :=
  match t with
  | Load_get attempt => MAX_RETRY_ATTEMPTS - 1 - attempt
  | Load_sleep attempt => S (MAX_RETRY_ATTEMPTS - 1 - S attempt)
  | _ => 0
  end.

Definition load_budget (id : nat) (st : State) : nat :=
  if (nextId st <=? id)%nat then MAX_RETRY_ATTEMPTS
  else match pending st !! id with
       | Some t => loads_left t
       | None => 0%nat
       end.

(** The time that a list of requests spends in [sleep]. *)
Fixpoint sleep_total (rs : list Request) : Z :=
  match rs with
  | [] => 0
  | SleepMs ms :: rs => ms + sleep_total rs
  | _ :: rs => sleep_total rs
  end.

(** The delays without jitter from [attempt] on, [more] of them. *)
Fixpoint capped_total (attempt more : nat) : Z :=
  match more with
  | O => 0
  | S more => capped attempt + capped_total (S attempt) more
  end.

(** The last failure of a load (lines 77-81) and the last failure of a
    fallback lookup (lines 260-263). *)
Definition marks_disconnected (st : State) (ev : Event) : Prop :=
  (∃ id attempt random,
     ev = Resume id (Resp_drones None) random
     ∧ pending st !! id = Some (Load_get attempt)
     ∧ (MAX_RETRY_ATTEMPTS - 1 ≤ attempt)%nat)
  ∨ (∃ id droneSN token fetchAttempts random,
       ev = Resume id (Resp_drone None) random
       ∧ pending st !! id = Some (StartStream_fetch droneSN token fetchAttempts)
       ∧ (maxFetchAttempts ≤ S fetchAttempts)%nat).

(** A load that is answered with the device list (lines 50-66). *)
Definition marks_connected (st : State) (ev : Event) : Prop :=
  ∃ id attempt drones random,
    ev = Resume id (Resp_drones (Some drones)) random
    ∧ pending st !! id = Some (Load_get attempt).

(** The answer to a load that carries the device list. *)
Definition answers_load_with_list (ev : Event) : bool :=
  match ev with
  | Resume _ (Resp_drones (Some _)) _ => true
  | _ => false
  end.

(** The state with [retryCount] blanked; an outcome with its state
    blanked so. *)
Definition forget_retryCount (st : State) : State := set_retryCount 0 st.

Definition forget_retryCount_result (r : State * list Effect) : State * list Effect :=
  (forget_retryCount r.1, r.2).

(** ** Further vocabulary: gateway requests *)

(** The token that a suspended start attempt holds (line 211). *)
Definition task_token (t : Task) : option string :=
  match t with
  | StartStream_fetch _ token _ | StartStream_sleep _ token _
  | StartStream_post _ token _ _ => Some token
  | _ => None
  end.

Definition tokens_truthy (st : State) : Prop :=
  ∀ id t token, pending st !! id = Some t → task_token t = Some token →
    truthy_string token = true.

(** A gateway request carries a token and names a camera. *)
Definition gateway_request_ok (r : Request) : Prop :=
  match r with
  | PostStreamStart _ video_id token =>
      truthy_string token = true
      ∧ ∃ droneSN cameraId,
          truthy_string cameraId = true
          ∧ video_id = droneSN +:+ "/" +:+ cameraId +:+ "/thermal-0"
  | _ => True
  end.

(** ** Further sample runs *)

Module Scenario.
(** The broker connection is up and the first load waits for the
    registry. *)
Definition connecting : State :=
  (loadDronesFromAPI 0 0 (fresh initial_state).2).1.

(** The start of BC001 has found the cache empty and waits for its
    first fallback lookup. *)
Definition looking_up : State :=
  match run initial_state (take 6 Sample.until_lookup_failed) with
  | Some (st, _) => st
  | None => initial_state
  end.

(** The registry answers that lookup with the record of BC001. *)
Definition looked_up : State * list Effect :=
  match step looking_up (Resume 1 (Resp_drone (Some Sample.bc001)) 0) with
  | Some r => r
  | None => (initial_state, [])
  end.

(** BC001 streams, then reports that its camera is gone. *)
Definition until_stopped : list Event :=
  Sample.until_streaming ++ [MqttMessage Sample.topic (Some Sample.absent) 2000].

Definition stopped : State * list Effect :=
  match run initial_state until_stopped with
  | Some r => r
  | None => (initial_state, [])
  end.

(** BC001 streams and falls silent; the sweep of 30000 reports it
    stopped, and while that report is under way BC001 reports its
    camera again. *)
Definition until_sweeping : list Event :=
  Sample.until_streaming
  ++ [WatchdogTick 30000; MqttMessage Sample.topic (Some Sample.present) 31000].

Definition sweeping : State :=
  match run initial_state until_sweeping with
  | Some (st, _) => st
  | None => initial_state
  end.

(** The registry answers the stop report. *)
Definition swept : State * list Effect :=
  match step sweeping (Resume 2 (Resp_patch (Some 200%Z)) 0) with
  | Some r => r
  | None => (initial_state, [])
  end.

(** The first load fails ten times. *)
Definition until_exhausted : list Event :=
  MqttConnect :: failing_load 0 (λ _, 1 # 2) 0 (MAX_RETRY_ATTEMPTS - 1).

Definition exhausted : State * list Effect :=
  match run initial_state until_exhausted with
  | Some r => r
  | None => (initial_state, [])
  end.

(** The supervisor has launched a load; its first attempt has failed
    and the load sleeps. *)
Definition until_retrying : list Event :=
  [SupervisorTick; Resume 0 (Resp_drones None) (1 # 2)].

Definition retrying : State * list Effect :=
  match run initial_state until_retrying with
  | Some r => r
  | None => (initial_state, [])
  end.

(** BC001 was cached when it reported its camera; while its start
    waits for the login, a reload has emptied the cache.  The registry
    is marked connected. *)
Definition cache_emptied : State * list Effect :=
  match run initial_state (take 5 Sample.until_lookup_failed) with
  | Some r => r
  | None => (initial_state, [])
  end.

(** A device whose first camera is named as a member that every object
    inherits. *)
Definition odd : Db.Drone :=
  {| Db.deviceSerialNumber := "BC003"; Db.deviceName := "Odd camera";
     Db.metadata := None; Db.streamCredentials := None;
     Db.cameras := Some ["constructor"] |}.

Definition odd_loaded : State :=
  match run initial_state [MqttConnect; Resume 0 (Resp_drones (Some [odd])) 0] with
  | Some (st, _) => st
  | None => initial_state
  end.
End Scenario.

(** * Properties *)

#[local] Set Warnings "-clear-no-such-hyp".

(** ** The model at work *)

Example topic_sn_osd : topic_sn "thing/product/BC001/osd" = Some "BC001".
Proof. reflexivity. Qed.

Example topic_sn_short : topic_sn "thing/product" = None.
Proof. reflexivity. Qed.

Example get_prop_duplicate_key :
  get_prop (Some (JObj [("a", JBool false); ("a", JBool true)])) "a"
  = Value (Some (JBool true)).
Proof. reflexivity. Qed.

Example get_prop_array :
  get_prop (Some (JArr [JNull; JStr "x"])) "1" = Value (Some (JStr "x"))
  ∧ get_prop (Some (JArr [JNull; JStr "x"])) "01" = Value None
  ∧ get_prop (Some JNull) "data" = TypeError.
Proof. repeat split. Qed.

(** A member that is not the object's own is looked up in the
    prototype chain; an own member, even [null], hides an inherited
    one; no prototype has a member [data]. *)
Example get_prop_inherited :
  get_prop (Some (JObj [])) "constructor" = Native
  ∧ get_prop (Some (JObj [("constructor", JNull)])) "constructor"
    = Value (Some JNull)
  ∧ get_prop (Some (JArr [])) "map" = Native
  ∧ get_prop (Some (JArr [])) "hasOwnProperty" = Native
  ∧ get_prop (Some (JObj [])) "map" = Value None
  ∧ get_prop (Some (JObj [])) "data" = Value None
  ∧ get_prop (Some (JArr [])) "data" = Value None.
Proof. repeat split. Qed.

(** The read of line 404 never ends in the prototype chain. *)
Lemma get_prop_data_not_native (v : option json) : get_prop v "data" ≠ Native.
Proof.
  destruct v as [[| | | |elems|members]|]; cbn [get_prop]; try done;
    by repeat case_match.
Qed.

(** For a device whose first camera is named [constructor], the
    payload [{"data":{}}] shows the camera: the message launches a start
    (here the login that precedes it). *)
Example inherited_member_is_presence :
  camera_absent Scenario.odd_loaded "thing/product/BC003/osd" Sample.absent
  = false
  ∧ requests (on_message "thing/product/BC003/osd" (Some Sample.absent) 1000
                Scenario.odd_loaded).2
    = [PostLogin].
Proof. split; vm_compute; reflexivity. Qed.

Example retry_delays_without_jitter :
  (λ attempt, calculateRetryDelay attempt (1 # 2)) <$> [0; 1; 2; 3; 4; 8]%nat
  = [2000; 4000; 8000; 16000; 30000; 30000]%Z.
Proof. reflexivity. Qed.

Example retry_delay_jitter_extremes :
  calculateRetryDelay 0 0 = 1800%Z ∧ calculateRetryDelay 0 (999 # 1000) = 2199%Z.
Proof. split; vm_compute; reflexivity. Qed.

(** Rounding to the nearest double: the exact sum is below 2000, 33000
    and 2100 by less than half a unit in the last place. *)
Example retry_delay_rounding :
  calculateRetryDelay 0 ((1 # 2) - (1 # 2 ^ 52)) = 2000%Z
  ∧ calculateRetryDelay 4 (1 - (1 # 2 ^ 52)) = 33000%Z
  ∧ calculateRetryDelay 0 ((3 # 4) - (1 # 2 ^ 52)) = 2100%Z.
Proof. repeat split; vm_compute; reflexivity. Qed.

Example round_double_nearest :
  (round_double (1 # 10) == 3602879701896397 # 2 ^ 55)%Q
  ∧ (round_double (inject_Z (2 ^ 53 + 1)) == inject_Z (2 ^ 53))%Q
  ∧ (round_double (inject_Z (2 ^ 53 + 3)) == inject_Z (2 ^ 53 + 4))%Q
  ∧ (round_double (- (1 # 3)) == - (6004799503160661 # 2 ^ 54))%Q.
Proof. repeat split; vm_compute; reflexivity. Qed.

(** BC001 with first camera camA: presence starts the stream once, an
    empty [data] object stops it once, and repeating that message sends
    nothing more. *)
Example start_then_stop :
  (λ r, requests r.2)
    <$> run initial_state
          (Sample.until_streaming
           ++ [ MqttMessage Sample.topic (Some Sample.absent) 2000;
                MqttMessage Sample.topic (Some Sample.absent) 3000 ])
  = Some [ GetDrones; PostLogin;
           PostStreamStart "userName=&password=&port=8554"
             "BC001/camA/thermal-0" "tokA";
           PatchDrone "BC001" true "rtmp://gw/BC001";
           PatchDrone "BC001" false "" ].
Proof. vm_compute. reflexivity. Qed.

(** ** Retry delay *)

Section Rounding.
Local Open Scope Q_scope.

Lemma pow2_pos e : 0 < pow2 e.
Proof. apply Qpower_0_lt. reflexivity. Qed.

Lemma pow2_plus a b : pow2 (a + b) == pow2 a * pow2 b.
Proof. apply Qpower_plus. discriminate. Qed.

Lemma pow2_le a b : (a <= b)%Z -> pow2 a <= pow2 b.
Proof. intros H. apply Qpower_le_compat_l; [exact H|]. unfold Qle. simpl. lia. Qed.

Lemma pow2_lt a b : (a < b)%Z -> pow2 a < pow2 b.
Proof. intros H. apply Qpower_lt_compat_l; [exact H|]. reflexivity. Qed.

Lemma pow2_S a : pow2 (a + 1) == 2 * pow2 a.
Proof. rewrite pow2_plus. unfold pow2 at 2. rewrite Qpower_1_r. ring. Qed.

Lemma pow2_inject a : (0 <= a)%Z -> pow2 a == inject_Z (2 ^ a).
Proof. intros H. unfold pow2. rewrite Zpower_Qpower by exact H. reflexivity. Qed.

Lemma log2_bounds (n : Z) :
  (0 < n)%Z -> pow2 (Z.log2 n) <= inject_Z n /\ inject_Z n < pow2 (Z.log2 n + 1).
Proof.
  intros Hn. destruct (Z.log2_spec n Hn) as [Hlo Hhi].
  pose proof (Z.log2_nonneg n).
  rewrite !pow2_inject by lia. split.
  - rewrite <- Zle_Qle. exact Hlo.
  - rewrite <- Zlt_Qlt. replace (Z.log2 n + 1)%Z with (Z.succ (Z.log2 n)) by lia.
    exact Hhi.
Qed.

Lemma Qlog2_spec q : 0 < q -> pow2 (Qlog2 q) <= q /\ q < pow2 (Qlog2 q + 1).
Proof.
  intros Hq. unfold Qlog2.
  set (a := Z.log2 (Qnum q)). set (b := Z.log2 (Z.pos (Qden q))).
  assert (Hn : (0 < Qnum q)%Z).
  { unfold Qlt in Hq. simpl in Hq. lia. }
  destruct (log2_bounds (Qnum q) Hn) as [HNlo HNhi].
  destruct (log2_bounds (Z.pos (Qden q)) ltac:(lia)) as [HDlo HDhi].
  fold a in HNlo, HNhi. fold b in HDlo, HDhi.
  assert (HD : 0 < inject_Z (Z.pos (Qden q))).
  { change 0 with (inject_Z 0). rewrite <- Zlt_Qlt. lia. }
  assert (Hqd : q == inject_Z (Qnum q) / inject_Z (Z.pos (Qden q))).
  { destruct q as [n d]. simpl. apply Qmake_Qdiv. }
  pose proof (pow2_pos a) as Ha. pose proof (pow2_pos b) as Hb.
  assert (Hk : pow2 (a - b) * pow2 b == pow2 a).
  { rewrite <- pow2_plus. replace (a - b + b)%Z with a by lia. reflexivity. }
  assert (Hk1 : pow2 (a - b + 1) * pow2 b == 2 * pow2 a).
  { rewrite pow2_S. rewrite <- Hk. ring. }
  assert (Hkm : 2 * pow2 (a - b - 1) * pow2 b == pow2 a).
  { rewrite <- pow2_S. replace (a - b - 1 + 1)%Z with (a - b)%Z by lia. exact Hk. }
  pose proof (pow2_pos (a - b)) as Hkp.
  pose proof (pow2_pos (a - b - 1)) as Hkmp.
  pose proof (pow2_pos (a - b + 1)) as Hk1p.
  assert (Hmul : q * inject_Z (Z.pos (Qden q)) == inject_Z (Qnum q)).
  { destruct q as [n d]. unfold Qeq. simpl. rewrite Pos2Z.inj_mul. ring. }
  rewrite pow2_S in HNhi, HDhi.
  destruct (Qle_bool (pow2 (a - b)) q) eqn:E.
  - apply Qle_bool_iff in E. split; [exact E|]. nra.
  - assert (Hlt : q < pow2 (a - b)).
    { apply Qnot_le_lt. intros H. apply Qle_bool_iff in H. congruence. }
    replace (a - b - 1 + 1)%Z with (a - b)%Z by lia. split; [|exact Hlt]. nra.
Qed.

Lemma round_half_even_Z z : round_half_even (inject_Z z) = z.
Proof.
  unfold round_half_even. rewrite Qfloor_Z.
  destruct (Qcompare_spec (inject_Z z - inject_Z z) (1 # 2)) as [H|H|H];
    [exfalso; lra|reflexivity|exfalso; lra].
Qed.

Lemma round_half_even_near q :
  let f := Qfloor q in round_half_even q = f \/ round_half_even q = (f + 1)%Z.
Proof.
  unfold round_half_even.
  destruct (Qcompare _ _); [destruct (Z.even _)| |]; auto.
Qed.

Lemma round_half_even_mono q1 q2 :
  q1 <= q2 -> (round_half_even q1 <= round_half_even q2)%Z.
Proof.
  intros Hle. pose proof (Qfloor_resp_le _ _ Hle) as Hf.
  destruct (Z.eq_dec (Qfloor q1) (Qfloor q2)) as [E|N].
  - unfold round_half_even. rewrite <- E.
    destruct (Qcompare_spec (q1 - inject_Z (Qfloor q1)) (1 # 2)) as [H1|H1|H1];
      destruct (Qcompare_spec (q2 - inject_Z (Qfloor q1)) (1 # 2)) as [H2|H2|H2];
      try destruct (Z.even (Qfloor q1)); try lia; exfalso; lra.
  - destruct (round_half_even_near q1) as [-> | ->];
      destruct (round_half_even_near q2) as [-> | ->]; lia.
Qed.

Lemma round_half_even_comp q1 q2 : q1 == q2 -> round_half_even q1 = round_half_even q2.
Proof.
  intros E. apply Z.le_antisymm; apply round_half_even_mono; rewrite E; apply Qle_refl.
Qed.

(** The significand of a positive number lies between 2^52 and 2^53. *)
Lemma significand_range q :
  0 < q ->
  (2 ^ 52 <= round_half_even (q / pow2 (Qlog2 q - 52)) <= 2 ^ 53)%Z.
Proof.
  intros Hq. destruct (Qlog2_spec q Hq) as [Hlo Hhi].
  pose proof (pow2_pos (Qlog2 q - 52)) as He.
  assert (H52 : pow2 (Qlog2 q) == inject_Z (2 ^ 52) * pow2 (Qlog2 q - 52)).
  { rewrite <- (pow2_inject 52) by lia. rewrite <- pow2_plus.
    replace (52 + (Qlog2 q - 52))%Z with (Qlog2 q) by lia. reflexivity. }
  assert (H53 : pow2 (Qlog2 q + 1) == inject_Z (2 ^ 53) * pow2 (Qlog2 q - 52)).
  { rewrite <- (pow2_inject 53) by lia. rewrite <- pow2_plus.
    replace (53 + (Qlog2 q - 52))%Z with (Qlog2 q + 1)%Z by lia. reflexivity. }
  rewrite H52 in Hlo. rewrite H53 in Hhi.
  split.
  - rewrite <- (round_half_even_Z (2 ^ 52)). apply round_half_even_mono.
    apply Qle_shift_div_l; assumption.
  - rewrite <- (round_half_even_Z (2 ^ 53)). apply round_half_even_mono.
    apply Qle_shift_div_r; [assumption|]. apply Qlt_le_weak. assumption.
Qed.

Lemma Qlog2_mono q1 q2 : 0 < q1 -> q1 <= q2 -> (Qlog2 q1 <= Qlog2 q2)%Z.
Proof.
  intros H1 Hle. assert (H2 : 0 < q2) by lra.
  destruct (Qlog2_spec q1 H1) as [Hlo1 _].
  destruct (Qlog2_spec q2 H2) as [_ Hhi2].
  destruct (Z_le_gt_dec (Qlog2 q1) (Qlog2 q2)) as [H|H]; [exact H|exfalso].
  assert (pow2 (Qlog2 q2 + 1) <= pow2 (Qlog2 q1)) by (apply pow2_le; lia).
  lra.
Qed.

Lemma round_positive_range q :
  0 < q ->
  pow2 (Qlog2 q) <= round_positive q /\ round_positive q <= pow2 (Qlog2 q + 1).
Proof.
  intros Hq. destruct (significand_range q Hq) as [Hlo Hhi].
  unfold round_positive.
  pose proof (pow2_pos (Qlog2 q - 52)) as He.
  assert (H52 : pow2 (Qlog2 q) == inject_Z (2 ^ 52) * pow2 (Qlog2 q - 52)).
  { rewrite <- (pow2_inject 52) by lia. rewrite <- pow2_plus.
    replace (52 + (Qlog2 q - 52))%Z with (Qlog2 q) by lia. reflexivity. }
  assert (H53 : pow2 (Qlog2 q + 1) == inject_Z (2 ^ 53) * pow2 (Qlog2 q - 52)).
  { rewrite <- (pow2_inject 53) by lia. rewrite <- pow2_plus.
    replace (53 + (Qlog2 q - 52))%Z with (Qlog2 q + 1)%Z by lia. reflexivity. }
  rewrite H52, H53. rewrite Zle_Qle in Hlo, Hhi.
  split; apply Qmult_le_compat_r; try assumption; apply Qlt_le_weak; assumption.
Qed.

Lemma round_positive_mono q1 q2 :
  0 < q1 -> q1 <= q2 -> round_positive q1 <= round_positive q2.
Proof.
  intros H1 Hle. assert (H2 : 0 < q2) by lra.
  pose proof (Qlog2_mono q1 q2 H1 Hle) as He.
  destruct (Z.eq_dec (Qlog2 q1) (Qlog2 q2)) as [E|N].
  - unfold round_positive. rewrite E.
    pose proof (pow2_pos (Qlog2 q2 - 52)) as Hp.
    apply Qmult_le_compat_r; [|lra].
    rewrite <- Zle_Qle. apply round_half_even_mono.
    apply Qle_shift_div_l; [assumption|].
    assert (Hq : q1 / pow2 (Qlog2 q2 - 52) * pow2 (Qlog2 q2 - 52) == q1)
      by (field; lra).
    rewrite Hq. assumption.
  - destruct (round_positive_range q1 H1) as [_ Hhi].
    destruct (round_positive_range q2 H2) as [Hlo _].
    assert (pow2 (Qlog2 q1 + 1) <= pow2 (Qlog2 q2)) by (apply pow2_le; lia).
    lra.
Qed.

Lemma round_positive_pos q : 0 < q -> 0 < round_positive q.
Proof.
  intros Hq. destruct (round_positive_range q Hq) as [Hlo _].
  pose proof (pow2_pos (Qlog2 q)). lra.
Qed.

Lemma round_double_mono q1 q2 : q1 <= q2 -> round_double q1 <= round_double q2.
Proof.
  intros Hle. unfold round_double.
  destruct (Qcompare_spec q1 0) as [E1|L1|G1];
    destruct (Qcompare_spec q2 0) as [E2|L2|G2]; try lra.
  - pose proof (round_positive_pos q2 G2). lra.
  - pose proof (round_positive_pos (- q1) ltac:(lra)). lra.
  - assert (round_positive (- q2) <= round_positive (- q1))
      by (apply round_positive_mono; lra).
    lra.
  - pose proof (round_positive_pos (- q1) ltac:(lra)).
    pose proof (round_positive_pos q2 G2). lra.
  - apply round_positive_mono; assumption.
Qed.

Lemma round_double_comp q1 q2 : q1 == q2 -> round_double q1 == round_double q2.
Proof.
  intros E. apply Qle_antisym; apply round_double_mono; rewrite E; apply Qle_refl.
Qed.

Lemma exponentialDelay_capped attempt :
  (exponentialDelay attempt == inject_Z (capped attempt))%Q.
Proof.
  unfold exponentialDelay, capped.
  rewrite <- inject_Z_mult.
  destruct (Z.min_spec (INITIAL_RETRY_DELAY_MS * 2 ^ Z.of_nat attempt)
              MAX_RETRY_DELAY_MS) as [[Hlt ->] | [Hle ->]].
  - apply Q.min_l. rewrite <- Zle_Qle. lia.
  - apply Q.min_r. rewrite <- Zle_Qle. lia.
Qed.

(** The values the capped exponential takes. *)
Lemma capped_values attempt :
  In (capped attempt) (2000 :: 4000 :: 8000 :: 16000 :: 30000 :: nil)%Z.
Proof.
  unfold capped, INITIAL_RETRY_DELAY_MS, MAX_RETRY_DELAY_MS.
  destruct attempt as [|[|[|[|attempt]]]]; cbn [In]; try (vm_compute; tauto).
  right; right; right; right; left.
  assert (2 ^ 4 <= 2 ^ Z.of_nat (S (S (S (S attempt)))))%Z
    by (apply Z.pow_le_mono_r; lia).
  lia.
Qed.

Lemma exact_at_capped attempt : exact_at (capped attempt).
Proof.
  pose proof (capped_values attempt) as H. cbn [In] in H.
  destruct H as [<-|[<-|[<-|[<-|[<-|[]]]]]]; repeat split; vm_compute; reflexivity.
Qed.

Lemma round_double_half :
  round_double (1 # 2) == 1 # 2 ∧ round_double (- (1 # 2)) == - (1 # 2)
  ∧ round_double 0 == 0.
Proof. repeat split; vm_compute; reflexivity. Qed.

Lemma calculateRetryDelay_bounds (attempt : nat) (random : Q) :
  (0 <= random)%Q -> (random < 1)%Q ->
  (9 * capped attempt <= 10 * calculateRetryDelay attempt random
   <= 11 * capped attempt)%Z.
Proof.
  intros H0 H1. unfold calculateRetryDelay, jitter.
  destruct (exact_at_capped attempt) as (HF & Hp & Hm & H9 & H11 & _).
  destruct round_double_half as (Hh & Hmh & _).
  set (c := inject_Z (capped attempt)) in *.
  assert (Hc : 0 <= c).
  { unfold c. change 0 with (inject_Z 0). rewrite <- Zle_Qle.
    pose proof (capped_values attempt) as H. cbn [In] in H. lia. }
  assert (HE : round_double (exponentialDelay attempt * double_0_2) == c * (2 # 10)).
  { rewrite <- HF. apply round_double_comp.
    rewrite exponentialDelay_capped. reflexivity. }
  set (x := round_double (random - (1 # 2))).
  assert (Hx : - (1 # 2) <= x ∧ x <= 1 # 2).
  { assert (round_double (- (1 # 2)) <= x) by (apply round_double_mono; lra).
    assert (x <= round_double (1 # 2)) by (apply round_double_mono; lra).
    lra. }
  set (j := round_double
              (round_double (exponentialDelay attempt * double_0_2) * x)).
  assert (Hj : - (c * (1 # 10)) <= j ∧ j <= c * (1 # 10)).
  { assert (round_double (- (c * (1 # 10))) <= j)
      by (apply round_double_mono; rewrite HE; nra).
    assert (j <= round_double (c * (1 # 10)))
      by (apply round_double_mono; rewrite HE; nra).
    lra. }
  set (s := round_double (exponentialDelay attempt + j)).
  assert (Hs : c * (9 # 10) <= s ∧ s <= c * (11 # 10)).
  { assert (round_double (c * (9 # 10)) <= s)
      by (apply round_double_mono; rewrite exponentialDelay_capped; fold c; lra).
    assert (s <= round_double (c * (11 # 10)))
      by (apply round_double_mono; rewrite exponentialDelay_capped; fold c; lra).
    lra. }
  destruct Hs as [Hlo Hhi].
  pose proof (Qfloor_le s) as Hfl. pose proof (Qlt_floor s) as Hfu.
  assert (Hten : exists e, capped attempt = (10 * e)%Z).
  { pose proof (capped_values attempt) as H. cbn [In] in H.
    destruct H as [<-|[<-|[<-|[<-|[<-|[]]]]]];
      [exists 200%Z|exists 400%Z|exists 800%Z|exists 1600%Z|exists 3000%Z];
      reflexivity. }
  destruct Hten as [e He].
  assert (Hce : c == 10 * inject_Z e).
  { unfold c. rewrite He, inject_Z_mult. reflexivity. }
  assert (Hlo' : inject_Z (9 * e) <= s).
  { rewrite inject_Z_mult. change (inject_Z 9) with 9. lra. }
  assert (Hhi' : s <= inject_Z (11 * e)).
  { rewrite inject_Z_mult. change (inject_Z 11) with 11. lra. }
  apply Qfloor_resp_le in Hlo', Hhi'. rewrite Qfloor_Z in Hlo', Hhi'. lia.
Qed.

Lemma calculateRetryDelay_no_jitter attempt :
  calculateRetryDelay attempt (1 # 2) = capped attempt.
Proof.
  unfold calculateRetryDelay, jitter.
  destruct (exact_at_capped attempt) as (_ & _ & _ & _ & _ & Hc).
  destruct round_double_half as (_ & _ & Hz).
  rewrite <- (Qfloor_Z (capped attempt)). apply Qfloor_comp.
  assert (Hx : round_double ((1 # 2) - (1 # 2)) == 0).
  { apply Qeq_trans with (round_double 0); [|exact Hz].
    apply round_double_comp. ring. }
  assert (Hj : round_double
                 (round_double (exponentialDelay attempt * double_0_2)
                  * round_double ((1 # 2) - (1 # 2))) == 0).
  { apply Qeq_trans with (round_double 0); [|exact Hz].
    apply round_double_comp. rewrite Hx. ring. }
  apply Qeq_trans with (round_double (inject_Z (capped attempt))); [|exact Hc].
  apply round_double_comp. rewrite Hj, exponentialDelay_capped. ring.
Qed.
End Rounding.

(** C3, as stated, fails: without jitter the first failure is followed
    by 2000 ms and the third by 8000 ms, which no [base * n] matches. *)
Lemma retry_delay_not_linear : ¬ linear_retry_delay.
Proof.
  intros [base Hbase].
  assert (Hhalf : (0 <= 1 # 2)%Q ∧ (1 # 2 < 1)%Q) by (unfold Qle, Qlt; simpl; lia).
  destruct Hhalf as [H0 H1].
  pose proof (Hbase 1%nat (1 # 2) ltac:(unfold MAX_RETRY_ATTEMPTS; lia) H0 H1) as E1.
  pose proof (Hbase 3%nat (1 # 2) ltac:(unfold MAX_RETRY_ATTEMPTS; lia) H0 H1) as E3.
  assert (D1 : calculateRetryDelay (1 - 1) (1 # 2) = 2000%Z) by reflexivity.
  assert (D3 : calculateRetryDelay (3 - 1) (1 # 2) = 8000%Z) by reflexivity.
  rewrite D1 in E1. rewrite D3 in E3. lia.
Qed.

(** C3, amended: after the n-th failed attempt, n below the attempt
    ceiling, the load sleeps for [floor (E + jitter)] milliseconds,
    computed in double arithmetic, where [E = min (2000 * 2^(n-1)) 30000]
    doubles from attempt to attempt up to the cap and the jitter is at
    most a tenth of [E] either way; with no jitter the delay is [E]
    itself. *)
Theorem retry_delay_capped_exponential (id n : nat) (random : Q) (st : State) :
  (1 ≤ n < MAX_RETRY_ATTEMPTS)%nat → (0 <= random)%Q → (random < 1)%Q →
  ∃ delay,
    loadDronesFromAPI_resume id (n - 1) None random st
      = await id (Load_sleep (n - 1)) (SleepMs delay) st
    ∧ delay = calculateRetryDelay (n - 1) random
    ∧ (9 * capped (n - 1) <= 10 * delay <= 11 * capped (n - 1))%Z
    ∧ calculateRetryDelay (n - 1) (1 # 2) = capped (n - 1)
    ∧ capped (n - 1) = Z.min (2000 * 2 ^ (Z.of_nat n - 1)) 30000.
Proof.
  intros Hn H0 H1. exists (calculateRetryDelay (n - 1) random).
  split; [|split; [reflexivity|split; [|split]]].
  - unfold loadDronesFromAPI_resume.
    destruct (Nat.ltb_spec (n - 1) (MAX_RETRY_ATTEMPTS - 1)) as [_|Hge];
      [reflexivity | unfold MAX_RETRY_ATTEMPTS in *; lia].
  - by apply calculateRetryDelay_bounds.
  - apply calculateRetryDelay_no_jitter.
  - unfold capped, INITIAL_RETRY_DELAY_MS, MAX_RETRY_DELAY_MS.
    by replace (Z.of_nat (n - 1)) with (Z.of_nat n - 1)%Z by lia.
Qed.

Lemma retry_delay_capped_exponential_witness :
  ∃ delay,
    loadDronesFromAPI_resume 0 (3 - 1) None (1 # 4) initial_state
      = await 0 (Load_sleep (3 - 1)) (SleepMs delay) initial_state
    ∧ delay = calculateRetryDelay (3 - 1) (1 # 4)
    ∧ (9 * capped (3 - 1) <= 10 * delay <= 11 * capped (3 - 1))%Z
    ∧ calculateRetryDelay (3 - 1) (1 # 2) = capped (3 - 1)
    ∧ capped (3 - 1) = Z.min (2000 * 2 ^ (Z.of_nat 3 - 1)) 30000.
Proof.
  apply (retry_delay_capped_exponential 0 3 (1 # 4) initial_state).
  - unfold MAX_RETRY_ATTEMPTS. lia.
  - unfold Qle. simpl. lia.
  - unfold Qlt. simpl. lia.
Defined.

(** ** The [Map] of last message times *)

Lemma map_get_set_eq (m : MapData) k v : map_get (map_set m k v) k = Some v.
Proof.
  induction m as [|slot m IH]; simpl.
  - by rewrite bool_decide_eq_true_2.
  - destruct (key_is k slot) eqn:E; simpl.
    + by rewrite bool_decide_eq_true_2.
    + by rewrite E.
Qed.

Lemma map_get_set_ne (m : MapData) k k' v :
  k ≠ k' → map_get (map_set m k v) k' = map_get m k'.
Proof.
  intros Hne. induction m as [|slot m IH]; simpl.
  - by rewrite bool_decide_eq_false_2.
  - destruct (key_is k slot) eqn:E; simpl.
    + destruct slot as [[k0 v0]|]; simpl in *; [|done].
      apply bool_decide_eq_true_1 in E as ->.
      by rewrite bool_decide_eq_false_2.
    + by rewrite IH.
Qed.

(** ** Telemetry that starts and stops nothing *)

Lemma on_message_no_data st topic droneData now :
  no_data droneData = true →
  on_message topic (Some droneData) now st = only_seen topic droneData now st.
Proof.
  unfold no_data, on_message, only_seen. intros H.
  destruct (get_prop (Some droneData) "data") as [data| |]; [|done|done].
  by rewrite H.
Qed.



Lemma Sample_streaming_reachable : reachable Sample.streaming.
Proof. exists Sample.until_streaming. eexists. vm_compute. reflexivity. Qed.

(** C2, as stated, fails: BC001 is streaming and a decoded message
    without [data] arrives; BC001 stays in [startedStreams] and nothing
    is sent to the registry. *)
Lemma dataless_does_not_stop_stream : ¬ dataless_stops_stream.
Proof.
  intros H.
  edestruct (H Sample.streaming Sample.topic Sample.dataless 2000%Z "BC001")
    as [Hgone _].
  - exact Sample_streaming_reachable.
  - reflexivity.
  - reflexivity.
  - apply (bool_decide_unpack _). vm_compute. exact I.
  - apply on_message_no_data. reflexivity.
  - apply Hgone. apply (bool_decide_unpack _). vm_compute. exact I.
Qed.

(** C2, amended: a decoded message whose [data] section is missing or
    not an object only refreshes the device's last message time and is
    broadcast; the stream state is left as it is (a streaming device
    keeps streaming) and no request is sent. *)
Theorem dataless_message_changes_no_stream st topic droneData now :
  no_data droneData = true →
  ∃ st' effs,
    on_message topic (Some droneData) now st = (st', effs)
    ∧ startedStreams st' = startedStreams st
    ∧ pending st' = pending st
    ∧ requests effs = []
    ∧ effs = [IoEmit droneData (topic_sn topic)]
    ∧ map_get (droneLastMessageTime st') (topic_sn topic) = Some now.
Proof.
  intros H. rewrite on_message_no_data by done.
  eexists _, _. split; [reflexivity|]. simpl.
  by rewrite map_get_set_eq.
Qed.

Lemma dataless_message_changes_no_stream_witness :
  ∃ st' effs,
    on_message Sample.topic (Some Sample.dataless) 2000 Sample.streaming = (st', effs)
    ∧ startedStreams st' = startedStreams Sample.streaming
    ∧ pending st' = pending Sample.streaming
    ∧ requests effs = []
    ∧ effs = [IoEmit Sample.dataless (topic_sn Sample.topic)]
    ∧ map_get (droneLastMessageTime st') (topic_sn Sample.topic) = Some 2000%Z.
Proof.
  apply (dataless_message_changes_no_stream Sample.streaming Sample.topic
           Sample.dataless 2000).
  reflexivity.
Defined.



(** ** Devices without a camera *)

Lemma getDroneFirstCamera_no_camera st serial drone :
  find_drone (dronesConfig st) (Some serial) = Some drone →
  first_camera (cameras drone) = None →
  getDroneFirstCamera st (Some serial) = None.
Proof. intros Hfind Hcam. unfold getDroneFirstCamera. by rewrite Hfind. Qed.

Lemma on_message_without_camera st topic message now serial :
  topic_sn topic = Some serial →
  getDroneFirstCamera st (Some serial) = None →
  ∀ st' effs, on_message topic message now st = (st', effs) →
    Forall (λ r, r = PatchDrone serial false "") (requests effs)
    ∧ ∀ id t, pending st' !! id = Some t → is_start_task serial t = true →
              pending st !! id = Some t.
Proof.
  intros Hsn Hcam st' effs. unfold on_message.
  destruct message as [droneData|]; [|intros [= <- <-]; by split].
  destruct (get_prop (Some droneData) "data") as [data| |];
    [|intros [= <- <-]; by split|intros [= <- <-]; by split].
  destruct (negb (truthy data) || negb (typeof_object data));
    [intros [= <- <-]; by split|].
  unfold camera_online, getDroneFirstCamera in *. simpl. rewrite Hsn, Hcam.
  case_bool_decide as Hin; [|intros [= <- <-]; by split].
  unfold fresh, updateDroneStreamStatus, await. simpl.
  intros [= <- <-]. simpl. split.
  - by repeat constructor.
  - intros id t Hlook Hstart.
    destruct (decide (id = nextId st)) as [->|Hne].
    + rewrite lookup_insert_eq in Hlook. by injection Hlook as <-.
    + by rewrite lookup_insert_ne in Hlook.
Qed.

(** C10: for a device whose cached configuration has no camera (an
    empty list, which is also what a missing list is loaded as), the
    first-camera lookup is null; no telemetry message launches a start
    for it, the only request a message can cause being the stop report;
    and a start attempt that reaches the camera check returns before it
    sends anything to the streaming gateway. *)
Theorem no_camera_no_start st serial drone :
  find_drone (dronesConfig st) (Some serial) = Some drone →
  cameras drone = [] →
  getDroneFirstCamera st (Some serial) = None
  ∧ (∀ topic message now st' effs,
       topic_sn topic = Some serial →
       on_message topic message now st = (st', effs) →
       Forall (λ r, r = PatchDrone serial false "") (requests effs)
       ∧ ∀ id t, pending st' !! id = Some t → is_start_task serial t = true →
                 pending st !! id = Some t)
  ∧ (∀ id token, startStream_with_token id serial token st = (st, [Return id None]))
  ∧ (∀ id token st0,
       startStream_with_drone id serial token drone st0 = (st0, [Return id None]))
  ∧ (∀ dbDrone, Db.cameras dbDrone = None ∨ Db.cameras dbDrone = Some [] →
       cameras (to_config dbDrone) = []).
Proof.
  intros Hfind Hcam.
  assert (Hfirst : first_camera (cameras drone) = None) by (by rewrite Hcam).
  pose proof (getDroneFirstCamera_no_camera _ _ _ Hfind Hfirst) as Hnone.
  split; [done|]. split; [|split; [|split]].
  - intros topic message now st' effs Hsn Hmsg.
    by eapply on_message_without_camera.
  - intros id token. unfold startStream_with_token. rewrite Hfind.
    unfold startStream_with_drone. by rewrite Hfirst.
  - intros id token st0. unfold startStream_with_drone. by rewrite Hfirst.
  - intros dbDrone [H|H]; unfold to_config; simpl; by rewrite H.
Qed.

Lemma no_camera_no_start_witness :
  getDroneFirstCamera Sample.streaming (Some "BC002") = None
  ∧ (∀ topic message now st' effs,
       topic_sn topic = Some "BC002" →
       on_message topic message now Sample.streaming = (st', effs) →
       Forall (λ r, r = PatchDrone "BC002" false "") (requests effs)
       ∧ ∀ id t, pending st' !! id = Some t → is_start_task "BC002" t = true →
                 pending Sample.streaming !! id = Some t)
  ∧ (∀ id token,
       startStream_with_token id "BC002" token Sample.streaming
       = (Sample.streaming, [Return id None]))
  ∧ (∀ id token st0,
       startStream_with_drone id "BC002" token (to_config Sample.bare) st0
       = (st0, [Return id None]))
  ∧ (∀ dbDrone, Db.cameras dbDrone = None ∨ Db.cameras dbDrone = Some [] →
       cameras (to_config dbDrone) = []).
Proof.
  apply (no_camera_no_start Sample.streaming "BC002" (to_config Sample.bare)).
  - vm_compute. reflexivity.
  - reflexivity.
Defined.

(** ** Registry load *)

(** Closes [e ∉ [e1; ...; en]] when [e] differs from each by constructor. *)
Ltac absent_from_list :=
  let Hin := fresh "Hin" in
  intros Hin;
  repeat (apply elem_of_cons in Hin as [Hin|Hin]; [discriminate Hin|]);
  by apply elem_of_nil in Hin.

Lemma loadDronesFromAPI_resume_failed id attempt random st st' effs :
  loadDronesFromAPI_resume id attempt None random st = (st', effs) →
  dronesConfig st' = dronesConfig st ∧ droneSNs st' = droneSNs st.
Proof.
  unfold loadDronesFromAPI_resume, updateDroneStreamStatus, await, finish.
  destruct (attempt <? MAX_RETRY_ATTEMPTS - 1)%nat; intros [= <- <-]; by split.
Qed.

Lemma loadDronesFromAPI_resume_loaded id attempt drones random st st' effs :
  loadDronesFromAPI_resume id attempt (Some drones) random st = (st', effs) →
  dronesConfig st' = to_config <$> drones
  ∧ droneSNs st' = Db.deviceSerialNumber <$> drones
  ∧ databaseConnected st' = true
  ∧ retryCount st' = 0%nat
  ∧ Return id (Some true) ∈ effs.
Proof.
  unfold loadDronesFromAPI_resume. intros [= <- <-]. simpl.
  split; [done|]. split.
  - rewrite <- list_fmap_compose. by apply list_fmap_ext.
  - split; [done|]. split; [done|]. left.
Qed.

(** C4: whenever an attempt of the registry load is answered, either
    the attempt failed and the cached device set and the serial list are
    exactly what they were, or it succeeded and both are replaced as a
    whole by what the registry returned; waking up from the delay between
    two attempts changes neither. *)
Theorem load_all_or_nothing st id t r random st' effs :
  pending st !! id = Some t →
  is_load_task t = true →
  step st (Resume id r random) = Some (st', effs) →
  match r with
  | Resp_drones (Some drones) =>
      dronesConfig st' = to_config <$> drones
      ∧ droneSNs st' = Db.deviceSerialNumber <$> drones
      ∧ databaseConnected st' = true
      ∧ Return id (Some true) ∈ effs
  | _ =>
      dronesConfig st' = dronesConfig st ∧ droneSNs st' = droneSNs st
      ∧ Return id (Some true) ∉ effs
  end.
Proof.
  intros Hlook Hload. unfold step. rewrite Hlook.
  destruct t; try discriminate Hload; destruct r as [[drones|]| | | | |];
    cbn [resume]; try discriminate; intros H; apply (inj Some) in H.
  - apply loadDronesFromAPI_resume_loaded in H.
    destruct H as (? & ? & ? & ? & ?). done.
  - unfold loadDronesFromAPI_resume, updateDroneStreamStatus, await, finish in H.
    destruct (attempt <? MAX_RETRY_ATTEMPTS - 1)%nat; injection H as <- <-;
      simpl; (split; [done|]; split; [done|]; absent_from_list).
  - unfold loadDronesFromAPI, await in H. injection H as <- <-. simpl.
    split; [done|]. split; [done|]. absent_from_list.
Qed.

Lemma load_all_or_nothing_witness :
  dronesConfig (loadDronesFromAPI_resume 2 0 None (1 # 2)
                  (set_pending (delete 2%nat (pending Sample.reloading))
                     Sample.reloading)).1
    = dronesConfig Sample.reloading
  ∧ droneSNs (loadDronesFromAPI_resume 2 0 None (1 # 2)
                (set_pending (delete 2%nat (pending Sample.reloading))
                   Sample.reloading)).1
    = droneSNs Sample.reloading
  ∧ Return 2%nat (Some true)
    ∉ (loadDronesFromAPI_resume 2 0 None (1 # 2)
         (set_pending (delete 2%nat (pending Sample.reloading))
            Sample.reloading)).2.
Proof.
  apply (load_all_or_nothing Sample.reloading 2%nat (Load_get 0)
           (Resp_drones None) (1 # 2)).
  - vm_compute. reflexivity.
  - reflexivity.
  - vm_compute. reflexivity.
Defined.

Lemma launches_load_step st ev :
  launches_load st ev →
  step st ev = Some (loadDronesFromAPI (nextId st) 0 (fresh st).2).
Proof.
  intros [->|[-> Hoff]]; [reflexivity|].
  cbn [step]. unfold supervisor_tick. rewrite Hoff. reflexivity.
Qed.

Lemma set_pending_set_pending p q st :
  set_pending p (set_pending q st) = set_pending p st.
Proof. reflexivity. Qed.

Lemma run_failing_load id random more : ∀ attempt st,
  (attempt + more = MAX_RETRY_ATTEMPTS - 1)%nat →
  pending st !! id = Some (Load_get attempt) →
  run st (failing_load id random attempt more)
  = Some (set_retryCount MAX_RETRY_ATTEMPTS
            (set_databaseConnected false
               (set_pending (delete id (pending st)) st)),
          (Call id <$> failing_load_requests random attempt more)
          ++ [Return id (Some false)]).
Proof.
  induction more as [|more IH]; intros attempt st Hsum Hlook.
  - cbn [failing_load run step]. rewrite Hlook. cbn [resume].
    unfold loadDronesFromAPI_resume.
    destruct (Nat.ltb_spec attempt (MAX_RETRY_ATTEMPTS - 1)) as [Hlt|_]; [lia|].
    replace (attempt + 1)%nat with MAX_RETRY_ATTEMPTS
      by (unfold MAX_RETRY_ATTEMPTS in *; lia).
    reflexivity.
  - cbn [failing_load run step]. rewrite Hlook. cbn [resume].
    unfold loadDronesFromAPI_resume.
    destruct (Nat.ltb_spec attempt (MAX_RETRY_ATTEMPTS - 1)) as [_|Hge]; [|lia].
    unfold await at 1. cbn [pending set_pending].
    rewrite lookup_insert_eq. cbn [resume].
    unfold loadDronesFromAPI, await. cbn [pending set_pending].
    rewrite (IH (S attempt)).
    + cbn [pending set_pending]. rewrite set_pending_set_pending.
      rewrite !delete_insert_eq, !delete_delete_eq.
      replace (attempt + 1)%nat with (S attempt) by lia.
      rewrite !set_pending_set_pending. reflexivity.
    + lia.
    + cbn [pending set_pending].
      replace (attempt + 1)%nat with (S attempt) by lia.
      by rewrite lookup_insert_eq.
Qed.

(** C6: when all attempts up to the ceiling fail, the load that the
    connect handler or the supervisor launched marks the registry
    disconnected, returns [false] (it does not throw), has sent exactly
    [MAX_RETRY_ATTEMPTS] registry requests, and leaves the cached device
    set as it was, so lookups answer as before; the supervisor's next
    tick then launches a new load, as it does whenever the registry is
    marked disconnected. *)
Theorem load_exhaustion st ev (random : nat → Q) :
  launches_load st ev →
  ∃ st' effs,
    run st (ev :: failing_load (nextId st) random 0 (MAX_RETRY_ATTEMPTS - 1))
      = Some (st', effs)
    ∧ databaseConnected st' = false
    ∧ retryCount st' = MAX_RETRY_ATTEMPTS
    ∧ dronesConfig st' = dronesConfig st
    ∧ droneSNs st' = droneSNs st
    ∧ (∀ droneSN, find_drone (dronesConfig st') droneSN
                  = find_drone (dronesConfig st) droneSN)
    ∧ effs = Call (nextId st) GetDrones
             :: (Call (nextId st)
                   <$> failing_load_requests random 0 (MAX_RETRY_ATTEMPTS - 1))
             ++ [Return (nextId st) (Some false)]
    ∧ length (List.filter
                (λ r, match r with GetDrones => true | _ => false end)
                (requests effs)) = MAX_RETRY_ATTEMPTS
    ∧ pending st' !! nextId st = None
    ∧ (∀ st0, databaseConnected st0 = false →
         step st0 SupervisorTick
         = Some (loadDronesFromAPI (nextId st0) 0 (fresh st0).2))
    ∧ step st' SupervisorTick
      = Some (loadDronesFromAPI (nextId st') 0 (fresh st').2).
Proof.
  intros Hlaunch. eexists _, _. split.
  - cbn [run]. rewrite (launches_load_step _ _ Hlaunch).
    unfold loadDronesFromAPI, await at 1.
    rewrite run_failing_load; [reflexivity|done|].
    cbn [pending set_pending]. by rewrite lookup_insert_eq.
  - cbn [databaseConnected retryCount dronesConfig droneSNs pending
         set_retryCount set_databaseConnected set_pending fresh snd].
    repeat split; try done.
    + by rewrite lookup_delete_eq.
    + intros st0 Hoff. apply launches_load_step. by right.
Qed.

Lemma load_exhaustion_witness :
  ∃ st' effs,
    run initial_state
        (SupervisorTick
           :: failing_load (nextId initial_state) (λ _, 1 # 2) 0
                (MAX_RETRY_ATTEMPTS - 1))
      = Some (st', effs)
    ∧ databaseConnected st' = false
    ∧ retryCount st' = MAX_RETRY_ATTEMPTS
    ∧ dronesConfig st' = dronesConfig initial_state
    ∧ droneSNs st' = droneSNs initial_state
    ∧ (∀ droneSN, find_drone (dronesConfig st') droneSN
                  = find_drone (dronesConfig initial_state) droneSN)
    ∧ effs = Call (nextId initial_state) GetDrones
             :: (Call (nextId initial_state)
                   <$> failing_load_requests (λ _, 1 # 2) 0
                         (MAX_RETRY_ATTEMPTS - 1))
             ++ [Return (nextId initial_state) (Some false)]
    ∧ length (List.filter
                (λ r, match r with GetDrones => true | _ => false end)
                (requests effs)) = MAX_RETRY_ATTEMPTS
    ∧ pending st' !! nextId initial_state = None
    ∧ (∀ st0, databaseConnected st0 = false →
         step st0 SupervisorTick
         = Some (loadDronesFromAPI (nextId st0) 0 (fresh st0).2))
    ∧ step st' SupervisorTick
      = Some (loadDronesFromAPI (nextId st') 0 (fresh st').2).
Proof.
  apply (load_exhaustion initial_state SupervisorTick (λ _, 1 # 2)).
  right. split; reflexivity.
Defined.

(** ** What one callback can change *)

(** A synchronous stretch of the watchdog either runs to the end of the
    map and returns, or stops at the first silent device that is marked
    started, unmarks it and waits for the stop report. *)
Lemma watchdog_loop_footprint id now entries : ∀ pos st st' effs,
  watchdog_loop id now entries pos st = (st', effs) →
  droneSNs st' = droneSNs st
  ∧ dronesConfig st' = dronesConfig st
  ∧ databaseConnected st' = databaseConnected st
  ∧ retryCount st' = retryCount st
  ∧ cachedToken st' = cachedToken st
  ∧ tokenExpiry st' = tokenExpiry st
  ∧ nextId st' = nextId st
  ∧ ((pending st' = pending st ∧ startedStreams st' = startedStreams st
      ∧ effs = [Return id None])
     ∨ ∃ serial pos',
         pending st' = <[id := Watchdog_update now pos' serial]> (pending st)
         ∧ serial ∈ startedStreams st
         ∧ startedStreams st' = startedStreams st ∖ {[serial]}
         ∧ effs = [Call id (PatchDrone serial false "")]).
Proof.
  induction entries as [|[[k t]|] entries IH]; intros pos st st' effs;
    cbn [watchdog_loop].
  - unfold finish. intros [= <- <-]. repeat split; auto.
  - destruct (inactive now t); [|apply IH].
    destruct k as [serial|].
    + case_bool_decide as Hin.
      * unfold updateDroneStreamStatus, await. intros [= <- <-]. cbn.
        repeat split; eauto 10.
      * intros H. apply IH in H. exact H.
    + intros H. apply IH in H. exact H.
  - apply IH.
Qed.

(** Nothing ever assigns [tokenExpiry]. *)
Lemma step_tokenExpiry st ev st' effs :
  step st ev = Some (st', effs) → tokenExpiry st' = tokenExpiry st.
Proof.
  destruct ev as [|topic message now|now| |id r random]; cbn [step].
  - intros [= <- <-]. reflexivity.
  - unfold on_message, startStream, startStream_with_token,
      startStream_with_drone, updateDroneStreamStatus, await, finish, fresh.
    intros H. repeat case_match; simplify_eq; reflexivity.
  - unfold watchdog_tick, fresh. intros [= H].
    apply watchdog_loop_footprint in H. destruct H as (_&_&_&_&_&->&_). done.
  - unfold supervisor_tick, loadDronesFromAPI, await, fresh.
    intros H. repeat case_match; simplify_eq; reflexivity.
  - destruct (pending st !! id) as [t|]; [|discriminate].
    destruct t; destruct r; cbn [resume]; try discriminate;
      try (unfold getAcessToken_resume, loadDronesFromAPI_resume, loadDronesFromAPI,
             startStream_with_token, startStream_with_drone, updateDroneStreamStatus, await, finish;
           intros H; repeat case_match; simplify_eq; reflexivity).
    intros [= H]. apply watchdog_loop_footprint in H.
    destruct H as (_&_&_&_&_&->&_). done.
Qed.

(** ** The cached token *)

Lemma getAcessToken_cached st token now :
  tokenExpiry st = None → cachedToken st = Some token →
  truthy_string token = true → getAcessToken st now = Some token.
Proof. intros He Ht Htr. unfold getAcessToken. by rewrite Ht, He, Htr. Qed.

(** Closes goals about a lookup in a map that was just updated at one key. *)
Ltac lookup_cases id id' :=
  destruct (decide (id = id')) as [->|?];
  [ rewrite ?lookup_insert_eq, ?lookup_delete_eq in *
  | rewrite ?lookup_insert_ne, ?lookup_delete_ne in * by done ].

Lemma step_cachedToken st ev st' effs :
  step st ev = Some (st', effs) → token_kept_or_replaced st st'.
Proof.
  unfold token_kept_or_replaced.
  destruct ev as [|topic message now|now| |id r random]; cbn [step].
  - intros [= <- <-]. by left.
  - unfold on_message, startStream, startStream_with_token,
      startStream_with_drone, updateDroneStreamStatus, await, finish, fresh.
    intros H. repeat case_match; simplify_eq; by left.
  - unfold watchdog_tick, fresh. intros [= H].
    apply watchdog_loop_footprint in H. destruct H as (_&_&_&_&->&_). by left.
  - unfold supervisor_tick, loadDronesFromAPI, await, fresh.
    intros H. repeat case_match; simplify_eq; by left.
  - destruct (pending st !! id) as [t|] eqn:Hlook; [|discriminate].
    destruct t; destruct r; cbn [resume]; try discriminate;
      try (unfold getAcessToken_resume, loadDronesFromAPI_resume, loadDronesFromAPI,
             startStream_with_token, startStream_with_drone, updateDroneStreamStatus, await, finish;
           intros H; repeat case_match; simplify_eq; by left).
    + unfold getAcessToken_resume, startStream_with_token,
        startStream_with_drone, updateDroneStreamStatus, await, finish.
      intros H.
      destruct access_token as [token|]; [|simplify_eq; by left].
      destruct (truthy_string token) eqn:Htr; [|simplify_eq; by left].
      right. split; [by exists id, droneSN|]. exists token.
      repeat case_match; simplify_eq; done.
    + intros [= H]. apply watchdog_loop_footprint in H.
      destruct H as (_&_&_&_&->&_). by left.
Qed.

Lemma requests_app effs effs' :
  requests (effs ++ effs') = requests effs ++ requests effs'.
Proof. unfold requests. apply omap_app. Qed.

Lemma requests_subscribeToAllDrones st : requests (subscribeToAllDrones st) = [].
Proof.
  unfold subscribeToAllDrones, requests.
  induction (droneSNs st) as [|s l IH]; [done|exact IH].
Qed.

(** Reduces the projections of updated states, and nothing else. *)
Ltac fields :=
  cbn [droneSNs dronesConfig databaseConnected retryCount cachedToken
       tokenExpiry startedStreams droneLastMessageTime pending nextId
       set_drones set_databaseConnected set_retryCount set_cachedToken
       set_startedStreams set_droneLastMessageTime set_pending fresh
       fst snd] in *.

(** A lookup of a login task in a map updated at [i] with a task that is
    not a login task, or emptied at [i]. *)
Ltac old_login_task :=
  let id' := fresh "id'" in
  let s' := fresh "s'" in
  let Hl := fresh "Hl" in
  intros id' s' Hl; fields;
  repeat match type of Hl with
    | <[?i := _]> _ !! _ = _ =>
        destruct (decide (id' = i)) as [->|?];
        [ rewrite lookup_insert_eq in Hl; discriminate Hl
        | rewrite lookup_insert_ne in Hl by done ]
    | delete ?i _ !! _ = _ =>
        destruct (decide (id' = i)) as [->|?];
        [ rewrite lookup_delete_eq in Hl; discriminate Hl
        | rewrite lookup_delete_ne in Hl by done ]
    end;
  try exact Hl.

Ltac no_login_sent := cbn [requests omap list_omap]; absent_from_list.

Lemma step_no_new_login st ev st' effs token :
  step st ev = Some (st', effs) →
  tokenExpiry st = None → cachedToken st = Some token →
  truthy_string token = true →
  (PostLogin ∉ requests effs)
  ∧ ∀ id s, pending st' !! id = Some (StartStream_login s) →
            pending st !! id = Some (StartStream_login s).
Proof.
  intros Hstep Hexp Htok Htr.
  destruct ev as [|topic message now|now| |id r random]; cbn [step] in Hstep.
  - unfold loadDronesFromAPI, await in Hstep. injection Hstep as <- <-.
    split; [no_login_sent|old_login_task].
  - unfold on_message in Hstep.
    destruct message as [droneData|];
      [|injection Hstep as <- <-; split; [no_login_sent|done]].
    unfold startStream in Hstep. fields.
    rewrite (getAcessToken_cached _ token) in Hstep by done.
    unfold startStream_with_token, startStream_with_drone, updateDroneStreamStatus, await, finish,
      fresh in Hstep.
    repeat case_match; simplify_eq;
      (split; [no_login_sent|old_login_task]).
  - unfold watchdog_tick, fresh in Hstep. injection Hstep as H.
    apply watchdog_loop_footprint in H.
    destruct H as (_&_&_&_&_&_&_&[(Hp&_&->)|(serial&pos'&Hp&_&_&->)]);
      fields; rewrite Hp;
      (split; [no_login_sent|old_login_task]).
  - unfold supervisor_tick, loadDronesFromAPI, await, fresh in Hstep.
    repeat case_match; simplify_eq;
      (split; [no_login_sent|old_login_task]).
  - destruct (pending st !! id) as [t|] eqn:Hlook; [|discriminate].
    destruct t; destruct r; cbn [resume] in Hstep; try discriminate;
      try (unfold getAcessToken_resume, loadDronesFromAPI_resume, loadDronesFromAPI,
             startStream_with_token, startStream_with_drone, updateDroneStreamStatus, await, finish
             in Hstep;
           repeat case_match; simplify_eq;
           (split; [no_login_sent|old_login_task])).
    + unfold loadDronesFromAPI_resume, updateDroneStreamStatus, await, finish in Hstep.
      destruct drones as [drones|].
      * injection Hstep as <- <-.
        change (requests (Return id (Some true) :: ?l)) with (requests l).
        rewrite requests_subscribeToAllDrones.
        split; [apply not_elem_of_nil|old_login_task].
      * repeat case_match; simplify_eq;
          (split; [no_login_sent|old_login_task]).
    + injection Hstep as H. apply watchdog_loop_footprint in H.
      destruct H as (_&_&_&_&_&_&_&[(Hp&_&->)|(serial&pos'&Hp&_&_&->)]);
        fields; rewrite Hp;
        (split; [no_login_sent|old_login_task]).
Qed.

(** ** Runs *)

Lemma run_invariant (I : State → Prop) :
  (∀ st ev st' effs, I st → step st ev = Some (st', effs) → I st') →
  ∀ evs st st' effs, I st → run st evs = Some (st', effs) → I st'.
Proof.
  intros Hstep. induction evs as [|ev evs IH]; intros st st' effs HI Hrun.
  - by injection Hrun as <- <-.
  - cbn [run] in Hrun.
    destruct (step st ev) as [[st1 effs1]|] eqn:E; [|discriminate].
    destruct (run st1 evs) as [[st2 effs2]|] eqn:E'; [|discriminate].
    injection Hrun as <- <-. eapply IH; [|exact E']. by eapply Hstep.
Qed.

Lemma reachable_invariant (I : State → Prop) :
  I initial_state →
  (∀ st ev st' effs, I st → step st ev = Some (st', effs) → I st') →
  ∀ st, reachable st → I st.
Proof.
  intros Hinit Hstep st (evs & effs & Hrun).
  exact (run_invariant I Hstep evs initial_state st effs Hinit Hrun).
Qed.

Lemma run_cons st ev evs st' effs :
  run st (ev :: evs) = Some (st', effs) →
  ∃ st1 effs1 effs2,
    step st ev = Some (st1, effs1) ∧ run st1 evs = Some (st', effs2)
    ∧ effs = effs1 ++ effs2.
Proof.
  cbn [run]. intros Hrun.
  destruct (step st ev) as [[st1 effs1]|]; [|discriminate].
  destruct (run st1 evs) as [[st2 effs2]|] eqn:E; [|discriminate].
  injection Hrun as <- <-. by exists st1, effs1, effs2.
Qed.

Lemma token_state_ok_step st ev st' effs :
  token_state_ok st → step st ev = Some (st', effs) → token_state_ok st'.
Proof.
  intros [Hexp Htr] Hstep. split.
  - by rewrite (step_tokenExpiry _ _ _ _ Hstep).
  - intros token Htok.
    destruct (step_cachedToken _ _ _ _ Hstep) as [Hsame|(_ & token' & H1 & H2)].
    + apply Htr. congruence.
    + congruence.
Qed.

Lemma token_state_ok_reachable st : reachable st → token_state_ok st.
Proof.
  apply reachable_invariant.
  - split; [done|]. intros token [=].
  - intros. by eapply token_state_ok_step.
Qed.

Lemma run_with_cached_token evs : ∀ st token st' effs,
  token_state_ok st → cachedToken st = Some token →
  run st evs = Some (st', effs) →
  (PostLogin ∉ requests effs)
  ∧ (∃ token', cachedToken st' = Some token' ∧ truthy_string token' = true)
  ∧ (¬ login_in_flight st → cachedToken st' = Some token).
Proof.
  induction evs as [|ev evs IH]; intros st token st' effs Hok Htok Hrun.
  - injection Hrun as <- <-. destruct Hok as [_ Htr].
    split; [apply not_elem_of_nil|]. split; [|done]. exists token. auto.
  - apply run_cons in Hrun as (st1 & effs1 & effs2 & Hstep & Hrun & ->).
    pose proof Hok as [Hexp Htr].
    destruct (step_no_new_login _ _ _ _ token Hstep Hexp Htok (Htr _ Htok))
      as [Hnone Hold].
    pose proof (token_state_ok_step _ _ _ _ Hok Hstep) as Hok1.
    assert (Hquiet : ¬ login_in_flight st → ¬ login_in_flight st1).
    { intros Hno (id & s & Hl). apply Hno. exists id, s. by apply Hold. }
    destruct (step_cachedToken _ _ _ _ Hstep)
      as [Hsame|(Hfly & token' & Htok' & _)].
    + rewrite Htok in Hsame.
      destruct (IH _ _ _ _ Hok1 Hsame Hrun) as (Hnone2 & Hsome & Hkeep).
      split; [|split; [done|]].
      * rewrite requests_app. intros [?|?]%elem_of_app; done.
      * intros Hno. apply Hkeep. by apply Hquiet.
    + destruct (IH _ _ _ _ Hok1 Htok' Hrun) as (Hnone2 & Hsome & _).
      split; [|split; [done|]].
      * rewrite requests_app. intros [?|?]%elem_of_app; done.
      * intros Hno. done.
Qed.

Lemma Sample_first_login_done_reachable : reachable Sample.first_login_done.
Proof. exists Sample.until_first_login. eexists. vm_compute. reflexivity. Qed.

(** C9, as stated, fails: two start attempts both find the cache empty
    and both log in; after the first login has put tokA in the cache the
    second one, still under way, replaces it by tokB. *)
Lemma token_replaced_by_late_login : ¬ token_fixed_after_first_login.
Proof.
  intros H.
  destruct (H Sample.first_login_done "tokA"
              [Resume 2 (Resp_login (Some "tokB")) 0]
              (match run Sample.first_login_done
                       [Resume 2 (Resp_login (Some "tokB")) 0] with
               | Some (st, _) => st | None => initial_state end)
              (match run Sample.first_login_done
                       [Resume 2 (Resp_login (Some "tokB")) 0] with
               | Some (_, effs) => effs | None => [] end)
              Sample_first_login_done_reachable) as [Hsame _].
  - vm_compute. reflexivity.
  - vm_compute. reflexivity.
  - vm_compute in Hsame. discriminate Hsame.
Qed.

(** C9, amended: no expiry instant is ever recorded, so once a token is
    cached every call of [getAcessToken] returns the cached token at
    once, whatever the time, and no login request is ever sent again; the
    cached token stays the same from then on unless a login that was
    already under way completes and replaces it. *)
Theorem token_cache_never_expires st :
  reachable st →
  tokenExpiry st = None
  ∧ ∀ token, cachedToken st = Some token →
      (∀ now, getAcessToken st now = Some token)
      ∧ ∀ evs st' effs, run st evs = Some (st', effs) →
          tokenExpiry st' = None
          ∧ (PostLogin ∉ requests effs)
          ∧ (∃ token', cachedToken st' = Some token'
                       ∧ ∀ now, getAcessToken st' now = Some token')
          ∧ (¬ login_in_flight st → cachedToken st' = Some token).
Proof.
  intros Hreach. pose proof (token_state_ok_reachable _ Hreach) as Hok.
  pose proof Hok as [Hexp Htr]. split; [done|].
  intros token Htok. split.
  - intros now. apply getAcessToken_cached; auto.
  - intros evs st' effs Hrun.
    assert (Hok' : token_state_ok st').
    { eapply (run_invariant token_state_ok); [|exact Hok|exact Hrun].
      intros. by eapply token_state_ok_step. }
    destruct (run_with_cached_token _ _ _ _ _ Hok Htok Hrun)
      as (Hnone & (token' & Htok' & Htr') & Hkeep).
    destruct Hok' as [Hexp' _].
    split; [done|]. split; [done|]. split; [|done].
    exists token'. split; [done|]. intros now.
    by apply getAcessToken_cached.
Qed.

Lemma token_cache_never_expires_witness :
  tokenExpiry Sample.streaming = None
  ∧ ∀ token, cachedToken Sample.streaming = Some token →
      (∀ now, getAcessToken Sample.streaming now = Some token)
      ∧ ∀ evs st' effs, run Sample.streaming evs = Some (st', effs) →
          tokenExpiry st' = None
          ∧ (PostLogin ∉ requests effs)
          ∧ (∃ token', cachedToken st' = Some token'
                       ∧ ∀ now, getAcessToken st' now = Some token')
          ∧ (¬ login_in_flight Sample.streaming → cachedToken st' = Some token).
Proof.
  apply (token_cache_never_expires Sample.streaming).
  exists Sample.until_streaming. eexists. vm_compute. reflexivity.
Defined.

(** ** The started set as a guard *)

(** A device enters [startedStreams] only at line 312, when the registry
    update that follows a successful gateway answer has completed. *)
Lemma step_marks_started st ev st' effs serial :
  step st ev = Some (st', effs) →
  serial ∈ startedStreams st' → serial ∉ startedStreams st →
  ∃ id status random,
    ev = Resume id (Resp_patch status) random
    ∧ pending st !! id = Some (StartStream_update serial).
Proof.
  intros Hstep Hin Hout.
  destruct ev as [|topic message now|now| |id r random]; cbn [step] in Hstep.
  - unfold loadDronesFromAPI, await in Hstep. injection Hstep as <- <-. done.
  - unfold on_message, startStream, startStream_with_token,
      startStream_with_drone, updateDroneStreamStatus, await, finish, fresh in Hstep.
    repeat case_match; simplify_eq; fields; try done; set_solver.
  - unfold watchdog_tick, fresh in Hstep. injection Hstep as H.
    apply watchdog_loop_footprint in H.
    destruct H as (_&_&_&_&_&_&_&[(_&Hs&_)|(s&pos'&_&_&Hs&_)]);
      fields; rewrite Hs in Hin; set_solver.
  - unfold supervisor_tick, loadDronesFromAPI, await, fresh in Hstep.
    repeat case_match; simplify_eq; done.
  - destruct (pending st !! id) as [t|] eqn:Hlook; [|discriminate].
    destruct t; destruct r; cbn [resume] in Hstep; try discriminate;
      try (unfold getAcessToken_resume, loadDronesFromAPI_resume, loadDronesFromAPI,
             startStream_with_token, startStream_with_drone, updateDroneStreamStatus, await, finish
             in Hstep;
           repeat case_match; simplify_eq; fields; done).
    + injection Hstep as <- <-. fields.
      assert (serial = droneSN) as -> by set_solver.
      by exists id, status, random.
    + injection Hstep as H. apply watchdog_loop_footprint in H.
      destruct H as (_&_&_&_&_&_&_&[(_&Hs&_)|(s&pos'&_&_&Hs&_)]);
        fields; rewrite Hs in Hin; set_solver.
Qed.

Lemma Sample_two_starts_reachable : reachable Sample.two_starts.
Proof. exists Sample.until_two_starts. eexists. vm_compute. reflexivity. Qed.

(** C1, as stated, fails: BC001 reports its camera twice before the
    first attempt has completed; nothing marks the device in the
    meantime, so a second [startStream] runs next to the first and both
    wait for the streaming gateway. *)
Lemma two_starts_in_flight : ¬ one_start_in_flight.
Proof.
  intros H.
  pose proof (H Sample.two_starts "BC001" Sample_two_starts_reachable) as Hle.
  vm_compute in Hle. lia.
Qed.

(** C1, the code at the failing input: the registry lists BC001, which
    reports its camera at 1000 and at 1500, before the login of the
    first start is answered.  Each message launches a start; both log
    in, and both ask the streaming gateway to start the stream of
    BC001, which is still not marked started. *)
Theorem two_starts_for_one_device :
  ∃ effs,
    run initial_state Sample.until_two_starts = Some (Sample.two_starts, effs)
    ∧ starts_in_flight "BC001" Sample.two_starts = 2%nat
    ∧ List.filter is_start_request (requests effs)
      = [ PostLogin; PostLogin;
          PostStreamStart "userName=&password=&port=8554"
            "BC001/camA/thermal-0" "tokA";
          PostStreamStart "userName=&password=&port=8554"
            "BC001/camA/thermal-0" "tokB" ]
    ∧ "BC001" ∉ startedStreams Sample.two_starts.
Proof.
  eexists. split; [vm_compute; reflexivity|].
  split; [vm_compute; reflexivity|].
  split; [vm_compute; reflexivity|].
  apply (bool_decide_unpack _). vm_compute. exact I.
Qed.

(** X18: a telemetry message adds at most one pending invocation; for
    a device that is in [startedStreams] it sends no start request and
    adds no start attempt; and a device enters [startedStreams] only in
    the callback that receives the answer to the registry update of
    line 309. *)
Theorem started_set_guards_start st topic message now st' effs :
  on_message topic message now st = (st', effs) →
  (pending st' = pending st
   ∨ ∃ t, pending st' = <[nextId st := t]> (pending st))
  ∧ (∀ serial, topic_sn topic = Some serial → serial ∈ startedStreams st →
       Forall (λ r, is_start_request r = false) (requests effs)
       ∧ ∀ id t droneSN, pending st' !! id = Some t →
           is_start_task droneSN t = true → pending st !! id = Some t)
  ∧ (∀ ev st0 st1 effs1 serial,
       step st0 ev = Some (st1, effs1) →
       serial ∈ startedStreams st1 → serial ∉ startedStreams st0 →
       ∃ id status random,
         ev = Resume id (Resp_patch status) random
         ∧ pending st0 !! id = Some (StartStream_update serial)).
Proof.
  intros Hmsg. split; [|split].
  - unfold on_message, startStream, startStream_with_token,
      startStream_with_drone, updateDroneStreamStatus, await, finish, fresh in Hmsg.
    repeat case_match; simplify_eq; fields; eauto.
  - intros serial Hsn Hin.
    unfold on_message in Hmsg. rewrite Hsn in Hmsg.
    unfold updateDroneStreamStatus, await, fresh in Hmsg. fields.
    rewrite bool_decide_eq_true_2 in Hmsg by done.
    repeat case_match; simplify_eq; fields;
      (split; [by repeat constructor|]); try done.
    intros id t droneSN Hl Hstart.
    destruct (decide (id = nextId st)) as [->|?].
    + rewrite lookup_insert_eq in Hl. by injection Hl as <-.
    + by rewrite lookup_insert_ne in Hl.
  - intros ev st0 st1 effs1 serial. apply step_marks_started.
Qed.

Lemma started_set_guards_start_witness :
  (pending (only_seen Sample.topic Sample.present 2000 Sample.streaming).1
   = pending Sample.streaming
   ∨ ∃ t, pending (only_seen Sample.topic Sample.present 2000 Sample.streaming).1
          = <[nextId Sample.streaming := t]> (pending Sample.streaming))
  ∧ (∀ serial, topic_sn Sample.topic = Some serial →
       serial ∈ startedStreams Sample.streaming →
       Forall (λ r, is_start_request r = false)
         (requests (only_seen Sample.topic Sample.present 2000 Sample.streaming).2)
       ∧ ∀ id t droneSN,
           pending (only_seen Sample.topic Sample.present 2000 Sample.streaming).1
             !! id = Some t →
           is_start_task droneSN t = true →
           pending Sample.streaming !! id = Some t)
  ∧ (∀ ev st0 st1 effs1 serial,
       step st0 ev = Some (st1, effs1) →
       serial ∈ startedStreams st1 → serial ∉ startedStreams st0 →
       ∃ id status random,
         ev = Resume id (Resp_patch status) random
         ∧ pending st0 !! id = Some (StartStream_update serial)).
Proof.
  apply (started_set_guards_start Sample.streaming Sample.topic
           (Some Sample.present) 2000).
  vm_compute. reflexivity.
Defined.

(** ** The fallback lookup *)

Lemma requests_of_app id effs effs' :
  requests_of id (effs ++ effs') = requests_of id effs ++ requests_of id effs'.
Proof. unfold requests_of. apply omap_app. Qed.

Lemma fetches_sent_app id effs effs' :
  fetches_sent id (effs ++ effs')
  = (fetches_sent id effs + fetches_sent id effs')%nat.
Proof.
  unfold fetches_sent.
  by rewrite requests_of_app, List.filter_app, length_app.
Qed.

Lemma requests_of_subscribeToAllDrones id st :
  requests_of id (subscribeToAllDrones st) = [].
Proof.
  unfold subscribeToAllDrones, requests_of.
  induction (droneSNs st) as [|s l IH]; [done|exact IH].
Qed.

Lemma fetches_sent_subscribeToAllDrones id st :
  fetches_sent id (subscribeToAllDrones st) = 0%nat.
Proof. unfold fetches_sent. by rewrite requests_of_subscribeToAllDrones. Qed.

Lemma fetches_sent_Return id id' v effs :
  fetches_sent id (Return id' v :: effs) = fetches_sent id effs.
Proof. reflexivity. Qed.

(** One effect list, one identifier: what was sent and what is left. *)
Ltac budget_arith st :=
  repeat match goal with
    | H : (_ <? _)%nat = true |- _ => apply Nat.ltb_lt in H
    | H : (_ <? _)%nat = false |- _ => apply Nat.ltb_ge in H
    end;
  repeat match goal with
    | |- context [(?a <=? ?b)%nat] => destruct (Nat.leb_spec a b)
    end;
  repeat match goal with
    | |- context [pending st !! ?i] =>
        let E := fresh "E" in
        destruct (pending st !! i) eqn:E;
        [ match goal with Hwf : ids_allocated st |- _ =>
            pose proof (Hwf _ _ E) end
        | ]
    end;
  cbn [List.filter length fetches_left maxFetchAttempts];
  unfold maxFetchAttempts in *;
  repeat case_match; try lia.

Ltac budget_leaf st id0 :=
  let id := fresh "id" in
  let t := fresh "t" in
  let Hl := fresh "Hl" in
  split;
  [ intros id t Hl; fields;
    destruct (decide (id = id0)) as [->|?];
    [ try match goal with
        | Hwf : ids_allocated st, H : pending st !! id0 = Some _ |- _ =>
            pose proof (Hwf _ _ H)
        end; lia
    | rewrite ?lookup_insert_ne, ?lookup_delete_ne in Hl by done;
      match goal with Hwf : ids_allocated st |- _ => apply Hwf in Hl end; lia ]
  | intros id;
    rewrite ?fetches_sent_Return, ?fetches_sent_subscribeToAllDrones;
    unfold fetch_budget, fetches_sent, requests_of; fields;
    cbn [omap list_omap];
    destruct (decide (id = id0)) as [->|?];
    [ rewrite ?Nat.eqb_refl, ?lookup_insert_eq, ?lookup_delete_eq;
      try match goal with
        | Hwf : ids_allocated st, H : pending st !! id0 = Some _ |- _ =>
            pose proof (Hwf _ _ H); rewrite H
        end;
      budget_arith st
    | rewrite ?lookup_insert_ne, ?lookup_delete_ne by done;
      repeat match goal with
        | |- context [(?a =? id)%nat] =>
            replace (a =? id)%nat with false by (symmetry; apply Nat.eqb_neq; lia)
        end;
      budget_arith st ] ].

Ltac budget_fresh :=
  match goal with Hwf : ids_allocated ?s |- _ => budget_leaf s (nextId s) end.

Ltac budget_resumed id0 :=
  match goal with Hwf : ids_allocated ?s |- _ => budget_leaf s id0 end.

Lemma step_fetch_budget st ev st' effs :
  ids_allocated st → step st ev = Some (st', effs) →
  ids_allocated st'
  ∧ ∀ id, (fetches_sent id effs + fetch_budget id st' ≤ fetch_budget id st)%nat.
Proof.
  intros Hwf Hstep.
  destruct ev as [|topic message now|now| |id0 r random]; cbn [step] in Hstep.
  - unfold loadDronesFromAPI, await in Hstep. injection Hstep as <- <-.
    budget_fresh.
  - unfold on_message, startStream, startStream_with_token,
      startStream_with_drone, updateDroneStreamStatus, await, finish, fresh in Hstep.
    repeat case_match; simplify_eq; budget_fresh.
  - unfold watchdog_tick, fresh in Hstep. injection Hstep as H.
    apply watchdog_loop_footprint in H.
    destruct H as (_&_&_&_&_&_&Hn&[(Hp&_&->)|(serial&pos'&Hp&_&_&->)]);
      destruct st' as [? ? ? ? ? ? ? ? p' n']; fields; subst p' n';
      budget_fresh.
  - unfold supervisor_tick, loadDronesFromAPI, await, fresh in Hstep.
    repeat case_match; simplify_eq; budget_fresh.
  - destruct (pending st !! id0) as [t|] eqn:Hlook; [|discriminate].
    destruct t; destruct r; cbn [resume] in Hstep; try discriminate;
      try (unfold getAcessToken_resume, loadDronesFromAPI_resume, loadDronesFromAPI,
             startStream_with_token, startStream_with_drone, updateDroneStreamStatus, await, finish
             in Hstep;
           repeat case_match; simplify_eq; budget_resumed id0).
    injection Hstep as H. apply watchdog_loop_footprint in H.
    destruct H as (_&_&_&_&_&_&Hn&[(Hp&_&->)|(serial&pos'&Hp&_&_&->)]);
      destruct st' as [? ? ? ? ? ? ? ? p' n']; fields; subst p' n';
      budget_resumed id0.
Qed.

Lemma run_fetch_budget evs : ∀ st st' effs,
  ids_allocated st → run st evs = Some (st', effs) →
  ids_allocated st'
  ∧ ∀ id, (fetches_sent id effs + fetch_budget id st' ≤ fetch_budget id st)%nat.
Proof.
  induction evs as [|ev evs IH]; intros st st' effs Hwf Hrun.
  - injection Hrun as <- <-. split; [done|]. intros id. cbn. lia.
  - apply run_cons in Hrun as (st1 & effs1 & effs2 & Hstep & Hrun & ->).
    destruct (step_fetch_budget _ _ _ _ Hwf Hstep) as [Hwf1 Hb1].
    destruct (IH _ _ _ Hwf1 Hrun) as [Hwf2 Hb2].
    split; [done|]. intros id. rewrite fetches_sent_app.
    specialize (Hb1 id). specialize (Hb2 id). lia.
Qed.

Lemma ids_allocated_initial : ids_allocated initial_state.
Proof. intros id t Hl. cbn in Hl. by rewrite lookup_empty in Hl. Qed.

Lemma ids_allocated_reachable st : reachable st → ids_allocated st.
Proof.
  intros (evs & effs & Hrun).
  by destruct (run_fetch_budget _ _ _ _ ids_allocated_initial Hrun).
Qed.

Lemma step_resume_inserted id t r random p st :
  step (set_pending (<[id := t]> p) st) (Resume id r random)
  = resume id t r random (set_pending (delete id p) st).
Proof.
  cbn [step pending set_pending]. rewrite lookup_insert_eq.
  by rewrite set_pending_set_pending, delete_insert_eq.
Qed.

Lemma run_failing_fetches id serial token st :
  run (set_pending (<[id := StartStream_fetch serial token 0]> (pending st)) st)
      (failing_fetches id)
  = Some (set_databaseConnected false (set_pending (delete id (pending st)) st),
          [ Call id (SleepMs 1000); Call id (GetDrone serial);
            Call id (SleepMs 2000); Call id (GetDrone serial);
            Return id None ]).
Proof.
  unfold failing_fetches.
  cbn [run]. rewrite step_resume_inserted. cbn [resume Nat.ltb Nat.leb
    maxFetchAttempts]. unfold await at 1. cbn [pending set_pending].
  rewrite step_resume_inserted. cbn [resume Nat.ltb Nat.leb maxFetchAttempts].
  unfold await at 1. cbn [pending set_pending].
  rewrite step_resume_inserted. cbn [resume Nat.ltb Nat.leb maxFetchAttempts].
  unfold await at 1. cbn [pending set_pending].
  rewrite step_resume_inserted. cbn [resume Nat.ltb Nat.leb maxFetchAttempts].
  unfold await at 1. cbn [pending set_pending].
  rewrite step_resume_inserted. cbn [resume Nat.ltb Nat.leb maxFetchAttempts].
  unfold finish. rewrite !set_pending_set_pending, !delete_delete_eq.
  reflexivity.
Qed.

(** C8: in every interleaving no invocation of [startStream] sends more
    than three fallback lookups.  A start attempt for a serial that is
    not cached sends the first one; when that and the two that follow
    fail, the attempt has waited 1000 ms and then 2000 ms between them,
    marks the registry disconnected and returns without asking the
    streaming gateway for anything and without marking the device
    started; the cache is as it was and the attempt is no longer
    pending. *)
Theorem fallback_fetch_gives_up evs st effs id serial token :
  run initial_state evs = Some (st, effs) →
  find_drone (dronesConfig st) (Some serial) = None →
  (∀ id', fetches_sent id' effs ≤ maxFetchAttempts)%nat
  ∧ ∃ st1 st2,
      startStream_with_token id serial token st
        = (st1, [Call id (GetDrone serial)])
      ∧ run st1 (failing_fetches id)
        = Some (st2,
                [ Call id (SleepMs (1000 * 1)); Call id (GetDrone serial);
                  Call id (SleepMs (1000 * 2)); Call id (GetDrone serial);
                  Return id None ])
      ∧ databaseConnected st2 = false
      ∧ startedStreams st2 = startedStreams st
      ∧ dronesConfig st2 = dronesConfig st
      ∧ droneSNs st2 = droneSNs st
      ∧ cachedToken st2 = cachedToken st
      ∧ pending st2 = delete id (pending st).
Proof.
  intros Hrun Hfind. split.
  - intros id'.
    destruct (run_fetch_budget _ _ _ _ ids_allocated_initial Hrun) as [_ Hb].
    specialize (Hb id'). unfold fetch_budget at 2 in Hb. cbn in Hb. lia.
  - unfold startStream_with_token. rewrite Hfind. cbn [Nat.ltb Nat.leb
      maxFetchAttempts]. unfold await. eexists _, _. split; [reflexivity|].
    split; [apply run_failing_fetches|]. by fields.
Qed.

Lemma fallback_fetch_gives_up_witness :
  (∀ id', fetches_sent id' Scenario.cache_emptied.2 ≤ maxFetchAttempts)%nat
  ∧ ∃ st1 st2,
      startStream_with_token 1 "BC001" "tokA" Scenario.cache_emptied.1
        = (st1, [Call 1%nat (GetDrone "BC001")])
      ∧ run st1 (failing_fetches 1)
        = Some (st2,
                [ Call 1%nat (SleepMs (1000 * 1)); Call 1%nat (GetDrone "BC001");
                  Call 1%nat (SleepMs (1000 * 2)); Call 1%nat (GetDrone "BC001");
                  Return 1%nat None ])
      ∧ databaseConnected st2 = false
      ∧ startedStreams st2 = startedStreams Scenario.cache_emptied.1
      ∧ dronesConfig st2 = dronesConfig Scenario.cache_emptied.1
      ∧ droneSNs st2 = droneSNs Scenario.cache_emptied.1
      ∧ cachedToken st2 = cachedToken Scenario.cache_emptied.1
      ∧ pending st2 = delete 1%nat (pending Scenario.cache_emptied.1).
Proof.
  apply (fallback_fetch_gives_up (take 5 Sample.until_lookup_failed)
           Scenario.cache_emptied.1 Scenario.cache_emptied.2 1%nat "BC001"
           "tokA").
  - vm_compute. reflexivity.
  - vm_compute. reflexivity.
Defined.

(** The registry is marked connected when the last lookup fails, and
    disconnected afterwards. *)
Example fallback_marks_disconnected :
  databaseConnected Scenario.cache_emptied.1 = true
  ∧ databaseConnected Sample.lookup_failed = false.
Proof. split; vm_compute; reflexivity. Qed.

(** ** Entries of the last-message map *)

Lemma map_get_elem (m : MapData) k t :
  map_get m k = Some t → Some (k, t) ∈ m.
Proof.
  induction m as [|slot m IH]; cbn [map_get]; [done|].
  destruct (key_is k slot) eqn:E.
  - destruct slot as [[k' t']|]; [|done]. cbn in *.
    apply bool_decide_eq_true_1 in E as ->. intros [= ->]. left.
  - intros H. right. by apply IH.
Qed.

Lemma map_get_None (m : MapData) k :
  map_get m k = None ↔ k ∉ live_keys m.
Proof.
  unfold live_keys. induction m as [|slot m IH]; cbn [map_get omap list_omap].
  - split; [intros _; apply not_elem_of_nil|done].
  - destruct slot as [[k' t']|]; cbn.
    + case_bool_decide as E.
      * subst. split; [done|]. intros H. exfalso. apply H. left.
      * rewrite IH. rewrite not_elem_of_cons. naive_solver.
    + exact IH.
Qed.

Lemma live_keys_delete (m : MapData) k k' :
  k' ∈ live_keys (map_delete m k) → k' ∈ live_keys m.
Proof.
  unfold live_keys. induction m as [|slot m IH]; cbn [map_delete]; [done|].
  destruct (key_is k slot) eqn:E.
  - destruct slot as [[k0 t0]|]; [|done]. cbn. intros H. by right.
  - destruct slot as [[k0 t0]|]; cbn; [|exact IH].
    intros [->|H]%elem_of_cons; [left|right; by apply IH].
Qed.

Lemma NoDup_live_keys_delete (m : MapData) k :
  NoDup (live_keys m) →
  NoDup (live_keys (map_delete m k)) ∧ k ∉ live_keys (map_delete m k).
Proof.
  unfold live_keys. induction m as [|slot m IH]; cbn [map_delete].
  - intros _. split; [constructor|apply not_elem_of_nil].
  - destruct (key_is k slot) eqn:E.
    + destruct slot as [[k0 t0]|]; [|done]. cbn in *.
      apply bool_decide_eq_true_1 in E as ->.
      rewrite NoDup_cons. naive_solver.
    + destruct slot as [[k0 t0]|]; cbn in *; [|exact IH].
      apply bool_decide_eq_false_1 in E.
      rewrite !NoDup_cons. intros [Hout Hnd].
      destruct (IH Hnd) as [IH1 IH2]. split.
      * split; [|done]. intros Hin. apply Hout.
        by apply (live_keys_delete m k).
      * rewrite not_elem_of_cons. naive_solver.
Qed.

Lemma live_keys_set (m : MapData) k v k' :
  k' ∈ live_keys (map_set m k v) ↔ k' = k ∨ k' ∈ live_keys m.
Proof.
  unfold live_keys. induction m as [|slot m IH]; cbn [map_set].
  - cbn. rewrite list_elem_of_singleton. rewrite elem_of_nil. naive_solver.
  - destruct (key_is k slot) eqn:E.
    + destruct slot as [[k0 t0]|]; [|done]. cbn in *.
      apply bool_decide_eq_true_1 in E as ->.
      rewrite !elem_of_cons. naive_solver.
    + destruct slot as [[k0 t0]|]; cbn in *; [|exact IH].
      rewrite !elem_of_cons, IH. naive_solver.
Qed.

Lemma NoDup_live_keys_set (m : MapData) k v :
  NoDup (live_keys m) → NoDup (live_keys (map_set m k v)).
Proof.
  induction m as [|slot m IH]; cbn [map_set].
  - intros _. apply NoDup_singleton.
  - destruct (key_is k slot) eqn:E.
    + destruct slot as [[k0 t0]|]; [|done]. cbn in *.
      by apply bool_decide_eq_true_1 in E as ->.
    + destruct slot as [[k0 t0]|]; [|exact IH]. unfold live_keys in *. cbn in *.
      apply bool_decide_eq_false_1 in E.
      rewrite !NoDup_cons. intros [Hout Hnd]. split; [|by apply IH].
      intros Hin. apply (live_keys_set m k v k0) in Hin as [->|Hin]; done.
Qed.

Lemma map_get_delete_eq (m : MapData) k :
  NoDup (live_keys m) → map_get (map_delete m k) k = None.
Proof.
  intros Hnd. apply map_get_None. by apply NoDup_live_keys_delete.
Qed.

Lemma map_get_delete_None (m : MapData) k k' :
  map_get m k = None → map_get (map_delete m k') k = None.
Proof.
  rewrite !map_get_None. intros Hout Hin. apply Hout.
  by apply (live_keys_delete m k').
Qed.

(** Emptying the entry of the key found at [pos] leaves what follows
    [pos] as it is. *)
Lemma drop_map_delete (m : MapData) pos k t :
  m !! pos = Some (Some (k, t)) →
  drop (S pos) (map_delete m k) = drop (S pos) m.
Proof.
  revert pos. induction m as [|slot m IH]; intros pos; [done|].
  cbn [map_delete]. destruct (key_is k slot) eqn:E; [done|].
  destruct pos as [|pos]; cbn.
  - intros [= ->]. cbn in E. by rewrite bool_decide_eq_true_2 in E.
  - apply IH.
Qed.

Lemma drop_cons_inv {A} (l : list A) pos x rest :
  drop pos l = x :: rest → l !! pos = Some x ∧ drop (S pos) l = rest.
Proof.
  intros H. assert (Hx : l !! pos = Some x).
  { rewrite <- (Nat.add_0_r pos), <- lookup_drop, H. done. }
  split; [done|]. rewrite (drop_S _ _ _ Hx) in H. by injection H.
Qed.

(** ** The watchdog sweep *)

Lemma run_step_and_then st ev evs r :
  step st ev = Some r → run st (ev :: evs) = and_then r evs.
Proof. intros H. cbn [run]. rewrite H. by destruct r. Qed.

Lemma set_pending_id st : set_pending (pending st) st = st.
Proof. by destruct st. Qed.

(** Answering the stop reports one after the other carries the sweep to
    its end, and the outcome is that of [watchdog_sweep]. *)
Lemma watchdog_loop_settles id now status entries : ∀ pos st,
  pending st !! id = None →
  drop pos (droneLastMessageTime st) = entries →
  ∃ n, and_then (watchdog_loop id now entries pos st)
                (patch_answers id status n)
       = Some (watchdog_sweep id now entries st).
Proof.
  induction entries as [|[[k t]|] rest IH]; intros pos st Hfree Hdrop;
    cbn [watchdog_loop watchdog_sweep].
  - exists 0%nat. unfold and_then, finish. cbn. reflexivity.
  - apply drop_cons_inv in Hdrop as [Hpos Hrest].
    destruct (inactive now t) eqn:Hin; [|by apply (IH (S pos))].
    assert (Hnext : ∀ st0, droneLastMessageTime st0 = droneLastMessageTime st →
              drop (S pos) (map_delete (droneLastMessageTime st0) k) = rest).
    { intros st0 ->. by rewrite (drop_map_delete _ _ _ t). }
    unfold report_silent. destruct k as [serial|].
    + case_bool_decide as Hs.
      * set (st_s := set_startedStreams (startedStreams st ∖ {[serial]}) st).
        set (st2 := set_droneLastMessageTime
                      (map_delete (droneLastMessageTime st_s) (Some serial)) st_s).
        destruct (IH (S pos) st2) as [n Hn]; [done|by apply Hnext|].
        exists (S n). unfold updateDroneStreamStatus, await, and_then.
        cbn [fst snd patch_answers replicate].
        rewrite (run_step_and_then _ _ _ (watchdog_loop id now rest (S pos) st2)).
        -- fold (patch_answers id status n). rewrite Hn.
           destruct (watchdog_sweep id now rest st2) as [st' effs']. reflexivity.
        -- rewrite step_resume_inserted. cbn [resume]. f_equal.
           rewrite (delete_id (pending st_s)) by done.
           rewrite set_pending_id. fold st2.
           replace (drop (S pos) (droneLastMessageTime st2)) with rest; [done|].
           symmetry. by apply (Hnext st_s).
      * set (st2 := set_droneLastMessageTime
                      (map_delete (droneLastMessageTime st) (Some serial)) st).
        destruct (IH (S pos) st2) as [n Hn]; [done|by apply Hnext|].
        exists n. rewrite Hn.
        by destruct (watchdog_sweep id now rest st2) as [st' effs'].
    + set (st2 := set_droneLastMessageTime
                    (map_delete (droneLastMessageTime st) None) st).
      destruct (IH (S pos) st2) as [n Hn]; [done|by apply Hnext|].
      exists n. rewrite Hn.
      by destruct (watchdog_sweep id now rest st2) as [st' effs'].
  - apply drop_cons_inv in Hdrop as [Hpos Hrest]. by apply (IH (S pos)).
Qed.

Lemma stop_reports_app serial effs effs' :
  stop_reports serial (effs ++ effs')
  = (stop_reports serial effs + stop_reports serial effs')%nat.
Proof.
  unfold stop_reports. by rewrite requests_app, List.filter_app, length_app.
Qed.

Section Sweep.
Variables (id : nat) (now : Z) (serial : string).

Lemma report_silent_frame k st :
  let st' := (report_silent id k st).1 in
  pending st' = pending st ∧ nextId st' = nextId st
  ∧ droneLastMessageTime st' = droneLastMessageTime st
  ∧ startedStreams st' ⊆ startedStreams st.
Proof.
  unfold report_silent. destruct k as [s|]; [|done].
  case_bool_decide; cbn; [|done]. repeat split; set_solver.
Qed.

Lemma report_silent_idle k st :
  serial ∉ startedStreams st →
  stop_reports serial (report_silent id k st).2 = 0%nat.
Proof.
  intros Hout. unfold report_silent. destruct k as [s|]; [|done].
  case_bool_decide as Hs; [|done]. cbn.
  rewrite bool_decide_eq_false_2; [done|]. by intros ->.
Qed.

Lemma report_silent_started st :
  serial ∈ startedStreams st →
  stop_reports serial (report_silent id (Some serial) st).2 = 1%nat
  ∧ serial ∉ startedStreams (report_silent id (Some serial) st).1.
Proof.
  intros Hin. unfold report_silent. rewrite bool_decide_eq_true_2 by done.
  cbn. rewrite bool_decide_eq_true_2 by done. split; [done|set_solver].
Qed.

Lemma watchdog_sweep_frame entries : ∀ st,
  let st' := (watchdog_sweep id now entries st).1 in
  pending st' = pending st ∧ nextId st' = nextId st
  ∧ startedStreams st' ⊆ startedStreams st.
Proof.
  induction entries as [|[[k t]|] rest IH]; intros st;
    cbn [watchdog_sweep]; [done| |apply IH].
  destruct (inactive now t); [|apply IH].
  pose proof (report_silent_frame k st) as (Hp & Hn & _ & Hs).
  destruct (report_silent id k st) as [st1 reported]. cbn [fst snd] in Hp, Hn, Hs.
  set (st2 := set_droneLastMessageTime _ st1).
  specialize (IH st2).
  destruct (watchdog_sweep id now rest st2) as [st' effs]. cbn [fst snd] in *.
  destruct IH as (-> & -> & Hs'). repeat split; [done|done|set_solver].
Qed.

Lemma watchdog_sweep_returns entries : ∀ st,
  Return id None ∈ (watchdog_sweep id now entries st).2.
Proof.
  induction entries as [|[[k t]|] rest IH]; intros st;
    cbn [watchdog_sweep]; [left| |apply IH].
  destruct (inactive now t); [|apply IH].
  destruct (report_silent id k st) as [st1 reported].
  set (st2 := set_droneLastMessageTime _ st1). specialize (IH st2).
  destruct (watchdog_sweep id now rest st2) as [st' effs]. cbn [fst snd] in *.
  apply elem_of_app. by right.
Qed.

(** A device that is not marked started is not reported. *)
Lemma watchdog_sweep_idle entries : ∀ st,
  serial ∉ startedStreams st →
  stop_reports serial (watchdog_sweep id now entries st).2 = 0%nat.
Proof.
  induction entries as [|[[k t]|] rest IH]; intros st Hout;
    cbn [watchdog_sweep]; [done| |by apply IH].
  destruct (inactive now t); [|by apply IH].
  pose proof (report_silent_frame k st) as (_ & _ & _ & Hs).
  pose proof (report_silent_idle k st Hout) as H0.
  destruct (report_silent id k st) as [st1 reported]. cbn [fst snd] in Hs, H0.
  set (st2 := set_droneLastMessageTime _ st1).
  specialize (IH st2 ltac:(cbn; set_solver)).
  destruct (watchdog_sweep id now rest st2) as [st' effs]. cbn [fst snd] in *.
  rewrite stop_reports_app. lia.
Qed.

(** A silent device that is marked started is reported once. *)
Lemma watchdog_sweep_once entries : ∀ st t,
  serial ∈ startedStreams st →
  Some (Some serial, t) ∈ entries → inactive now t = true →
  stop_reports serial (watchdog_sweep id now entries st).2 = 1%nat
  ∧ serial ∉ startedStreams (watchdog_sweep id now entries st).1.
Proof.
  induction entries as [|[[k t0]|] rest IH]; intros st t Hin Hentry Hsilent;
    cbn [watchdog_sweep].
  - by apply elem_of_nil in Hentry.
  - destruct (inactive now t0) eqn:Hs0.
    + destruct (decide (k = Some serial)) as [->|Hne].
      * pose proof (report_silent_started st Hin) as [H1 Hgone].
        destruct (report_silent id (Some serial) st) as [st1 reported].
        cbn [fst snd] in H1, Hgone.
        set (st2 := set_droneLastMessageTime _ st1).
        pose proof (watchdog_sweep_idle rest st2 Hgone) as H0.
        pose proof (watchdog_sweep_frame rest st2) as (_ & _ & Hsub).
        destruct (watchdog_sweep id now rest st2) as [st' effs]. cbn [fst snd] in *.
        rewrite stop_reports_app. split; [lia|set_solver].
      * apply elem_of_cons in Hentry as [Heq|Hentry]; [congruence|].
        assert (Hkeep : serial ∈ startedStreams (report_silent id k st).1).
        { unfold report_silent. destruct k as [s|]; [|done].
          case_bool_decide; [|done]. cbn. set_solver. }
        assert (Hnone : stop_reports serial (report_silent id k st).2 = 0%nat).
        { unfold report_silent. destruct k as [s|]; [|done].
          case_bool_decide; [|done]. cbn.
          rewrite bool_decide_eq_false_2; [done|]. congruence. }
        destruct (report_silent id k st) as [st1 reported]. cbn [fst snd] in Hkeep, Hnone.
        set (st2 := set_droneLastMessageTime _ st1).
        specialize (IH st2 t Hkeep Hentry Hsilent).
        destruct (watchdog_sweep id now rest st2) as [st' effs]. cbn [fst snd] in *.
        rewrite stop_reports_app. destruct IH. split; [lia|done].
    + apply elem_of_cons in Hentry as [Heq|Hentry]; [congruence|].
      by apply (IH st t).
  - apply elem_of_cons in Hentry as [Heq|Hentry]; [done|].
    by apply (IH st t).
Qed.
(** Entries are only ever emptied. *)
Lemma watchdog_sweep_keeps_gone entries : ∀ st,
  map_get (droneLastMessageTime st) (Some serial) = None →
  map_get (droneLastMessageTime (watchdog_sweep id now entries st).1)
          (Some serial) = None.
Proof.
  induction entries as [|[[k t]|] rest IH]; intros st Hgone;
    cbn [watchdog_sweep]; [done| |by apply IH].
  destruct (inactive now t); [|by apply IH].
  pose proof (report_silent_frame k st) as (_ & _ & Hm & _).
  destruct (report_silent id k st) as [st1 reported]. cbn [fst snd] in Hm.
  set (st2 := set_droneLastMessageTime _ st1).
  specialize (IH st2). cbn [droneLastMessageTime st2
    set_droneLastMessageTime] in IH. rewrite Hm in IH.
  specialize (IH (map_get_delete_None _ _ k Hgone)).
  by destruct (watchdog_sweep id now rest st2) as [st' effs].
Qed.

Lemma watchdog_sweep_unique entries : ∀ st,
  keys_unique st → keys_unique (watchdog_sweep id now entries st).1.
Proof.
  induction entries as [|[[k t]|] rest IH]; intros st Hnd;
    cbn [watchdog_sweep]; [done| |by apply IH].
  destruct (inactive now t); [|by apply IH].
  pose proof (report_silent_frame k st) as (_ & _ & Hm & _).
  destruct (report_silent id k st) as [st1 reported]. cbn [fst snd] in Hm.
  set (st2 := set_droneLastMessageTime _ st1).
  specialize (IH st2). unfold keys_unique in IH at 1.
  cbn [droneLastMessageTime st2 set_droneLastMessageTime] in IH.
  rewrite Hm in IH.
  specialize (IH (proj1 (NoDup_live_keys_delete _ k Hnd))).
  by destruct (watchdog_sweep id now rest st2) as [st' effs].
Qed.

(** The entry of a silent device is emptied. *)
Lemma watchdog_sweep_drops entries : ∀ st t,
  keys_unique st →
  Some (Some serial, t) ∈ entries → inactive now t = true →
  map_get (droneLastMessageTime (watchdog_sweep id now entries st).1)
          (Some serial) = None.
Proof.
  induction entries as [|[[k t0]|] rest IH]; intros st t Hnd Hentry Hsilent;
    cbn [watchdog_sweep].
  - by apply elem_of_nil in Hentry.
  - destruct (inactive now t0) eqn:Hs0.
    + pose proof (report_silent_frame k st) as (_ & _ & Hm & _).
      destruct (report_silent id k st) as [st1 reported]. cbn [fst snd] in Hm.
      set (st2 := set_droneLastMessageTime _ st1).
      assert (Hnd2 : keys_unique st2).
      { unfold keys_unique. cbn [droneLastMessageTime st2
          set_droneLastMessageTime]. rewrite Hm.
        by apply NoDup_live_keys_delete. }
      destruct (decide (k = Some serial)) as [->|Hne].
      * pose proof (watchdog_sweep_keeps_gone rest st2) as Hkeep.
        cbn [droneLastMessageTime st2 set_droneLastMessageTime] in Hkeep.
        rewrite Hm in Hkeep. specialize (Hkeep (map_get_delete_eq _ _ Hnd)).
        by destruct (watchdog_sweep id now rest st2) as [st' effs].
      * apply elem_of_cons in Hentry as [Heq|Hentry]; [congruence|].
        specialize (IH st2 t Hnd2 Hentry Hsilent).
        by destruct (watchdog_sweep id now rest st2) as [st' effs].
    + apply elem_of_cons in Hentry as [Heq|Hentry]; [congruence|].
      by apply (IH st t).
  - apply elem_of_cons in Hentry as [Heq|Hentry]; [done|].
    by apply (IH st t).
Qed.
End Sweep.

(** In every state the server reaches, the map holds each key once. *)
Lemma watchdog_loop_unique id now entries : ∀ pos st st' effs,
  watchdog_loop id now entries pos st = (st', effs) →
  keys_unique st → keys_unique st'.
Proof.
  induction entries as [|[[k t]|] entries IH]; intros pos st st' effs;
    cbn [watchdog_loop].
  - unfold finish. by intros [= <- <-].
  - destruct (inactive now t); [|apply IH].
    assert (Hdel : keys_unique st →
              keys_unique (set_droneLastMessageTime
                             (map_delete (droneLastMessageTime st) k) st)).
    { unfold keys_unique. cbn. intros Hnd. by apply NoDup_live_keys_delete. }
    destruct k as [serial|].
    + case_bool_decide as Hin.
      * unfold updateDroneStreamStatus, await. by intros [= <- <-].
      * intros H Hnd. eapply IH; [exact H|by apply Hdel].
    + intros H Hnd. eapply IH; [exact H|by apply Hdel].
  - apply IH.
Qed.

Lemma keys_unique_step st ev st' effs :
  keys_unique st → step st ev = Some (st', effs) → keys_unique st'.
Proof.
  intros Hnd Hstep.
  destruct ev as [|topic message now|now| |id r random]; cbn [step] in Hstep.
  - unfold loadDronesFromAPI, await in Hstep. by injection Hstep as <- <-.
  - unfold on_message in Hstep.
    destruct message as [droneData|]; [|by injection Hstep as <- <-].
    assert (Hset : keys_unique (set_droneLastMessageTime
                     (map_set (droneLastMessageTime st) (topic_sn topic) now) st)).
    { unfold keys_unique. cbn. by apply NoDup_live_keys_set. }
    unfold startStream, startStream_with_token, startStream_with_drone,
      updateDroneStreamStatus, await, finish, fresh in Hstep.
    repeat case_match; simplify_eq; exact Hset.
  - unfold watchdog_tick, fresh in Hstep. injection Hstep as H.
    eapply watchdog_loop_unique; [exact H|exact Hnd].
  - unfold supervisor_tick, loadDronesFromAPI, await, fresh in Hstep.
    repeat case_match; simplify_eq; exact Hnd.
  - destruct (pending st !! id) as [t|] eqn:Hlook; [|discriminate].
    destruct t; destruct r; cbn [resume] in Hstep; try discriminate;
      try (unfold getAcessToken_resume, loadDronesFromAPI_resume, loadDronesFromAPI,
             startStream_with_token, startStream_with_drone, updateDroneStreamStatus, await, finish
             in Hstep;
           repeat case_match; simplify_eq; exact Hnd).
    injection Hstep as H. eapply watchdog_loop_unique; [exact H|].
    unfold keys_unique. cbn. by apply NoDup_live_keys_delete.
Qed.

Lemma keys_unique_reachable st : reachable st → keys_unique st.
Proof.
  apply reachable_invariant.
  - unfold keys_unique. cbn. constructor.
  - intros. by eapply keys_unique_step.
Qed.

(** A stop report is sent only for a device that is marked started. *)
Lemma step_stop_report_started st ev st' effs serial :
  step st ev = Some (st', effs) →
  serial ∉ startedStreams st → stop_reports serial effs = 0%nat.
Proof.
  intros Hstep Hout.
  assert (Hother : ∀ id s, s ∈ startedStreams st →
            stop_reports serial [Call id (PatchDrone s false "")] = 0%nat).
  { intros id s Hs. unfold stop_reports. cbn.
    rewrite bool_decide_eq_false_2; [done|]. by intros ->. }
  destruct ev as [|topic message now|now| |id r random]; cbn [step] in Hstep.
  - unfold loadDronesFromAPI, await in Hstep. by injection Hstep as <- <-.
  - unfold on_message, startStream, startStream_with_token,
      startStream_with_drone, updateDroneStreamStatus, await, finish, fresh in Hstep. fields.
    repeat case_match; simplify_eq; try done.
    match goal with H : bool_decide _ = true |- _ =>
      apply bool_decide_eq_true_1 in H end.
    unfold stop_reports. cbn.
    rewrite bool_decide_eq_false_2; [done|]. by intros ->.
  - unfold watchdog_tick, fresh in Hstep. injection Hstep as H.
    apply watchdog_loop_footprint in H.
    destruct H as (_&_&_&_&_&_&_&[(_&_&->)|(s&pos'&_&Hs&_&->)]);
      [done|by apply Hother].
  - unfold supervisor_tick, loadDronesFromAPI, await, fresh in Hstep.
    repeat case_match; simplify_eq; done.
  - destruct (pending st !! id) as [t|] eqn:Hlook; [|discriminate].
    destruct t; destruct r; cbn [resume] in Hstep; try discriminate;
      try (unfold getAcessToken_resume, loadDronesFromAPI_resume, loadDronesFromAPI,
             startStream_with_token, startStream_with_drone, updateDroneStreamStatus, await, finish
             in Hstep;
           repeat case_match; simplify_eq; done).
    + unfold loadDronesFromAPI_resume, updateDroneStreamStatus, await, finish in Hstep.
      destruct drones as [drones|].
      * injection Hstep as <- <-. unfold stop_reports.
        change (requests (Return id (Some true) :: ?l)) with (requests l).
        by rewrite requests_subscribeToAllDrones.
      * repeat case_match; simplify_eq; done.
    + injection Hstep as H. apply watchdog_loop_footprint in H.
      destruct H as (_&_&_&_&_&_&_&[(_&_&->)|(s&pos'&_&Hs&_&->)]);
        [done|by apply Hother].
Qed.

(** A decoded message records the time at which it came. *)
Lemma on_message_seen topic droneData now st :
  map_get (droneLastMessageTime (on_message topic (Some droneData) now st).1)
          (topic_sn topic) = Some now.
Proof.
  unfold on_message, startStream, startStream_with_token,
    startStream_with_drone, updateDroneStreamStatus, await, finish, fresh.
  repeat case_match; simplify_eq; cbn; apply map_get_set_eq.
Qed.

Lemma Sample_unwatched_run :
  run initial_state Sample.until_unwatched
  = Some (Sample.unwatched, Sample.unwatched_effects).
Proof. vm_compute. reflexivity. Qed.

(** C7, as stated, fails: BC001 was last heard at 1000 and is marked
    started only after the sweep of 30000 has dropped its entry; the
    watchdog iterates over the entries, so no later sweep, here the one
    of 100000, reports the silent stream. *)
Lemma silent_stream_unwatched : ¬ silent_stream_is_reported.
Proof.
  intros H.
  destruct (H Sample.until_unwatched Sample.unwatched Sample.unwatched_effects
              "BC001" 1000%Z 100000%Z Sample_unwatched_run)
    as (n & status & st' & effs' & Hrun & Hone).
  - apply (bool_decide_unpack _). vm_compute. exact I.
  - unfold Sample.until_unwatched, heard_by.
    repeat constructor. intros _. lia.
  - unfold INACTIVITY_TIMEOUT_MS. lia.
  - destruct n as [|n].
    + vm_compute in Hrun. injection Hrun as <- <-.
      vm_compute in Hone. discriminate Hone.
    + vm_compute in Hrun. discriminate Hrun.
Qed.

(** C7, the code at the failing input: BC001 reports its camera at
    1000 and falls silent; the sweep of 30000 finds it silent and not
    yet started, and drops its entry; then the gateway answers and
    BC001 is marked started.  It streams, it has been silent for longer
    than the timeout, and it has no entry: whenever the watchdog ticks
    from then on, the sweep visits nothing, sends no stop report and
    returns; no stop report has been sent before either. *)
Theorem silent_started_device_unwatched :
  run initial_state Sample.until_unwatched
  = Some (Sample.unwatched, Sample.unwatched_effects)
  ∧ "BC001" ∈ startedStreams Sample.unwatched
  ∧ map_get (droneLastMessageTime Sample.unwatched) (Some "BC001") = None
  ∧ stop_reports "BC001" Sample.unwatched_effects = 0%nat
  ∧ ∀ now,
      watchdog_tick now Sample.unwatched
      = ((fresh Sample.unwatched).2, [Return (nextId Sample.unwatched) None]).
Proof.
  split; [vm_compute; reflexivity|].
  split; [apply (bool_decide_unpack _); vm_compute; exact I|].
  split; [vm_compute; reflexivity|].
  split; [vm_compute; reflexivity|].
  intros now. vm_compute. reflexivity.
Qed.

(** X19: when the watchdog ticks and the stop reports of its sweep are
    answered one after the other, with no other callback in between,
    the sweep is the loop of lines 134-147 run in one go; for a device
    that is marked started and whose entry is older than the timeout it
    sends exactly one stop report, unmarks the device and drops its
    entry, and it returns. *)
Theorem uninterrupted_sweep_reports_once st serial lastMessageTime now status :
  reachable st →
  serial ∈ startedStreams st →
  map_get (droneLastMessageTime st) (Some serial) = Some lastMessageTime →
  inactive now lastMessageTime = true →
  ∃ n st' effs,
    run st (WatchdogTick now :: patch_answers (nextId st) status n)
      = Some (st', effs)
    ∧ (st', effs)
      = watchdog_sweep (nextId st) now (droneLastMessageTime st) (fresh st).2
    ∧ Return (nextId st) None ∈ effs
    ∧ stop_reports serial effs = 1%nat
    ∧ (serial ∉ startedStreams st')
    ∧ map_get (droneLastMessageTime st') (Some serial) = None.
Proof.
  intros Hreach Hin Hget Hsilent.
  pose proof (ids_allocated_reachable _ Hreach) as Hids.
  pose proof (keys_unique_reachable _ Hreach) as Hnd.
  pose proof (map_get_elem _ _ _ Hget) as Hentry.
  set (id := nextId st). set (st0 := (fresh st).2).
  assert (Hfree : pending st0 !! id = None).
  { destruct (pending st !! id) as [t|] eqn:E; [|done].
    apply Hids in E. unfold id in E. lia. }
  destruct (watchdog_loop_settles id now status (droneLastMessageTime st0)
              0%nat st0 Hfree eq_refl) as [n Hn].
  pose proof (watchdog_sweep_returns id now (droneLastMessageTime st0) st0) as Hret.
  pose proof (watchdog_sweep_once id now serial (droneLastMessageTime st0) st0
                lastMessageTime Hin Hentry Hsilent) as [Hone Hgone].
  pose proof (watchdog_sweep_drops id now serial (droneLastMessageTime st0) st0
                lastMessageTime Hnd Hentry Hsilent) as Hdrop.
  destruct (watchdog_sweep id now (droneLastMessageTime st0) st0)
    as [st' effs] eqn:Hsweep. cbn [fst snd] in *.
  exists n, st', effs.
  split. { rewrite (run_step_and_then _ _ _ (watchdog_tick now st)) by done.
           exact Hn. }
  done.
Qed.

Lemma uninterrupted_sweep_reports_once_witness :
  ∃ n st' effs,
    run Sample.streaming
        (WatchdogTick 40000 :: patch_answers (nextId Sample.streaming) (Some 200%Z) n)
      = Some (st', effs)
    ∧ (st', effs)
      = watchdog_sweep (nextId Sample.streaming) 40000
          (droneLastMessageTime Sample.streaming) (fresh Sample.streaming).2
    ∧ Return (nextId Sample.streaming) None ∈ effs
    ∧ stop_reports "BC001" effs = 1%nat
    ∧ ("BC001" ∉ startedStreams st')
    ∧ map_get (droneLastMessageTime st') (Some "BC001") = None.
Proof.
  apply (uninterrupted_sweep_reports_once Sample.streaming "BC001" 1000 40000
           (Some 200%Z)).
  - exists Sample.until_streaming. eexists. vm_compute. reflexivity.
  - apply (bool_decide_unpack _). vm_compute. exact I.
  - vm_compute. reflexivity.
  - vm_compute. reflexivity.
Defined.

(** * Further properties *)

(** ** Topics and subscriptions *)

Lemma append_cons (a : ascii) (s t : string) :
  String a s +:+ t = String a (s +:+ t).
Proof. reflexivity. Qed.

Lemma append_nil (t : string) : EmptyString +:+ t = t.
Proof. reflexivity. Qed.

Lemma append_snoc (cur : string) (c : ascii) (s : string) :
  (cur +:+ String c EmptyString) +:+ s = cur +:+ String c s.
Proof.
  induction cur as [|a cur IH]; [done|].
  rewrite !append_cons. by f_equal.
Qed.

Lemma append_empty_r (s : string) : s +:+ EmptyString = s.
Proof.
  induction s as [|a s IH]; [done|]. rewrite append_cons. by f_equal.
Qed.

Lemma split_slash_head (s : string) : ∀ cur,
  ∃ rest, split_slash cur s = (cur +:+ before_slash s) :: rest.
Proof.
  induction s as [|c s IH]; intros cur; cbn [split_slash before_slash].
  - exists []. by rewrite append_empty_r.
  - destruct (Ascii.eqb c "/").
    + eexists. by rewrite append_empty_r.
    + destruct (IH (cur +:+ String c EmptyString)) as [rest ->].
      exists rest. by rewrite append_snoc.
Qed.

Lemma before_slash_app (s t : string) :
  before_slash (s +:+ String "/" t) = before_slash s.
Proof.
  induction s as [|c s IH]; [done|].
  rewrite append_cons. cbn [before_slash].
  destruct (Ascii.eqb c "/"); [done|by rewrite IH].
Qed.

Lemma before_slash_id (s : string) :
  before_slash s = s ↔ has_slash s = false.
Proof.
  induction s as [|c s IH]; cbn [before_slash has_slash]; [done|].
  destruct (Ascii.eqb c "/"); cbn [orb]; [done|].
  rewrite <- IH. split; [by intros [= ->]|by intros ->].
Qed.

(** X1: the serial that the message handler reads off a subscribed
    topic is the subscribed serial up to its first slash; it is the
    subscribed serial itself exactly when that serial has no slash. *)
Theorem subscribed_topic_serial (sn : string) :
  topic_sn (subscription_topic sn) = Some (before_slash sn)
  ∧ (topic_sn (subscription_topic sn) = Some sn ↔ has_slash sn = false)
  ∧ ∀ st, subscribeToAllDrones st
          = (λ s, Subscribe (subscription_topic s)) <$> droneSNs st.
Proof.
  assert (H : topic_sn (subscription_topic sn) = Some (before_slash sn)).
  { unfold topic_sn, subscription_topic.
    rewrite !append_cons, append_nil. cbn [split_slash Ascii.eqb Bool.eqb].
    rewrite ?append_cons, ?append_nil.
    destruct (split_slash_head (sn +:+ "/osd") EmptyString) as [rest ->].
    cbn [lookup list_lookup]. by rewrite append_nil, before_slash_app. }
  split; [done|]. split; [|done].
  rewrite H, <- before_slash_id. split; [by intros [= ->]|by intros ->].
Qed.

(** X2: a callback subscribes only when it is the successful answer to
    a registry load, and then to the topics of exactly the devices of
    that answer, in the answer's order; no other callback subscribes, so
    a device that only the fallback lookup cached is not subscribed. *)
Theorem subscriptions_follow_load st ev st' effs topic :
  step st ev = Some (st', effs) → Subscribe topic ∈ effs →
  ∃ id attempt drones random,
    ev = Resume id (Resp_drones (Some drones)) random
    ∧ pending st !! id = Some (Load_get attempt)
    ∧ effs = Return id (Some true)
             :: ((λ s, Subscribe (subscription_topic s))
                   <$> (Db.deviceSerialNumber <$> drones)).
Proof.
  intros Hstep Hin.
  assert (Hno : ∀ effs0 : list Effect,
            Forall (λ e, match e with Subscribe _ => False | _ => True end) effs0 →
            Subscribe topic ∈ effs0 → False).
  { intros effs0 Hall Hin0. rewrite Forall_forall in Hall.
    by apply Hall in Hin0. }
  destruct ev as [|tp message now|now| |id r random]; cbn [step] in Hstep.
  - unfold loadDronesFromAPI, await in Hstep. injection Hstep as <- <-.
    exfalso; revert Hin; apply Hno; repeat constructor.
  - unfold on_message, startStream, startStream_with_token,
      startStream_with_drone, updateDroneStreamStatus, await, finish, fresh
      in Hstep.
    repeat case_match; simplify_eq;
      exfalso; revert Hin; apply Hno; repeat constructor.
  - unfold watchdog_tick, fresh in Hstep. injection Hstep as H.
    apply watchdog_loop_footprint in H.
    destruct H as (_&_&_&_&_&_&_&[(_&_&->)|(s&pos'&_&_&_&->)]);
      exfalso; revert Hin; apply Hno; repeat constructor.
  - unfold supervisor_tick, loadDronesFromAPI, await, fresh in Hstep.
    repeat case_match; simplify_eq;
      exfalso; revert Hin; apply Hno; repeat constructor.
  - destruct (pending st !! id) as [t|] eqn:Hlook; [|discriminate].
    destruct t; destruct r; cbn [resume] in Hstep; try discriminate;
      try (unfold getAcessToken_resume, startStream_with_token,
             startStream_with_drone, updateDroneStreamStatus, loadDronesFromAPI,
             await, finish in Hstep;
           repeat case_match; simplify_eq;
           solve [exfalso; revert Hin; apply Hno; repeat constructor]).
    + unfold loadDronesFromAPI_resume, await, finish in Hstep.
      destruct drones as [drones|].
      * injection Hstep as <- <-. exists id, attempt, drones, random.
        split; [done|]. split; [done|]. f_equal.
        unfold subscribeToAllDrones. cbn [droneSNs set_drones
          set_databaseConnected set_retryCount].
        rewrite <- !list_fmap_compose. by apply list_fmap_ext.
      * repeat case_match; simplify_eq;
          exfalso; revert Hin; apply Hno; repeat constructor.
    + injection Hstep as H. apply watchdog_loop_footprint in H.
      destruct H as (_&_&_&_&_&_&_&[(_&_&->)|(s&pos'&_&_&_&->)]);
        exfalso; revert Hin; apply Hno; repeat constructor.
Qed.

Lemma subscriptions_follow_load_witness :
  ∃ id attempt drones random,
    Resume 0 (Resp_drones (Some [Sample.bc001; Sample.bare])) 0
    = Resume id (Resp_drones (Some drones)) random
    ∧ pending (loadDronesFromAPI 0 0 (fresh initial_state).2).1 !! id
      = Some (Load_get attempt)
    ∧ (Sample.loaded,
       [Return 0%nat (Some true); Subscribe "thing/product/BC001/osd";
        Subscribe "thing/product/BC002/osd"]).2
      = Return id (Some true)
        :: ((λ s, Subscribe (subscription_topic s))
              <$> (Db.deviceSerialNumber <$> drones)).
Proof.
  apply (subscriptions_follow_load
           (loadDronesFromAPI 0 0 (fresh initial_state).2).1
           (Resume 0 (Resp_drones (Some [Sample.bc001; Sample.bare])) 0)
           Sample.loaded _ "thing/product/BC002/osd").
  - vm_compute. reflexivity.
  - repeat constructor.
Defined.

(** ** The cache after a load and after a fallback lookup *)

Lemma find_fmap {A B} (f : B → bool) (g : A → B) (l : list A) :
  List.find f (g <$> l) = g <$> List.find (λ a, f (g a)) l.
Proof.
  induction l as [|a l IH]; [done|]. cbn [fmap list_fmap List.find].
  destruct (f (g a)); [done|]. exact IH.
Qed.

Lemma find_app {A} (f : A → bool) (l k : list A) :
  List.find f (l ++ k)
  = match List.find f l with Some a => Some a | None => List.find f k end.
Proof.
  induction l as [|a l IH]; [done|]. cbn [app List.find].
  destruct (f a); [done|]. exact IH.
Qed.

Lemma first_camera_truthy cameras cam :
  first_camera cameras = Some cam → truthy_string cam = true.
Proof.
  destruct cameras as [|c ?]; [done|]. cbn [first_camera].
  destruct (truthy_string c) eqn:E; [|done]. by intros [= <-].
Qed.

(** X3: after a load has succeeded, the cache answers from that registry
    answer alone: a serial is looked up in the first record of the
    answer that carries it, its first camera is the first entry of that
    record's camera list, and the lookup is null for a record without a
    camera list, with an empty one, or whose first camera is the empty
    string, for a serial the answer does not have, and for [undefined]. *)
Theorem loaded_device_lookup st id attempt drones random st' effs :
  pending st !! id = Some (Load_get attempt) →
  step st (Resume id (Resp_drones (Some drones)) random) = Some (st', effs) →
  getDroneFirstCamera st' None = None
  ∧ ∀ serial,
      find_drone (dronesConfig st') (Some serial)
      = to_config <$> find_record drones serial
      ∧ getDroneFirstCamera st' (Some serial)
        = find_record drones serial
            ≫= (λ d, first_camera (default [] (Db.cameras d)))
      ∧ (∀ cam, getDroneFirstCamera st' (Some serial) = Some cam →
                truthy_string cam = true).
Proof.
  intros Hlook Hstep. cbn [step] in Hstep. rewrite Hlook in Hstep.
  cbn [resume] in Hstep. apply (inj Some) in Hstep.
  apply loadDronesFromAPI_resume_loaded in Hstep.
  destruct Hstep as (Hcfg & _).
  split; [done|]. intros serial.
  assert (Hfind : find_drone (dronesConfig st') (Some serial)
                  = to_config <$> find_record drones serial).
  { rewrite Hcfg. unfold find_drone, find_record. by rewrite find_fmap. }
  split; [done|].
  unfold getDroneFirstCamera. rewrite Hfind. split.
  - by destruct (find_record drones serial).
  - intros cam. destruct (find_record drones serial) as [d|]; [|done].
    cbn. apply first_camera_truthy.
Qed.

Lemma loaded_device_lookup_witness :
  getDroneFirstCamera Sample.loaded None = None
  ∧ ∀ serial,
      find_drone (dronesConfig Sample.loaded) (Some serial)
      = to_config <$> find_record [Sample.bc001; Sample.bare] serial
      ∧ getDroneFirstCamera Sample.loaded (Some serial)
        = find_record [Sample.bc001; Sample.bare] serial
            ≫= (λ d, first_camera (default [] (Db.cameras d)))
      ∧ (∀ cam, getDroneFirstCamera Sample.loaded (Some serial) = Some cam →
                truthy_string cam = true).
Proof.
  apply (loaded_device_lookup Scenario.connecting 0 0
           [Sample.bc001; Sample.bare] 0 Sample.loaded
           [Return 0%nat (Some true); Subscribe "thing/product/BC001/osd";
            Subscribe "thing/product/BC002/osd"]).
  - vm_compute. reflexivity.
  - vm_compute. reflexivity.
Defined.

(** X4: when a fallback lookup is answered with a record, the record is
    appended to the cache and records cached before it keep precedence
    in lookups; the serial that was asked for is in the serial list
    afterwards, added at the end if it was missing; the registry is not
    marked connected and nothing is marked started; and the attempt goes
    on with the fetched record: it asks the gateway for the first camera
    of that record under the serial that was asked for, or returns when
    the record has no camera. *)
Theorem fallback_caches_record st id droneSN token fetchAttempts dbDrone random st' effs :
  pending st !! id = Some (StartStream_fetch droneSN token fetchAttempts) →
  step st (Resume id (Resp_drone (Some dbDrone)) random) = Some (st', effs) →
  dronesConfig st' = dronesConfig st ++ [to_config dbDrone]
  ∧ (∀ serial,
       find_drone (dronesConfig st') (Some serial)
       = match find_drone (dronesConfig st) (Some serial) with
         | Some drone => Some drone
         | None => if String.eqb (Db.deviceSerialNumber dbDrone) serial
                   then Some (to_config dbDrone) else None
         end)
  ∧ droneSN ∈ droneSNs st'
  ∧ (droneSN ∈ droneSNs st → droneSNs st' = droneSNs st)
  ∧ (droneSN ∉ droneSNs st → droneSNs st' = droneSNs st ++ [droneSN])
  ∧ databaseConnected st' = databaseConnected st
  ∧ startedStreams st' = startedStreams st
  ∧ effs = match first_camera (default [] (Db.cameras dbDrone)) with
           | Some cameraId =>
               [Call id (PostStreamStart
                           ("userName=" +:+ userName (to_config dbDrone)
                            +:+ "&password=" +:+ password (to_config dbDrone)
                            +:+ "&port=" +:+ port (to_config dbDrone))
                           (droneSN +:+ "/" +:+ cameraId +:+ "/thermal-0")
                           token)]
           | None => [Return id None]
           end.
Proof.
  intros Hlook Hstep. cbn [step] in Hstep. rewrite Hlook in Hstep.
  cbn [resume] in Hstep. apply (inj Some) in Hstep.
  unfold startStream_with_drone, await, finish in Hstep.
  change (cameras (to_config dbDrone)) with (default [] (Db.cameras dbDrone)) in Hstep.
  assert (Hcfg : dronesConfig st' = dronesConfig st ++ [to_config dbDrone]).
  { destruct (first_camera _); by injection Hstep as <- <-. }
  split; [done|]. split.
  { intros serial. rewrite Hcfg. unfold find_drone. rewrite find_app.
    destruct (List.find _ (dronesConfig st)); [done|]. cbn [List.find].
    change (sn (to_config dbDrone)) with (Db.deviceSerialNumber dbDrone).
    by destruct (String.eqb _ serial). }
  assert (Hsns : droneSNs st'
                 = if bool_decide (droneSN ∈ droneSNs st)
                   then droneSNs st else droneSNs st ++ [droneSN]).
  { destruct (first_camera _); by injection Hstep as <- <-. }
  rewrite Hsns. case_bool_decide as Hin.
  - split; [done|]. split; [done|]. split; [done|].
    destruct (first_camera _); injection Hstep as <- <-; done.
  - split; [set_solver|]. split; [done|]. split; [done|].
    destruct (first_camera _); injection Hstep as <- <-; done.
Qed.

Lemma fallback_caches_record_witness :
  dronesConfig Scenario.looked_up.1
  = dronesConfig Scenario.looking_up ++ [to_config Sample.bc001]
  ∧ (∀ serial,
       find_drone (dronesConfig Scenario.looked_up.1) (Some serial)
       = match find_drone (dronesConfig Scenario.looking_up) (Some serial) with
         | Some drone => Some drone
         | None => if String.eqb (Db.deviceSerialNumber Sample.bc001) serial
                   then Some (to_config Sample.bc001) else None
         end)
  ∧ "BC001" ∈ droneSNs Scenario.looked_up.1
  ∧ ("BC001" ∈ droneSNs Scenario.looking_up →
     droneSNs Scenario.looked_up.1 = droneSNs Scenario.looking_up)
  ∧ ("BC001" ∉ droneSNs Scenario.looking_up →
     droneSNs Scenario.looked_up.1 = droneSNs Scenario.looking_up ++ ["BC001"])
  ∧ databaseConnected Scenario.looked_up.1
    = databaseConnected Scenario.looking_up
  ∧ startedStreams Scenario.looked_up.1 = startedStreams Scenario.looking_up
  ∧ Scenario.looked_up.2
    = match first_camera (default [] (Db.cameras Sample.bc001)) with
      | Some cameraId =>
          [Call 1%nat
             (PostStreamStart
                ("userName=" +:+ userName (to_config Sample.bc001)
                 +:+ "&password=" +:+ password (to_config Sample.bc001)
                 +:+ "&port=" +:+ port (to_config Sample.bc001))
                ("BC001" +:+ "/" +:+ cameraId +:+ "/thermal-0")
                "tokA")]
      | None => [Return 1%nat None]
      end.
Proof.
  apply (fallback_caches_record Scenario.looking_up 1 "BC001" "tokA" 0
           Sample.bc001 0 Scenario.looked_up.1 Scenario.looked_up.2).
  - vm_compute. reflexivity.
  - vm_compute. reflexivity.
Defined.

(** ** Telemetry, message by message *)

Lemma map_get_delete_ne (m : MapData) k k' :
  k ≠ k' → map_get (map_delete m k) k' = map_get m k'.
Proof.
  intros Hne. induction m as [|slot m IH]; [done|]. cbn [map_delete map_get].
  destruct (key_is k slot) eqn:E.
  - destruct slot as [[k0 t0]|]; [|done]. cbn in E.
    apply bool_decide_eq_true_1 in E as ->. cbn [map_get key_is].
    by rewrite bool_decide_eq_false_2.
  - cbn [map_get]. by rewrite IH.
Qed.

(** X5: every message that decodes is recorded and broadcast, whatever
    it says: the last-message time of the serial read off the topic
    becomes the time of arrival, the times of the other devices stay as
    they are, and the payload is broadcast once, before anything else
    the callback sends.  A message that does not decode changes nothing
    and sends nothing. *)
Theorem message_recorded_and_broadcast st topic droneData now st' effs :
  on_message topic (Some droneData) now st = (st', effs) →
  map_get (droneLastMessageTime st') (topic_sn topic) = Some now
  ∧ (∀ droneSN, droneSN ≠ topic_sn topic →
       map_get (droneLastMessageTime st') droneSN
       = map_get (droneLastMessageTime st) droneSN)
  ∧ (∃ rest, effs = IoEmit droneData (topic_sn topic) :: rest
             ∧ Forall (λ e, is_emit e = false) rest)
  ∧ on_message topic None now st = (st, []).
Proof.
  intros Hmsg. split; [|split; [|split; [|done]]].
  - pose proof (on_message_seen topic droneData now st) as H.
    by rewrite Hmsg in H.
  - intros k Hk.
    unfold on_message, startStream, startStream_with_token,
      startStream_with_drone, updateDroneStreamStatus, await, finish, fresh
      in Hmsg.
    repeat case_match; simplify_eq; fields; by apply map_get_set_ne.
  - unfold on_message, startStream, startStream_with_token,
      startStream_with_drone, updateDroneStreamStatus, await, finish, fresh
      in Hmsg.
    repeat case_match; simplify_eq; eexists; (split; [reflexivity|]);
      by repeat constructor.
Qed.

Lemma message_recorded_and_broadcast_witness :
  map_get (droneLastMessageTime
             (only_seen Sample.topic Sample.present 2000 Sample.streaming).1)
          (topic_sn Sample.topic) = Some 2000%Z
  ∧ (∀ droneSN, droneSN ≠ topic_sn Sample.topic →
       map_get (droneLastMessageTime
                  (only_seen Sample.topic Sample.present 2000 Sample.streaming).1)
               droneSN
       = map_get (droneLastMessageTime Sample.streaming) droneSN)
  ∧ (∃ rest,
       (only_seen Sample.topic Sample.present 2000 Sample.streaming).2
       = IoEmit Sample.present (topic_sn Sample.topic) :: rest
       ∧ Forall (λ e, is_emit e = false) rest)
  ∧ on_message Sample.topic None 2000 Sample.streaming
    = (Sample.streaming, []).
Proof.
  apply (message_recorded_and_broadcast Sample.streaming Sample.topic
           Sample.present 2000).
  vm_compute. reflexivity.
Defined.

(** X6: telemetry of a device that the cache does not know (and
    telemetry on a topic too short to carry a serial) starts nothing: the
    callback sends no login, no fallback lookup and no gateway request,
    launches no start attempt, and leaves the cache and the serial list
    as they are.  The fallback lookup of [startStream] is therefore not
    reached from a message about an uncached device. *)
Theorem unknown_device_never_started st topic message now st' effs :
  find_drone (dronesConfig st) (topic_sn topic) = None →
  on_message topic message now st = (st', effs) →
  Forall (λ r, is_start_request r = false) (requests effs)
  ∧ (∀ id t droneSN, pending st' !! id = Some t →
       is_start_task droneSN t = true → pending st !! id = Some t)
  ∧ dronesConfig st' = dronesConfig st
  ∧ droneSNs st' = droneSNs st.
Proof.
  intros Hfind Hmsg. unfold on_message in Hmsg.
  destruct message as [droneData|]; [|by injection Hmsg as <- <-].
  unfold camera_online, getDroneFirstCamera in Hmsg. fields.
  rewrite Hfind in Hmsg. cbn [mbind option_bind] in Hmsg.
  unfold updateDroneStreamStatus, await, fresh in Hmsg. fields.
  repeat case_match; simplify_eq; fields;
    (split; [by repeat constructor|]); (split; [|done]); try done.
  intros id t droneSN Hl Hstart.
  destruct (decide (id = nextId st)) as [->|?].
  - rewrite lookup_insert_eq in Hl. by injection Hl as <-.
  - by rewrite lookup_insert_ne in Hl.
Qed.

Lemma unknown_device_never_started_witness :
  Forall (λ r, is_start_request r = false)
    (requests (only_seen Sample.topic Sample.present 1000 initial_state).2)
  ∧ (∀ id t droneSN,
       pending (only_seen Sample.topic Sample.present 1000 initial_state).1
         !! id = Some t →
       is_start_task droneSN t = true → pending initial_state !! id = Some t)
  ∧ dronesConfig (only_seen Sample.topic Sample.present 1000 initial_state).1
    = dronesConfig initial_state
  ∧ droneSNs (only_seen Sample.topic Sample.present 1000 initial_state).1
    = droneSNs initial_state.
Proof.
  apply (unknown_device_never_started initial_state Sample.topic
           (Some Sample.present) 1000).
  - reflexivity.
  - vm_compute. reflexivity.
Defined.

(** ** From presence to a running stream *)

Lemma on_message_starts st topic serial droneData data v now token drone cameraId :
  topic_sn topic = Some serial →
  serial ∉ startedStreams st →
  getAcessToken st now = Some token →
  find_drone (dronesConfig st) (Some serial) = Some drone →
  first_camera (cameras drone) = Some cameraId →
  get_prop (Some droneData) "data" = Value data →
  truthy data = true → typeof_object data = true →
  get_prop data cameraId = Value v → truthy v = true →
  on_message topic (Some droneData) now st
  = (set_pending
       (<[nextId st := StartStream_post serial token drone cameraId]> (pending st))
       (fresh (set_droneLastMessageTime
                 (map_set (droneLastMessageTime st) (Some serial) now) st)).2,
     [IoEmit droneData (Some serial);
      Call (nextId st) (stream_request serial token drone cameraId)]).
Proof.
  intros Hsn Hout Htok Hfind Hcam Hdata Htruthy Hobj Hprop Hv.
  unfold on_message. rewrite Hsn, Hdata, Htruthy, Hobj. cbn [negb orb].
  unfold camera_online, getDroneFirstCamera. fields.
  rewrite Hfind. cbn [mbind option_bind]. rewrite Hcam, Hprop, Hv.
  rewrite bool_decide_eq_false_2 by done.
  unfold startStream, fresh. fields.
  rewrite bool_decide_eq_false_2 by done.
  unfold getAcessToken in *. fields. rewrite Htok.
  unfold startStream_with_token. fields. rewrite Hfind.
  unfold startStream_with_drone. rewrite Hcam. reflexivity.
Qed.

(** X7: a message that shows the first camera of a cached device, while
    the device is not marked started and a token is cached, sends one
    gateway request, built from the cached record and that token.  When
    the gateway answers with status 200 or 201 the registry is told that
    the stream is on, with the address the gateway gave, and once that
    report is answered the device is marked started, whatever the answer
    to the report was.  When the gateway answers with another status, or
    the request fails, nothing is reported and the device is not marked.
    Either way the attempt returns and is no longer pending. *)
Theorem presence_starts_stream st topic serial droneData data v now token drone
    cameraId answer patched :
  topic_sn topic = Some serial →
  serial ∉ startedStreams st →
  getAcessToken st now = Some token →
  find_drone (dronesConfig st) (Some serial) = Some drone →
  first_camera (cameras drone) = Some cameraId →
  get_prop (Some droneData) "data" = Value data →
  truthy data = true → typeof_object data = true →
  get_prop data cameraId = Value v → truthy v = true →
  ∃ st' effs,
    run st ([ MqttMessage topic (Some droneData) now;
              Resume (nextId st) (Resp_stream answer) 0 ]
            ++ match gateway_accepted answer with
               | Some _ => [Resume (nextId st) (Resp_patch patched) 0]
               | None => []
               end)
      = Some (st', effs)
    ∧ requests effs
      = stream_request serial token drone cameraId
        :: match gateway_accepted answer with
           | Some streamUrl => [PatchDrone serial true streamUrl]
           | None => []
           end
    ∧ startedStreams st'
      = match gateway_accepted answer with
        | Some _ => startedStreams st ∪ {[serial]}
        | None => startedStreams st
        end
    ∧ Return (nextId st) None ∈ effs
    ∧ pending st' = delete (nextId st) (pending st).
Proof.
  intros Hsn Hout Htok Hfind Hcam Hdata Htruthy Hobj Hprop Hv.
  cbn [app run step].
  rewrite (on_message_starts st topic serial droneData data v now token drone
             cameraId) by done.
  fields. rewrite lookup_insert_eq. cbn [resume].
  rewrite set_pending_set_pending, delete_insert_eq.
  unfold gateway_accepted.
  destruct answer as [[status streamUrl]|].
  - destruct ((status =? 200)%Z || (status =? 201)%Z).
    + unfold updateDroneStreamStatus, await. cbn [run step]. fields.
      rewrite lookup_insert_eq. cbn [resume]. unfold finish.
      eexists _, _. split; [reflexivity|]. fields.
      rewrite delete_insert_eq, delete_delete_eq.
      repeat split. set_solver.
    + unfold finish. cbn [run]. eexists _, _. split; [reflexivity|]. fields.
      repeat split. set_solver.
  - unfold finish. cbn [run]. eexists _, _. split; [reflexivity|]. fields.
    repeat split. set_solver.
Qed.

Lemma presence_starts_stream_witness :
  ∃ st' effs,
    run Scenario.stopped.1
        ([ MqttMessage Sample.topic (Some Sample.present) 3000;
           Resume (nextId Scenario.stopped.1)
             (Resp_stream (Some (201%Z, "rtmp://gw/BC001"))) 0 ]
         ++ match gateway_accepted (Some (201%Z, "rtmp://gw/BC001")) with
            | Some _ => [Resume (nextId Scenario.stopped.1) (Resp_patch None) 0]
            | None => []
            end)
      = Some (st', effs)
    ∧ requests effs
      = stream_request "BC001" "tokA" (to_config Sample.bc001) "camA"
        :: match gateway_accepted (Some (201%Z, "rtmp://gw/BC001")) with
           | Some streamUrl => [PatchDrone "BC001" true streamUrl]
           | None => []
           end
    ∧ startedStreams st'
      = match gateway_accepted (Some (201%Z, "rtmp://gw/BC001")) with
        | Some _ => startedStreams Scenario.stopped.1 ∪ {["BC001"]}
        | None => startedStreams Scenario.stopped.1
        end
    ∧ Return (nextId Scenario.stopped.1) None ∈ effs
    ∧ pending st'
      = delete (nextId Scenario.stopped.1) (pending Scenario.stopped.1).
Proof.
  apply (presence_starts_stream Scenario.stopped.1 Sample.topic "BC001"
           Sample.present (Some (JObj [("camA", JBool true)]))
           (Some (JBool true)) 3000 "tokA" (to_config Sample.bc001) "camA"
           (Some (201%Z, "rtmp://gw/BC001")) None).
  - reflexivity.
  - apply (bool_decide_unpack _). vm_compute. exact I.
  - vm_compute. reflexivity.
  - vm_compute. reflexivity.
  - reflexivity.
  - reflexivity.
  - reflexivity.
  - reflexivity.
  - reflexivity.
  - reflexivity.
Defined.

(** ** From absence to a stopped stream *)





(** ** Stop reports follow start reports *)

Lemma run_invariant_effects (J : State → list Effect → Prop) :
  (∀ st effs0 ev st' effs, J st effs0 → step st ev = Some (st', effs) →
     J st' (effs0 ++ effs)) →
  ∀ evs st effs0 st' effs, J st effs0 → run st evs = Some (st', effs) →
    J st' (effs0 ++ effs).
Proof.
  intros Hstep. induction evs as [|ev evs IH]; intros st effs0 st' effs HJ Hrun.
  - injection Hrun as <- <-. by rewrite app_nil_r.
  - apply run_cons in Hrun as (st1 & effs1 & effs2 & H1 & H2 & ->).
    rewrite app_assoc. eapply IH; [|exact H2]. by eapply Hstep.
Qed.

Lemma stops_follow_starts_seen serial rs :
  stops_follow_starts serial true rs = true.
Proof.
  induction rs as [|r rs IH]; [done|]. cbn [stops_follow_starts orb andb].
  by destruct (is_stop_report serial r).
Qed.

Lemma stops_follow_starts_none serial seen rs :
  List.filter (is_stop_report serial) rs = [] →
  stops_follow_starts serial seen rs = true.
Proof.
  revert seen. induction rs as [|r rs IH]; intros seen; [done|].
  cbn [List.filter stops_follow_starts].
  destruct (is_stop_report serial r); [done|]. apply IH.
Qed.

Lemma stops_follow_starts_app serial seen l l' :
  stops_follow_starts serial seen (l ++ l')
  = stops_follow_starts serial seen l
    && stops_follow_starts serial (seen || existsb (is_start_report serial) l) l'.
Proof.
  revert seen. induction l as [|r l IH]; intros seen.
  - cbn. by rewrite orb_false_r.
  - cbn [app stops_follow_starts existsb].
    destruct (is_stop_report serial r) eqn:E.
    + rewrite IH. destruct r as [| |s [] url| | |]; try discriminate E.
      cbn [is_start_report orb]. by rewrite andb_assoc.
    + rewrite IH. by rewrite orb_assoc.
Qed.

Lemma stops_follow_starts_split serial seen l1 r l2 :
  stops_follow_starts serial seen (l1 ++ r :: l2) = true →
  is_stop_report serial r = true →
  seen || existsb (is_start_report serial) l1 = true.
Proof.
  rewrite stops_follow_starts_app. intros [_ H]%andb_true_iff Hr.
  cbn [stops_follow_starts] in H. rewrite Hr in H.
  by apply andb_true_iff in H as [H _].
Qed.

(** A registry update of a start is awaited only by the callback that
    has just sent it. *)
Lemma step_awaits_start_report st ev st' effs serial id :
  step st ev = Some (st', effs) →
  pending st' !! id = Some (StartStream_update serial) →
  pending st !! id = Some (StartStream_update serial)
  ∨ start_reported serial effs = true.
Proof.
  intros Hstep Hnew.
  destruct ev as [|topic message now|now| |id' r random]; cbn [step] in Hstep.
  - unfold loadDronesFromAPI, await, fresh in Hstep. injection Hstep as <- <-.
    revert Hnew. fields. lookup_cases (nextId st) id; naive_solver.
  - unfold on_message, startStream, startStream_with_token,
      startStream_with_drone, updateDroneStreamStatus, await, finish, fresh
      in Hstep.
    repeat case_match; simplify_eq; revert Hnew; fields;
      try lookup_cases (nextId st) id; naive_solver.
  - unfold watchdog_tick, fresh in Hstep. injection Hstep as H.
    apply watchdog_loop_footprint in H.
    destruct H as (_&_&_&_&_&_&_&[(Hp&_&_)|(s&pos'&Hp&_&_&_)]);
      revert Hp; fields; intros Hp; rewrite Hp in Hnew; [by left|].
    revert Hnew. lookup_cases (nextId st) id; naive_solver.
  - unfold supervisor_tick, loadDronesFromAPI, await, fresh in Hstep.
    repeat case_match; simplify_eq; revert Hnew; fields;
      try lookup_cases (nextId st) id; naive_solver.
  - destruct (pending st !! id') as [t|] eqn:Hlook; [|discriminate].
    destruct t; destruct r; cbn [resume] in Hstep; try discriminate;
      try (unfold getAcessToken_resume, loadDronesFromAPI_resume,
             loadDronesFromAPI, startStream_with_token,
             startStream_with_drone, updateDroneStreamStatus, await, finish
             in Hstep;
           repeat case_match; simplify_eq; revert Hnew; fields;
           try lookup_cases id' id; intros Hnew;
           solve [ by left
                 | apply lookup_delete_Some in Hnew as [_ Hnew]; by left
                 | simplify_eq; right; unfold start_reported; cbn;
                   by rewrite bool_decide_eq_true_2 ]).
    injection Hstep as H. apply watchdog_loop_footprint in H.
    destruct H as (_&_&_&_&_&_&_&[(Hp&_&_)|(s&pos'&Hp&_&_&_)]);
      revert Hp; fields; intros Hp; rewrite Hp in Hnew.
    + apply lookup_delete_Some in Hnew as [_ Hnew]. by left.
    + revert Hnew. lookup_cases id' id; intros Hnew; [done|by left].
Qed.

Lemma stops_after_starts_step serial st effs0 ev st' effs :
  stops_after_starts serial st effs0 → step st ev = Some (st', effs) →
  stops_after_starts serial st' (effs0 ++ effs).
Proof.
  intros [Hord Hseen] Hstep. unfold stops_after_starts, start_reported in *.
  rewrite requests_app, stops_follow_starts_app, existsb_app, Hord.
  cbn [andb orb]. split.
  - destruct (decide (serial ∈ startedStreams st)) as [Hin|Hout].
    + rewrite Hseen by auto. apply stops_follow_starts_seen.
    + apply stops_follow_starts_none.
      pose proof (step_stop_report_started _ _ _ _ serial Hstep Hout) as H0.
      unfold stop_reports in H0. by apply length_zero_iff_nil in H0.
  - intros [Hin|[id Hid]].
    + destruct (decide (serial ∈ startedStreams st)) as [Hin0|Hout].
      * by rewrite Hseen by auto.
      * destruct (step_marks_started _ _ _ _ _ Hstep Hin Hout)
          as (id & status & random & _ & Hid).
        rewrite Hseen; [done|]. right. by exists id.
    + destruct (step_awaits_start_report _ _ _ _ _ _ Hstep Hid) as [Hid0|Hnow].
      * rewrite Hseen; [done|]. right. by exists id.
      * unfold start_reported in Hnow. rewrite Hnow. apply orb_true_r.
Qed.

(** X9: in every run from the initial state, whatever the
    interleaving, a stop report for a device is sent only after a start
    report for that device: the registry is never told that a stream is
    off which it was not told before to be on. *)
Theorem stop_report_follows_start_report evs st effs serial before id after :
  run initial_state evs = Some (st, effs) →
  effs = before ++ Call id (PatchDrone serial false "") :: after →
  ∃ streamUrl, PatchDrone serial true streamUrl ∈ requests before.
Proof.
  intros Hrun Heffs.
  assert (HJ : stops_after_starts serial st ([] ++ effs)).
  { eapply (run_invariant_effects (stops_after_starts serial));
      [apply stops_after_starts_step| |exact Hrun].
    split; [done|]. cbn. intros [?|[id0 H0]]; set_solver. }
  destruct HJ as [Hord _]. cbn [app] in Hord. rewrite Heffs in Hord.
  rewrite requests_app in Hord.
  change (requests (Call id (PatchDrone serial false "") :: after))
    with (PatchDrone serial false "" :: requests after) in Hord.
  apply stops_follow_starts_split in Hord.
  - cbn [orb] in Hord. apply existsb_exists in Hord as (r & Hin & Hr).
    destruct r as [| |s [] url| | |]; try discriminate Hr.
    cbn in Hr. apply bool_decide_eq_true_1 in Hr as ->.
    exists url. by apply list_elem_of_In.
  - cbn. by rewrite bool_decide_eq_true_2.
Qed.

Lemma stop_report_follows_start_report_witness :
  ∃ streamUrl,
    PatchDrone "BC001" true streamUrl
    ∈ requests (take 10 Scenario.stopped.2).
Proof.
  apply (stop_report_follows_start_report Scenario.until_stopped
           Scenario.stopped.1 Scenario.stopped.2 "BC001"
           (take 10 Scenario.stopped.2) 2 []).
  - vm_compute. reflexivity.
  - vm_compute. reflexivity.
Defined.

(** ** What the watchdog leaves alone, and what it forgets *)

Lemma elem_of_map_delete (m : MapData) k x :
  Some x ∈ map_delete m k → Some x ∈ m.
Proof.
  induction m as [|slot m IH]; [done|]. cbn [map_delete].
  destruct (key_is k slot).
  - intros [?|H]%elem_of_cons; [done|by right].
  - intros [->|H]%elem_of_cons; [left|right; by apply IH].
Qed.

Lemma elem_of_drop_inv {A} (l : list A) n x : x ∈ drop n l → x ∈ l.
Proof.
  intros H. rewrite <- (take_drop n l). apply elem_of_app. by right.
Qed.

Lemma map_get_unique (m : MapData) k t t' :
  NoDup (live_keys m) → map_get m k = Some t → Some (k, t') ∈ m → t' = t.
Proof.
  unfold live_keys. induction m as [|slot m IH]; [done|].
  cbn [map_get]. destruct slot as [[k0 t0]|]; cbn.
  - rewrite NoDup_cons. intros [Hout Hnd]. case_bool_decide as E.
    + subst k0. intros [= ->] [[= ->]|Hin]%elem_of_cons; [done|].
      exfalso. apply Hout.
      apply (list_elem_of_fmap_2 fst _ (k, t')).
      apply list_elem_of_omap. by exists (Some (k, t')).
    + intros Hget [[= -> ->]|Hin]%elem_of_cons; [done|]. by apply IH.
  - intros Hnd Hget [?|Hin]%elem_of_cons; [done|]. by apply IH.
Qed.

(** A synchronous stretch of the sweep leaves alone a device none of
    whose entries ahead is stale. *)
Lemma watchdog_loop_spares id now serial entries : ∀ pos st st' effs,
  (∀ t, Some (Some serial, t) ∈ entries → inactive now t = false) →
  watchdog_loop id now entries pos st = (st', effs) →
  map_get (droneLastMessageTime st') (Some serial)
  = map_get (droneLastMessageTime st) (Some serial)
  ∧ (serial ∈ startedStreams st → serial ∈ startedStreams st')
  ∧ stop_reports serial effs = 0%nat.
Proof.
  induction entries as [|[[k t]|] entries IH]; intros pos st st' effs Hrecent;
    cbn [watchdog_loop].
  - unfold finish. by intros [= <- <-].
  - assert (Hrest : ∀ t0, Some (Some serial, t0) ∈ entries → inactive now t0 = false).
    { intros t0 H0. apply Hrecent. by right. }
    destruct (inactive now t) eqn:Hstale; [|by apply IH].
    assert (Hk : k ≠ Some serial).
    { intros ->. rewrite Hrecent in Hstale; [done|left]. }
    destruct k as [s|].
    + case_bool_decide as Hin.
      * unfold updateDroneStreamStatus, await. intros [= <- <-]. fields.
        split; [done|]. split; [set_solver|].
        unfold stop_reports. cbn. rewrite bool_decide_eq_false_2; [done|].
        by intros ->.
      * intros H. apply IH in H; [|done]. fields.
        by rewrite map_get_delete_ne in H.
    + intros H. apply IH in H; [|done]. fields.
      by rewrite map_get_delete_ne in H.
  - apply IH. intros t0 H0. apply Hrecent. by right.
Qed.

(** X10: a sweep leaves alone every device whose last message is no
    older than the timeout (25000 ms to the millisecond is not yet
    stale): in the timer callback, and in the continuation after the
    stop report of another device, its entry and its last-message time
    stay, a device that is marked started stays marked, and no stop
    report is sent for it. *)
Theorem watchdog_spares_recent st ev st' effs serial lastMessageTime now :
  reachable st →
  map_get (droneLastMessageTime st) (Some serial) = Some lastMessageTime →
  (now - lastMessageTime <= INACTIVITY_TIMEOUT_MS)%Z →
  sweeps st ev now serial →
  step st ev = Some (st', effs) →
  map_get (droneLastMessageTime st') (Some serial) = Some lastMessageTime
  ∧ (serial ∈ startedStreams st → serial ∈ startedStreams st')
  ∧ stop_reports serial effs = 0%nat.
Proof.
  intros Hreach Hget Hrecent Hev Hstep.
  apply keys_unique_reachable in Hreach. unfold keys_unique in Hreach.
  assert (Hfresh : ∀ t, Some (Some serial, t) ∈ droneLastMessageTime st →
                        inactive now t = false).
  { intros t Ht. rewrite (map_get_unique _ _ _ _ Hreach Hget Ht).
    unfold inactive. lia. }
  destruct Hev as [->|(id & pos & reported & status & random & -> & Hlook & Hne)].
  - cbn [step] in Hstep. unfold watchdog_tick, fresh in Hstep.
    injection Hstep as Hstep.
    apply (watchdog_loop_spares _ _ serial) in Hstep; [|by fields].
    fields. by rewrite Hget in Hstep.
  - cbn [step] in Hstep. rewrite Hlook in Hstep. cbn [resume] in Hstep.
    injection Hstep as Hstep.
    apply (watchdog_loop_spares _ _ serial) in Hstep.
    + fields. rewrite map_get_delete_ne, Hget in Hstep by congruence. done.
    + fields. intros t Ht. apply Hfresh.
      apply elem_of_map_delete with (k := Some reported).
      eapply elem_of_drop_inv. exact Ht. 
Qed.

Lemma watchdog_spares_recent_witness :
  map_get (droneLastMessageTime (watchdog_tick 26000 Sample.streaming).1)
          (Some "BC001") = Some 1000%Z
  ∧ ("BC001" ∈ startedStreams Sample.streaming →
     "BC001" ∈ startedStreams (watchdog_tick 26000 Sample.streaming).1)
  ∧ stop_reports "BC001" (watchdog_tick 26000 Sample.streaming).2 = 0%nat.
Proof.
  apply (watchdog_spares_recent Sample.streaming (WatchdogTick 26000)
           (watchdog_tick 26000 Sample.streaming).1
           (watchdog_tick 26000 Sample.streaming).2 "BC001" 1000 26000).
  - exists Sample.until_streaming. eexists. vm_compute. reflexivity.
  - vm_compute. reflexivity.
  - vm_compute. discriminate.
  - left. reflexivity.
  - reflexivity.
Defined.

Lemma elem_live_keys (m : MapData) k t : Some (k, t) ∈ m → k ∈ live_keys m.
Proof.
  intros H. unfold live_keys. apply (list_elem_of_fmap_2 fst _ (k, t)).
  apply list_elem_of_omap. by exists (Some (k, t)).
Qed.

(** X11: when the stop report of a sweep is answered, whatever the
    answer, the reported device has no entry in the last-message map any
    more, also when it has sent a message while the report was under
    way; whether it is marked started is left as it is then, and the
    continuation sends no stop report for it. *)
Theorem reported_device_forgotten st id now pos reported status random st' effs :
  reachable st →
  pending st !! id = Some (Watchdog_update now pos reported) →
  step st (Resume id (Resp_patch status) random) = Some (st', effs) →
  map_get (droneLastMessageTime st') (Some reported) = None
  ∧ (reported ∈ startedStreams st' ↔ reported ∈ startedStreams st)
  ∧ stop_reports reported effs = 0%nat.
Proof.
  intros Hreach Hlook Hstep.
  apply keys_unique_reachable in Hreach. unfold keys_unique in Hreach.
  cbn [step] in Hstep. rewrite Hlook in Hstep. cbn [resume] in Hstep.
  injection Hstep as Hstep.
  pose proof (map_get_delete_eq _ (Some reported) Hreach) as Hgone.
  pose proof Hstep as Hfoot. apply watchdog_loop_footprint in Hfoot.
  apply (watchdog_loop_spares _ _ reported) in Hstep.
  - revert Hstep Hfoot. fields. rewrite Hgone.
    intros (-> & Hkeep & ->) (_&_&_&_&_&_&_&Hfoot).
    split; [done|]. split; [|done]. split; [|done].
    destruct Hfoot as [(_&->&_)|(s&pos'&_&_&->&_)]; set_solver.
  - fields. intros t Ht. exfalso.
    apply elem_of_drop_inv, elem_live_keys in Ht.
    by apply map_get_None in Hgone.
Qed.

Lemma reported_device_forgotten_witness :
  map_get (droneLastMessageTime Scenario.swept.1) (Some "BC001") = None
  ∧ ("BC001" ∈ startedStreams Scenario.swept.1
     ↔ "BC001" ∈ startedStreams Scenario.sweeping)
  ∧ stop_reports "BC001" Scenario.swept.2 = 0%nat.
Proof.
  apply (reported_device_forgotten Scenario.sweeping 2 30000 1 "BC001"
           (Some 200%Z) 0 Scenario.swept.1 Scenario.swept.2).
  - exists Scenario.until_sweeping. eexists. vm_compute. reflexivity.
  - vm_compute. reflexivity.
  - vm_compute. reflexivity.
Defined.

(** ** Registry loads in every interleaving *)

Lemma loads_sent_app id effs effs' :
  loads_sent id (effs ++ effs') = (loads_sent id effs + loads_sent id effs')%nat.
Proof.
  unfold loads_sent. by rewrite requests_of_app, List.filter_app, length_app.
Qed.

Lemma loads_sent_subscribeToAllDrones id st :
  loads_sent id (subscribeToAllDrones st) = 0%nat.
Proof. unfold loads_sent. by rewrite requests_of_subscribeToAllDrones. Qed.

Lemma loads_sent_Return id id' v effs :
  loads_sent id (Return id' v :: effs) = loads_sent id effs.
Proof. reflexivity. Qed.

Ltac load_arith st :=
  repeat match goal with
    | H : (_ <? _)%nat = true |- _ => apply Nat.ltb_lt in H
    | H : (_ <? _)%nat = false |- _ => apply Nat.ltb_ge in H
    end;
  repeat match goal with
    | |- context [(?a <=? ?b)%nat] => destruct (Nat.leb_spec a b)
    end;
  repeat match goal with
    | |- context [pending st !! ?i] =>
        let E := fresh "E" in
        destruct (pending st !! i) eqn:E;
        [ match goal with Hwf : ids_allocated st |- _ =>
            pose proof (Hwf _ _ E) end
        | ]
    end;
  cbn [List.filter length loads_left];
  unfold MAX_RETRY_ATTEMPTS in *;
  repeat case_match; try lia.

Ltac load_leaf st id0 :=
  let id := fresh "id" in
  intros id;
  rewrite ?loads_sent_Return, ?loads_sent_subscribeToAllDrones;
  unfold load_budget, loads_sent, requests_of; fields;
  cbn [omap list_omap];
  destruct (decide (id = id0)) as [->|?];
  [ rewrite ?Nat.eqb_refl, ?lookup_insert_eq, ?lookup_delete_eq;
    try match goal with
      | Hwf : ids_allocated st, H : pending st !! id0 = Some _ |- _ =>
          pose proof (Hwf _ _ H); rewrite H
      end;
    load_arith st
  | rewrite ?lookup_insert_ne, ?lookup_delete_ne by done;
    repeat match goal with
      | |- context [(?a =? id)%nat] =>
          replace (a =? id)%nat with false by (symmetry; apply Nat.eqb_neq; lia)
      end;
    load_arith st ].

Ltac load_fresh :=
  match goal with Hwf : ids_allocated ?s |- _ => load_leaf s (nextId s) end.

Ltac load_resumed id0 :=
  match goal with Hwf : ids_allocated ?s |- _ => load_leaf s id0 end.

Lemma step_load_budget st ev st' effs :
  ids_allocated st → step st ev = Some (st', effs) →
  ∀ id, (loads_sent id effs + load_budget id st' ≤ load_budget id st)%nat.
Proof.
  intros Hwf Hstep.
  destruct ev as [|topic message now|now| |id0 r random]; cbn [step] in Hstep.
  - unfold loadDronesFromAPI, await in Hstep. injection Hstep as <- <-.
    load_fresh.
  - unfold on_message, startStream, startStream_with_token,
      startStream_with_drone, updateDroneStreamStatus, await, finish, fresh in Hstep.
    repeat case_match; simplify_eq; load_fresh.
  - unfold watchdog_tick, fresh in Hstep. injection Hstep as H.
    apply watchdog_loop_footprint in H.
    destruct H as (_&_&_&_&_&_&Hn&[(Hp&_&->)|(serial&pos'&Hp&_&_&->)]);
      destruct st' as [? ? ? ? ? ? ? ? p' n']; fields; subst p' n';
      load_fresh.
  - unfold supervisor_tick, loadDronesFromAPI, await, fresh in Hstep.
    repeat case_match; simplify_eq; load_fresh.
  - destruct (pending st !! id0) as [t|] eqn:Hlook; [|discriminate].
    destruct t; destruct r; cbn [resume] in Hstep; try discriminate;
      try (unfold getAcessToken_resume, loadDronesFromAPI_resume, loadDronesFromAPI,
             startStream_with_token, startStream_with_drone, updateDroneStreamStatus, await, finish
             in Hstep;
           repeat case_match; simplify_eq; solve [load_resumed id0]).
    injection Hstep as H. apply watchdog_loop_footprint in H.
    destruct H as (_&_&_&_&_&_&Hn&[(Hp&_&->)|(serial&pos'&Hp&_&_&->)]);
      destruct st' as [? ? ? ? ? ? ? ? p' n']; fields; subst p' n';
      load_resumed id0.
Qed.

Lemma run_load_budget evs : ∀ st st' effs,
  ids_allocated st → run st evs = Some (st', effs) →
  ∀ id, (loads_sent id effs + load_budget id st' ≤ load_budget id st)%nat.
Proof.
  induction evs as [|ev evs IH]; intros st st' effs Hwf Hrun.
  - injection Hrun as <- <-. intros id. cbn. lia.
  - apply run_cons in Hrun as (st1 & effs1 & effs2 & Hstep & Hrun & ->).
    destruct (step_fetch_budget _ _ _ _ Hwf Hstep) as [Hwf1 _].
    pose proof (step_load_budget _ _ _ _ Hwf Hstep) as Hb1.
    pose proof (IH _ _ _ Hwf1 Hrun) as Hb2.
    intros id. rewrite loads_sent_app.
    specialize (Hb1 id). specialize (Hb2 id). lia.
Qed.

(** X12: in every run from the initial state, whatever the
    interleaving and whatever the registry answers, no invocation of the
    load sends more than [MAX_RETRY_ATTEMPTS] list requests. *)
Theorem load_requests_bounded evs st effs id :
  run initial_state evs = Some (st, effs) →
  (loads_sent id effs ≤ MAX_RETRY_ATTEMPTS)%nat.
Proof.
  intros Hrun.
  pose proof (run_load_budget _ _ _ _ ids_allocated_initial Hrun id) as Hb.
  unfold load_budget at 2 in Hb. cbn in Hb. lia.
Qed.

Lemma load_requests_bounded_witness :
  (loads_sent 0 Scenario.exhausted.2 ≤ MAX_RETRY_ATTEMPTS)%nat.
Proof.
  apply (load_requests_bounded Scenario.until_exhausted
           Scenario.exhausted.1 Scenario.exhausted.2 0).
  vm_compute. reflexivity.
Defined.

Lemma sleep_total_failing_load (random : nat → Q) :
  (∀ attempt, (0 <= random attempt)%Q ∧ (random attempt < 1)%Q) →
  ∀ more attempt,
    (9 * capped_total attempt more
     <= 10 * sleep_total (failing_load_requests random attempt more))%Z
    ∧ (10 * sleep_total (failing_load_requests random attempt more)
       <= 11 * capped_total attempt more)%Z.
Proof.
  intros Hrandom. induction more as [|more IH]; intros attempt.
  - cbn. lia.
  - cbn [failing_load_requests sleep_total capped_total].
    destruct (Hrandom attempt) as [H0 H1].
    pose proof (calculateRetryDelay_bounds attempt (random attempt) H0 H1).
    specialize (IH (S attempt)). lia.
Qed.

Lemma sleeps_failing_load (random : nat → Q) : ∀ more attempt,
  length (List.filter (λ r, match r with SleepMs _ => true | _ => false end)
            (failing_load_requests random attempt more)) = more.
Proof.
  induction more as [|more IH]; intros attempt; [done|].
  cbn [failing_load_requests List.filter length]. by rewrite IH.
Qed.

(** X13: a load all of whose attempts fail sleeps nine times, each
    time between 1800 and 33000 ms, and between 162000 and 198000 ms in
    all, before it gives up. *)
Theorem failing_load_waits st ev (random : nat → Q) :
  launches_load st ev →
  (∀ attempt, (0 <= random attempt)%Q ∧ (random attempt < 1)%Q) →
  ∃ st' effs,
    run st (ev :: failing_load (nextId st) random 0 (MAX_RETRY_ATTEMPTS - 1))
      = Some (st', effs)
    ∧ length (List.filter
                (λ r, match r with SleepMs _ => true | _ => false end)
                (requests effs)) = (MAX_RETRY_ATTEMPTS - 1)%nat
    ∧ (162000 <= sleep_total (requests effs))%Z
    ∧ (sleep_total (requests effs) <= 198000)%Z
    ∧ Forall (λ r, match r with
                   | SleepMs ms => (1800 <= ms)%Z ∧ (ms <= 33000)%Z
                   | _ => True
                   end) (requests effs).
Proof.
  intros Hlaunch Hrandom. eexists _, _. split.
  - cbn [run]. rewrite (launches_load_step _ _ Hlaunch).
    unfold loadDronesFromAPI, await at 1.
    rewrite run_failing_load; [reflexivity|done|].
    cbn [pending set_pending]. by rewrite lookup_insert_eq.
  - cbn [app].
    change (requests (Call ?i ?r :: ?l)) with (r :: requests l).
    rewrite requests_app.
    assert (Hreq : ∀ id rs, requests (Call id <$> rs) = rs).
    { intros id rs. induction rs as [|r rs IH]; [done|].
      cbn [fmap list_fmap]. change (requests (Call id r :: ?l)) with (r :: requests l).
      by rewrite IH. }
    rewrite Hreq. cbn [requests omap list_omap]. rewrite app_nil_r.
    cbn [sleep_total].
    destruct (sleep_total_failing_load random Hrandom
                (MAX_RETRY_ATTEMPTS - 1) 0) as [Hlo Hhi].
    assert (Htot : capped_total 0 (MAX_RETRY_ATTEMPTS - 1) = 180000%Z)
      by reflexivity.
    rewrite Htot in Hlo, Hhi.
    split; [cbn [List.filter]; apply sleeps_failing_load|].
    split; [lia|]. split; [lia|].
    constructor; [done|].
    assert (Hall : ∀ more attempt,
              Forall (λ r, match r with
                           | SleepMs ms => (1800 <= ms)%Z ∧ (ms <= 33000)%Z
                           | _ => True
                           end) (failing_load_requests random attempt more)).
    { induction more as [|more IH]; intros attempt; [constructor|].
      cbn [failing_load_requests].
      destruct (Hrandom attempt) as [H0 H1].
      pose proof (calculateRetryDelay_bounds attempt (random attempt) H0 H1) as Hb.
      assert (Hc : (2000 <= capped attempt <= 30000)%Z).
      { unfold capped, INITIAL_RETRY_DELAY_MS, MAX_RETRY_DELAY_MS.
        pose proof (Z.pow_pos_nonneg 2 (Z.of_nat attempt)). lia. }
      constructor; [lia|]. constructor; [done|]. apply IH. }
    apply Hall.
Qed.

Lemma failing_load_waits_witness :
  ∃ st' effs,
    run initial_state
        (MqttConnect
           :: failing_load (nextId initial_state) (λ _, 1 # 2) 0
                (MAX_RETRY_ATTEMPTS - 1))
      = Some (st', effs)
    ∧ length (List.filter
                (λ r, match r with SleepMs _ => true | _ => false end)
                (requests effs)) = (MAX_RETRY_ATTEMPTS - 1)%nat
    ∧ (162000 <= sleep_total (requests effs))%Z
    ∧ (sleep_total (requests effs) <= 198000)%Z
    ∧ Forall (λ r, match r with
                   | SleepMs ms => (1800 <= ms)%Z ∧ (ms <= 33000)%Z
                   | _ => True
                   end) (requests effs).
Proof.
  apply (failing_load_waits initial_state MqttConnect (λ _, 1 # 2)).
  - left. reflexivity.
  - intros attempt. split; [unfold Qle|unfold Qlt]; simpl; lia.
Defined.

(** ** The connection mark and the supervisor *)

Lemma step_connection_flag st ev st' effs :
  step st ev = Some (st', effs) →
  (marks_connected st ev ∧ databaseConnected st' = true)
  ∨ (marks_disconnected st ev ∧ databaseConnected st' = false)
  ∨ databaseConnected st' = databaseConnected st.
Proof.
  intros Hstep.
  destruct ev as [|topic message now|now| |id r random]; cbn [step] in Hstep.
  - unfold loadDronesFromAPI, await in Hstep. injection Hstep as <- <-. auto.
  - unfold on_message, startStream, startStream_with_token,
      startStream_with_drone, updateDroneStreamStatus, await, finish, fresh
      in Hstep.
    repeat case_match; simplify_eq; auto.
  - unfold watchdog_tick, fresh in Hstep. injection Hstep as H.
    apply watchdog_loop_footprint in H.
    destruct H as (_&_&->&_). auto.
  - unfold supervisor_tick, loadDronesFromAPI, await, fresh in Hstep.
    repeat case_match; simplify_eq; auto.
  - destruct (pending st !! id) as [t|] eqn:Hlook; [|discriminate].
    destruct t; destruct r; cbn [resume] in Hstep; try discriminate;
      try (unfold getAcessToken_resume, loadDronesFromAPI,
             startStream_with_token, startStream_with_drone,
             updateDroneStreamStatus, await, finish in Hstep;
           repeat case_match; simplify_eq; solve [auto]).
    + destruct drone as [dbDrone|].
      * unfold startStream_with_drone, await, finish in Hstep.
        repeat case_match; simplify_eq; auto.
      * destruct (Nat.ltb_spec (S fetchAttempts) maxFetchAttempts).
        -- injection Hstep as <- <-. auto.
        -- injection Hstep as <- <-. right. left. split; [|done]. right.
           by exists id, droneSN, token, fetchAttempts, random.
    + unfold loadDronesFromAPI_resume, await, finish in Hstep.
      destruct drones as [drones|].
      * injection Hstep as <- <-. left. split; [|done].
        by exists id, attempt, drones, random.
      * destruct (Nat.ltb_spec attempt (MAX_RETRY_ATTEMPTS - 1)).
        -- injection Hstep as <- <-. auto.
        -- injection Hstep as <- <-. right. left. split; [|done]. left.
           by exists id, attempt, random.
    + injection Hstep as H. apply watchdog_loop_footprint in H.
      destruct H as (_&_&->&_). auto.
Qed.

(** X14: the registry is marked connected by the answer that carries
    the device list to a load, and it is marked disconnected by the last
    failure of a load and by the last failure of a fallback lookup; the
    mark changes in no other callback.  A failed login, a failed gateway
    request, a failed status report and a fallback lookup that succeeds
    leave the mark as it is. *)
Theorem connection_flag_changes st ev st' effs :
  step st ev = Some (st', effs) →
  (marks_connected st ev → databaseConnected st' = true)
  ∧ (marks_disconnected st ev → databaseConnected st' = false)
  ∧ (databaseConnected st' ≠ databaseConnected st →
     marks_connected st ev ∨ marks_disconnected st ev).
Proof.
  intros Hstep. split; [|split].
  - intros (id & attempt & drones & random & -> & Hlook).
    cbn [step] in Hstep. rewrite Hlook in Hstep. cbn [resume] in Hstep.
    by injection Hstep as <- <-.
  - intros [(id & attempt & random & -> & Hlook & Hlast)
           |(id & droneSN & token & k & random & -> & Hlook & Hlast)];
      cbn [step] in Hstep; rewrite Hlook in Hstep; cbn [resume] in Hstep.
    + unfold loadDronesFromAPI_resume in Hstep.
      destruct (Nat.ltb_spec attempt (MAX_RETRY_ATTEMPTS - 1)); [lia|].
      by injection Hstep as <- <-.
    + destruct (Nat.ltb_spec (S k) maxFetchAttempts); [lia|].
      by injection Hstep as <- <-.
  - intros Hne.
    destruct (step_connection_flag _ _ _ _ Hstep) as [[H _]|[[H _]|H]]; auto.
    done.
Qed.

Lemma connection_flag_changes_witness :
  (marks_connected Scenario.connecting
     (Resume 0 (Resp_drones (Some [Sample.bc001; Sample.bare])) 0) →
   databaseConnected Sample.loaded = true)
  ∧ (marks_disconnected Scenario.connecting
       (Resume 0 (Resp_drones (Some [Sample.bc001; Sample.bare])) 0) →
     databaseConnected Sample.loaded = false)
  ∧ (databaseConnected Sample.loaded ≠ databaseConnected Scenario.connecting →
     marks_connected Scenario.connecting
       (Resume 0 (Resp_drones (Some [Sample.bc001; Sample.bare])) 0)
     ∨ marks_disconnected Scenario.connecting
         (Resume 0 (Resp_drones (Some [Sample.bc001; Sample.bare])) 0)).
Proof.
  apply (connection_flag_changes Scenario.connecting
           (Resume 0 (Resp_drones (Some [Sample.bc001; Sample.bare])) 0)
           Sample.loaded
           [Return 0%nat (Some true); Subscribe "thing/product/BC001/osd";
            Subscribe "thing/product/BC002/osd"]).
  vm_compute. reflexivity.
Defined.

Lemma stays_disconnected evs : ∀ st st' effs,
  ids_allocated st → databaseConnected st = false →
  Forall (λ ev, answers_load_with_list ev = false) evs →
  run st evs = Some (st', effs) →
  ids_allocated st' ∧ databaseConnected st' = false.
Proof.
  induction evs as [|ev evs IH]; intros st st' effs Hwf Hoff Hevs Hrun.
  - by injection Hrun as <- <-.
  - apply Forall_cons in Hevs as [Hev Hevs].
    apply run_cons in Hrun as (st1 & effs1 & effs2 & H1 & H2 & ->).
    destruct (step_fetch_budget _ _ _ _ Hwf H1) as [Hwf1 _].
    apply (IH st1 st' effs2); try done.
    destruct (step_connection_flag _ _ _ _ H1)
      as [[(id & attempt & drones & random & -> & _) _]|[[_ H]|H]];
      [done|done|congruence].
Qed.

(** X15: while the registry is marked disconnected and no load is
    answered with the device list, the mark stays, whatever else
    happens; every tick of the supervisor then launches a new load with
    its own first list request, and the invocations that are pending,
    the loads still under way among them, stay pending beside it. *)
Theorem supervisor_keeps_trying st evs st1 effs1 :
  reachable st → databaseConnected st = false →
  Forall (λ ev, answers_load_with_list ev = false) evs →
  run st evs = Some (st1, effs1) →
  databaseConnected st1 = false
  ∧ ∃ st2,
      step st1 SupervisorTick = Some (st2, [Call (nextId st1) GetDrones])
      ∧ pending st2 !! nextId st1 = Some (Load_get 0)
      ∧ ∀ id t, pending st1 !! id = Some t → pending st2 !! id = Some t.
Proof.
  intros Hreach Hoff Hevs Hrun.
  apply ids_allocated_reachable in Hreach.
  destruct (stays_disconnected _ _ _ _ Hreach Hoff Hevs Hrun) as [Hwf1 Hoff1].
  split; [done|]. eexists. split.
  - cbn [step]. unfold supervisor_tick. rewrite Hoff1. reflexivity.
  - fields. split; [by rewrite lookup_insert_eq|].
    intros id t Hl. pose proof (Hwf1 _ _ Hl).
    by rewrite lookup_insert_ne by lia.
Qed.

Lemma supervisor_keeps_trying_witness :
  databaseConnected Scenario.retrying.1 = false
  ∧ ∃ st2,
      step Scenario.retrying.1 SupervisorTick
      = Some (st2, [Call (nextId Scenario.retrying.1) GetDrones])
      ∧ pending st2 !! nextId Scenario.retrying.1 = Some (Load_get 0)
      ∧ ∀ id t, pending Scenario.retrying.1 !! id = Some t →
                pending st2 !! id = Some t.
Proof.
  apply (supervisor_keeps_trying initial_state Scenario.until_retrying
           Scenario.retrying.1 Scenario.retrying.2).
  - exists [], []. reflexivity.
  - reflexivity.
  - repeat constructor.
  - vm_compute. reflexivity.
Defined.

(** ** Requests to the streaming gateway *)

Lemma getAcessToken_truthy st now token :
  getAcessToken st now = Some token → truthy_string token = true.
Proof.
  unfold getAcessToken. destruct (cachedToken st) as [t|]; [|done].
  destruct (truthy_string t) eqn:E; [|done]. cbn [andb].
  case_match; [|done]. by intros [= <-].
Qed.

Lemma startStream_with_drone_ok id droneSN token drone st st' effs :
  truthy_string token = true → tokens_truthy st →
  startStream_with_drone id droneSN token drone st = (st', effs) →
  tokens_truthy st' ∧ Forall gateway_request_ok (requests effs).
Proof.
  intros Htok Hinv. unfold startStream_with_drone, await, finish.
  destruct (first_camera (cameras drone)) as [cam|] eqn:Hcam;
    intros [= <- <-]; [|by split].
  split.
  - intros id0 t0 tok0. fields. lookup_cases id id0.
    + by intros [= <-] [= <-].
    + apply Hinv.
  - repeat constructor; [done|]. exists droneSN, cam.
    split; [by eapply first_camera_truthy|done].
Qed.

Lemma startStream_with_token_ok id droneSN token st st' effs :
  truthy_string token = true → tokens_truthy st →
  startStream_with_token id droneSN token st = (st', effs) →
  tokens_truthy st' ∧ Forall gateway_request_ok (requests effs).
Proof.
  intros Htok Hinv. unfold startStream_with_token.
  destruct (find_drone _ _) as [drone|]; [by apply startStream_with_drone_ok|].
  unfold await, finish. case_match; intros [= <- <-]; [|by split].
  split; [|by repeat constructor].
  intros id0 t0 tok0. fields. lookup_cases id id0.
  - by intros [= <-] [= <-].
  - apply Hinv.
Qed.

Lemma step_gateway_request_ok st ev st' effs :
  tokens_truthy st → step st ev = Some (st', effs) →
  tokens_truthy st' ∧ Forall gateway_request_ok (requests effs).
Proof.
  intros Hinv Hstep.
  assert (Hframe : ∀ st1 : State, pending st1 = pending st → tokens_truthy st1).
  { intros st1 E id t tok. rewrite E. apply Hinv. }
  assert (Hins : ∀ (st1 : State) id t,
            pending st1 = <[id := t]> (pending st) → task_token t = None →
            tokens_truthy st1).
  { intros st1 id t E Ht id0 t0 tok. rewrite E. lookup_cases id id0.
    - intros [= <-]. congruence.
    - apply Hinv. }
  assert (Hdel : ∀ (st1 : State) id, pending st1 = delete id (pending st) →
            tokens_truthy st1).
  { intros st1 id E id0 t0 tok. rewrite E.
    intros [_ H]%lookup_delete_Some Ht. by eapply Hinv. }
  assert (Hreins : ∀ (st1 : State) id t,
            pending st1 = <[id := t]> (delete id (pending st)) →
            task_token t = None → tokens_truthy st1).
  { intros st1 id t E Ht id0 t0 tok. rewrite E. lookup_cases id id0.
    - intros [= <-]. congruence.
    - apply Hinv. }
  destruct ev as [|topic message now|now| |id r random]; cbn [step] in Hstep.
  - unfold loadDronesFromAPI, await, fresh in Hstep. injection Hstep as <- <-.
    split; [by eapply Hins|by repeat constructor].
  - unfold on_message in Hstep.
    destruct message as [droneData|]; [|injection Hstep as <- <-; by split].
    destruct (get_prop _ _) as [data| |];
      [|injection Hstep as <- <-; split; [by apply Hframe|done]
       |injection Hstep as <- <-; split; [by apply Hframe|done]].
    destruct (negb _ || negb _);
      [injection Hstep as <- <-; split; [by apply Hframe|done]|].
    destruct (camera_online _ _ _).
    + destruct (topic_sn topic) as [serial|];
        [|injection Hstep as <- <-; split; [by apply Hframe|done]].
      fields. case_bool_decide;
        [injection Hstep as <- <-; split; [by apply Hframe|done]|].
      destruct (startStream _ _ _) as [st1 effs1] eqn:Hstart.
      injection Hstep as <- <-.
      change (requests (IoEmit ?d ?k :: ?l)) with (requests l).
      unfold startStream, fresh in Hstart. fields.
      case_bool_decide; [done|].
      destruct (getAcessToken _ _) as [token|] eqn:Htok.
      * apply getAcessToken_truthy in Htok.
        eapply startStream_with_token_ok; [done| |exact Hstart].
        by apply Hframe.
      * unfold await in Hstart. injection Hstart as <- <-.
        split; [by eapply Hins|by repeat constructor].
    + destruct (topic_sn topic) as [serial|];
        [|injection Hstep as <- <-; split; [by apply Hframe|done]].
      fields. case_bool_decide;
        [|injection Hstep as <- <-; split; [by apply Hframe|done]].
      unfold updateDroneStreamStatus, await in Hstep. injection Hstep as <- <-.
      split; [by eapply Hins|by repeat constructor].
  - unfold watchdog_tick, fresh in Hstep. injection Hstep as H.
    apply watchdog_loop_footprint in H.
    destruct H as (_&_&_&_&_&_&_&[(Hp&_&->)|(s&pos'&Hp&_&_&->)]).
    + split; [by apply Hframe|by repeat constructor].
    + split; [by eapply Hins|by repeat constructor].
  - unfold supervisor_tick, loadDronesFromAPI, await, fresh in Hstep.
    case_match; injection Hstep as <- <-.
    + by split.
    + split; [by eapply Hins|by repeat constructor].
  - destruct (pending st !! id) as [t|] eqn:Hlook; [|discriminate].
    assert (Hinv' : tokens_truthy (set_pending (delete id (pending st)) st))
      by by eapply Hdel.
    destruct t; destruct r; cbn [resume] in Hstep; try discriminate.
    + unfold getAcessToken_resume in Hstep.
      destruct access_token as [token|];
        [|injection Hstep as <- <-; by split].
      destruct (truthy_string token) eqn:Htok;
        [|injection Hstep as <- <-; by split].
      injection Hstep as Hstep.
      eapply startStream_with_token_ok; [done| |exact Hstep].
      by eapply Hdel.
    + pose proof (Hinv _ _ token Hlook eq_refl) as Htok.
      destruct drone as [dbDrone|].
      * injection Hstep as Hstep.
        eapply startStream_with_drone_ok; [done| |exact Hstep].
        by eapply Hdel.
      * unfold await, finish in Hstep.
        case_match; injection Hstep as <- <-.
        -- split; [|by repeat constructor].
           intros id0 t0 tok0. fields. lookup_cases id id0.
           ++ by intros [= <-] [= <-].
           ++ apply Hinv.
        -- split; [by eapply Hdel|by repeat constructor].
    + pose proof (Hinv _ _ token Hlook eq_refl) as Htok.
      unfold await, finish in Hstep.
      case_match; injection Hstep as <- <-.
      * split; [|by repeat constructor].
        intros id0 t0 tok0. fields. lookup_cases id id0.
        -- by intros [= <-] [= <-].
        -- apply Hinv.
      * split; [by eapply Hdel|by repeat constructor].
    + unfold updateDroneStreamStatus, await, finish in Hstep.
      repeat case_match; simplify_eq;
        (split; [first [by eapply Hdel|by eapply Hreins]|by repeat constructor]).
    + injection Hstep as <- <-. split; [by eapply Hdel|by repeat constructor].
    + unfold loadDronesFromAPI_resume, await, finish in Hstep.
      repeat case_match; simplify_eq.
      * split; [by eapply Hdel|].
        change (requests (Return ?i ?v :: ?l)) with (requests l).
        by rewrite requests_subscribeToAllDrones.
      * split; [by eapply Hreins|by repeat constructor].
      * split; [by eapply Hdel|by repeat constructor].
    + unfold loadDronesFromAPI, await in Hstep. injection Hstep as <- <-.
      split; [by eapply Hreins|by repeat constructor].
    + injection Hstep as H. apply watchdog_loop_footprint in H.
      destruct H as (_&_&_&_&_&_&_&[(Hp&_&->)|(s&pos'&Hp&_&_&->)]);
        revert Hp; fields; intros Hp.
      * split; [by eapply Hdel|by repeat constructor].
      * split; [by eapply Hreins|by repeat constructor].
    + injection Hstep as <- <-. split; [by eapply Hdel|by repeat constructor].
Qed.

(** X16: in every run from the initial state, every request to the
    streaming gateway carries a non-empty token and a video identifier
    of the form serial/camera/thermal-0 with a non-empty camera: the
    gateway is never asked without a login result or without a
    camera. *)
Theorem gateway_requests_well_formed evs st effs url video_id token :
  run initial_state evs = Some (st, effs) →
  PostStreamStart url video_id token ∈ requests effs →
  truthy_string token = true
  ∧ ∃ droneSN cameraId,
      truthy_string cameraId = true
      ∧ video_id = droneSN +:+ "/" +:+ cameraId +:+ "/thermal-0".
Proof.
  intros Hrun Hin.
  assert (Hall : ∀ evs st st' effs, tokens_truthy st →
            run st evs = Some (st', effs) →
            tokens_truthy st' ∧ Forall gateway_request_ok (requests effs)).
  { clear. induction evs as [|ev evs IH]; intros st st' effs Hinv Hrun.
    - injection Hrun as <- <-. by split.
    - apply run_cons in Hrun as (st1 & effs1 & effs2 & H1 & H2 & ->).
      destruct (step_gateway_request_ok _ _ _ _ Hinv H1) as [Hinv1 Hok1].
      destruct (IH _ _ _ Hinv1 H2) as [Hinv2 Hok2].
      split; [done|]. rewrite requests_app. by apply Forall_app. }
  destruct (Hall evs initial_state st effs) as [_ Hok]; [|done|].
  { intros id t tok Hl. cbn in Hl. by rewrite lookup_empty in Hl. }
  rewrite Forall_forall in Hok. exact (Hok _ Hin).
Qed.

Lemma gateway_requests_well_formed_witness :
  truthy_string "tokA" = true
  ∧ ∃ droneSN cameraId,
      truthy_string cameraId = true
      ∧ "BC001/camA/thermal-0" = droneSN +:+ "/" +:+ cameraId +:+ "/thermal-0".
Proof.
  apply (gateway_requests_well_formed Scenario.until_stopped
           Scenario.stopped.1 Scenario.stopped.2
           "userName=&password=&port=8554" "BC001/camA/thermal-0" "tokA").
  - vm_compute. reflexivity.
  - vm_compute. repeat constructor.
Defined.

(** ** A variable that is written and never read *)

Lemma watchdog_loop_forget id now entries : ∀ pos st,
  forget_retryCount_result (watchdog_loop id now entries pos (forget_retryCount st))
  = forget_retryCount_result (watchdog_loop id now entries pos st).
Proof.
  induction entries as [|[[k t]|] entries IH]; intros pos st;
    cbn [watchdog_loop]; [done| |apply IH].
  destruct (inactive now t); [|apply IH].
  destruct k as [serial|]; [|apply (IH _ (set_droneLastMessageTime _ st))].
  change (startedStreams (forget_retryCount st)) with (startedStreams st).
  case_bool_decide; [done|].
  apply (IH _ (set_droneLastMessageTime _ st)).
Qed.

Lemma startStream_with_drone_forget id droneSN token drone st :
  forget_retryCount_result
    (startStream_with_drone id droneSN token drone (forget_retryCount st))
  = forget_retryCount_result (startStream_with_drone id droneSN token drone st).
Proof.
  unfold startStream_with_drone, await, finish.
  by destruct (first_camera (cameras drone)).
Qed.

Lemma startStream_with_token_forget id droneSN token st :
  forget_retryCount_result
    (startStream_with_token id droneSN token (forget_retryCount st))
  = forget_retryCount_result (startStream_with_token id droneSN token st).
Proof.
  unfold startStream_with_token.
  change (dronesConfig (forget_retryCount st)) with (dronesConfig st).
  destruct (find_drone (dronesConfig st) (Some droneSN)) as [drone|].
  - apply startStream_with_drone_forget.
  - unfold await, finish. by case_match.
Qed.

Lemma startStream_forget droneSN now st :
  forget_retryCount_result (startStream droneSN now (forget_retryCount st))
  = forget_retryCount_result (startStream droneSN now st).
Proof.
  unfold startStream, fresh, getAcessToken. fields.
  change (startedStreams (forget_retryCount st)) with (startedStreams st).
  case_bool_decide; [done|].
  change (cachedToken (forget_retryCount st)) with (cachedToken st).
  change (tokenExpiry (forget_retryCount st)) with (tokenExpiry st).
  destruct (match cachedToken st with Some _ => _ | None => _ end) as [token|];
    [|done].
  apply (startStream_with_token_forget _ _ _
           {| droneSNs := droneSNs st; dronesConfig := dronesConfig st;
              databaseConnected := databaseConnected st;
              retryCount := retryCount st; cachedToken := cachedToken st;
              tokenExpiry := tokenExpiry st;
              startedStreams := startedStreams st;
              droneLastMessageTime := droneLastMessageTime st;
              pending := pending st; nextId := S (nextId st) |}).
Qed.

Lemma on_message_forget topic message now st :
  forget_retryCount_result (on_message topic message now (forget_retryCount st))
  = forget_retryCount_result (on_message topic message now st).
Proof.
  unfold on_message. destruct message as [droneData|]; [|done].
  destruct (get_prop (Some droneData) "data") as [data| |]; [|done|done].
  destruct (negb (truthy data) || negb (typeof_object data)); [done|].
  unfold camera_online, getDroneFirstCamera. fields.
  change (dronesConfig (forget_retryCount st)) with (dronesConfig st).
  change (startedStreams (forget_retryCount st)) with (startedStreams st).
  destruct (match find_drone (dronesConfig st) (topic_sn topic) ≫= _ with
            | Some _ => _ | None => _ end).
  - destruct (topic_sn topic) as [serial|]; [|done].
    case_bool_decide; [done|].
    pose proof (startStream_forget serial now
                  (set_droneLastMessageTime
                     (map_set (droneLastMessageTime st) (Some serial) now) st))
      as Hs.
    change (forget_retryCount (set_droneLastMessageTime ?m st))
      with (set_droneLastMessageTime m (forget_retryCount st)) in Hs.
    unfold forget_retryCount_result in *.
    destruct (startStream serial now (set_droneLastMessageTime _ (forget_retryCount st))).
    destruct (startStream serial now (set_droneLastMessageTime _ st)).
    pose proof (f_equal fst Hs) as H1. pose proof (f_equal snd Hs) as H2.
    cbn [fst snd] in *. by rewrite H1, H2.
  - destruct (topic_sn topic) as [serial|]; [|done].
    by case_bool_decide.
Qed.

Lemma step_forget_retryCount st ev :
  forget_retryCount_result <$> step (forget_retryCount st) ev
  = forget_retryCount_result <$> step st ev.
Proof.
  destruct ev as [|topic message now|now| |id r random]; cbn [step].
  - done.
  - cbn [fmap option_fmap option_map]. f_equal. apply on_message_forget.
  - cbn [fmap option_fmap option_map]. f_equal.
    unfold watchdog_tick, fresh.
    apply (watchdog_loop_forget _ _ _ 0
             {| droneSNs := droneSNs st; dronesConfig := dronesConfig st;
                databaseConnected := databaseConnected st;
                retryCount := retryCount st; cachedToken := cachedToken st;
                tokenExpiry := tokenExpiry st;
                startedStreams := startedStreams st;
                droneLastMessageTime := droneLastMessageTime st;
                pending := pending st; nextId := S (nextId st) |}).
  - unfold supervisor_tick, loadDronesFromAPI, await, fresh.
    change (databaseConnected (forget_retryCount st)) with (databaseConnected st).
    by destruct (databaseConnected st).
  - change (pending (forget_retryCount st)) with (pending st).
    destruct (pending st !! id) as [t|]; [|done].
    destruct t; destruct r; cbn [resume]; try done.
    + unfold getAcessToken_resume.
      destruct access_token as [token|]; [|done].
      destruct (truthy_string token); [|done].
      cbn [fmap option_fmap option_map]. f_equal.
      apply (startStream_with_token_forget _ _ _
               (set_cachedToken _ (set_pending _ st))).
    + destruct drone as [dbDrone|].
      * cbn [fmap option_fmap option_map]. f_equal.
        apply (startStream_with_drone_forget _ _ _ _
                 (set_drones _ _ (set_pending _ st))).
      * by case_match.
    + by case_match.
    + destruct r as [[status streamUrl]|]; [|done]. by case_match.
    + unfold loadDronesFromAPI_resume. destruct drones as [drones|]; [done|].
      by case_match.
    + cbn [fmap option_fmap option_map]. f_equal.
      apply (watchdog_loop_forget _ _ _ _
               (set_droneLastMessageTime _ (set_pending _ st))).
Qed.

Lemma forget_retryCount_result_eq r1 r2 :
  forget_retryCount_result r1 = forget_retryCount_result r2 →
  forget_retryCount r1.1 = forget_retryCount r2.1 ∧ r1.2 = r2.2.
Proof.
  intros H. split; [exact (f_equal fst H)|exact (f_equal snd H)].
Qed.

(** X17: [retryCount] is written (lines 67 and 80) and never read: the
    same events from two states that differ only in [retryCount] are
    possible or impossible alike, produce the same effects, and end in
    states that differ at most in [retryCount]. *)
Theorem retryCount_is_never_read st n evs :
  forget_retryCount_result <$> run (set_retryCount n st) evs
  = forget_retryCount_result <$> run st evs.
Proof.
  assert (Hsame : forget_retryCount (set_retryCount n st) = forget_retryCount st)
    by reflexivity.
  revert Hsame. generalize (set_retryCount n st). intros st1. revert st1 st.
  induction evs as [|ev evs IH]; intros st1 st2 Hsame.
  - cbn. unfold forget_retryCount_result. cbn. by rewrite Hsame.
  - cbn [run].
    pose proof (step_forget_retryCount st1 ev) as H1.
    pose proof (step_forget_retryCount st2 ev) as H2.
    rewrite Hsame, H2 in H1. clear H2. symmetry in H1.
    destruct (step st1 ev) as [[s1 e1]|], (step st2 ev) as [[s2 e2]|];
      try discriminate H1; [|done].
    apply (inj Some), forget_retryCount_result_eq in H1 as [Hs He].
    cbn [fst snd] in Hs, He. subst e2.
    specialize (IH s1 s2 Hs).
    destruct (run s1 evs) as [[s1' e1']|], (run s2 evs) as [[s2' e2']|];
      try discriminate IH; [|done].
    apply (inj Some), forget_retryCount_result_eq in IH as [Hs' He'].
    cbn [fst snd] in Hs', He'. subst e2'.
    cbn. unfold forget_retryCount_result. cbn [fst snd]. by rewrite Hs'.
Qed.
